(** * LLMGraphChat: the natural-language-to-graph-query pipeline

    A shallow embedding of [src/lib/neo4j.ts] (result normalisation and
    schema introspection), of the query synthesizer [generateCypherQuery]
    and of the chat route [src/app/api/chat/route.ts], followed by the
    properties of the specification that are stated about them.

    Conventions.
    - A JavaScript string is a Rocq [string]; text outside ASCII is carried
      as its UTF-8 bytes.  The regular expressions of the sources only name
      ASCII characters and the label 妻子, and the byte [")"] never occurs
      inside a multi-byte sequence, so matching on bytes and matching on
      UTF-16 code units select the same substrings.  A white-space character
      outside ASCII is recognised by its bytes.  [toLowerCase] maps the ASCII
      letters; the texts it is searched for hold none of the letters that a
      character outside ASCII can give.
    - A call that may throw returns [Exc A]; [try ... catch] is [try_catch].
    - The database and the LLM are oracles threaded through a world state;
      every call is appended to a trace. *)

From Stdlib Require Import Ascii String List Arith ZArith Lia Bool.
From stdpp Require Import base option list strings gmap pretty.

Import ListNotations.
Local Open Scope string_scope.
Local Open Scope list_scope.

(** ** JavaScript strings *)

Module JsString.

Definition chars (s : string) : list ascii := list_ascii_of_string s.
Definition str (l : list ascii) : string := string_of_list_ascii l.

Definition ascii_eqb (a b : ascii) : bool := Ascii.eqb a b.

(** The double quote character. *)
Definition dquote : ascii := ascii_of_nat 34.
(** The one-character string made of a double quote. *)
Definition dq : string := String dquote EmptyString.

(** [l.startsWith(p)] on character lists. *)
Fixpoint starts_with (p l : list ascii) : bool :=
  match p, l with
  | [], _ => true
  | _ :: _, [] => false
  | a :: p', b :: l' => ascii_eqb a b && starts_with p' l'
  end.

(** [String.prototype.includes]. *)
Fixpoint includes_chars (l p : list ascii) : bool :=
  starts_with p l ||
  match l with
  | [] => false
  | _ :: l' => includes_chars l' p
  end.

Definition includes (s p : string) : bool := includes_chars (chars s) (chars p).

(** ASCII white space: the space and the characters 9 to 13. *)
Definition is_space (c : ascii) : bool :=
  let n := nat_of_ascii c in
  Nat.eqb n 32 || (Nat.leb 9 n && Nat.leb n 13).

(** The white space outside ASCII, by its UTF-8 bytes: U+00A0, U+1680,
    U+2000 to U+200A, U+2028, U+2029, U+202F, U+205F, U+3000 and U+FEFF. *)
Definition wide_space_bytes (x y : nat) (z : option nat) : bool :=
  match z with
  | None => Nat.eqb x 194 && Nat.eqb y 160
  | Some z =>
      (Nat.eqb x 225 && Nat.eqb y 154 && Nat.eqb z 128) ||
      (Nat.eqb x 226 && Nat.eqb y 128 &&
       ((Nat.leb 128 z && Nat.leb z 138) || Nat.eqb z 168 || Nat.eqb z 169
        || Nat.eqb z 175)) ||
      (Nat.eqb x 226 && Nat.eqb y 129 && Nat.eqb z 159) ||
      (Nat.eqb x 227 && Nat.eqb y 128 && Nat.eqb z 128) ||
      (Nat.eqb x 239 && Nat.eqb y 187 && Nat.eqb z 191)
  end.

(** The text after a white-space character outside ASCII at its head. *)
Definition wide_space (l : list ascii) : option (list ascii) :=
  match l with
  | a :: b :: l2 =>
      if wide_space_bytes (nat_of_ascii a) (nat_of_ascii b) None then Some l2
      else
        match l2 with
        | c :: l3 =>
            if wide_space_bytes (nat_of_ascii a) (nat_of_ascii b) (Some (nat_of_ascii c))
            then Some l3 else None
        | [] => None
        end
  | _ => None
  end.

(** The same at the end of a text, given reversed. *)
Definition wide_space_rev (l : list ascii) : option (list ascii) :=
  match l with
  | b :: a :: l2 =>
      if wide_space_bytes (nat_of_ascii a) (nat_of_ascii b) None then Some l2
      else
        match l2 with
        | a' :: l3 =>
            if wide_space_bytes (nat_of_ascii a') (nat_of_ascii a) (Some (nat_of_ascii b))
            then Some l3 else None
        | [] => None
        end
  | _ => None
  end.

(** The text after one white-space character recognised by [\s] and by
    [trim]. *)
Definition space_step (wide : list ascii -> option (list ascii)) (l : list ascii)
    : option (list ascii) :=
  match l with
  | c :: l' => if is_space c then Some l' else wide l
  | [] => None
  end.

Fixpoint trim_with (wide : list ascii -> option (list ascii)) (n : nat) (l : list ascii)
    : list ascii :=
  match n with
  | O => l
  | S n' =>
      match space_step wide l with
      | Some l' => trim_with wide n' l'
      | None => l
      end
  end.

Definition trim_start (l : list ascii) : list ascii :=
  trim_with wide_space (length l) l.

Definition trim_chars (l : list ascii) : list ascii :=
  let l1 := rev (trim_start l) in
  rev (trim_with wide_space_rev (length l1) l1).

(** [String.prototype.trim]. *)
Definition trim (s : string) : string := str (trim_chars (chars s)).

Definition lower_char (c : ascii) : ascii :=
  let n := nat_of_ascii c in
  if Nat.leb 65 n && Nat.leb n 90 then ascii_of_nat (n + 32) else c.

Definition upper_char (c : ascii) : ascii :=
  let n := nat_of_ascii c in
  if Nat.leb 97 n && Nat.leb n 122 then ascii_of_nat (n - 32) else c.

(** [String.prototype.toLowerCase]. *)
Definition toLowerCase (s : string) : string := str (map lower_char (chars s)).

(** A string is truthy when it is not empty. *)
Definition truthy (s : string) : bool :=
  match s with EmptyString => false | String _ _ => true end.

End JsString.

(** ** Plain objects used as maps

    An object literal [{}] inherits the members of [Object.prototype]:
    reading a key that was not assigned finds the inherited member when the
    key is one of these names, and an assignment to [__proto__] stores no
    member of the object (it replaces the prototype when the value is an
    object, and does nothing otherwise). *)

Module JsObject.

Definition object_prototype_names : list string :=
  ["constructor"; "__proto__"; "hasOwnProperty"; "isPrototypeOf";
   "propertyIsEnumerable"; "toLocaleString"; "toString"; "valueOf";
   "__defineGetter__"; "__defineSetter__"; "__lookupGetter__"; "__lookupSetter__"].

(** The names of the members of [Array.prototype] (ECMAScript 2023). *)
Definition array_prototype_names : list string :=
  ["length"; "constructor"; "at"; "concat"; "copyWithin"; "entries"; "every"; "fill";
   "filter"; "find"; "findIndex"; "findLast"; "findLastIndex"; "flat"; "flatMap";
   "forEach"; "includes"; "indexOf"; "join"; "keys"; "lastIndexOf"; "map"; "pop";
   "push"; "reduce"; "reduceRight"; "reverse"; "shift"; "slice"; "some"; "sort";
   "splice"; "toLocaleString"; "toReversed"; "toSorted"; "toSpliced"; "toString";
   "unshift"; "values"; "with"].

Definition named (names : list string) (k : string) : bool :=
  existsb (String.eqb k) names.

(** A key under which a plain object finds an inherited member. *)
Definition inherited (k : string) : bool := named object_prototype_names k.

(** A key under which an array of [n] elements has a member of its own or
    an inherited one. *)
Definition array_member (n : nat) (k : string) : bool :=
  existsb (fun i => String.eqb k (pretty i)) (seq 0 n)
  || named array_prototype_names k || inherited k.

End JsObject.

(** ** Backtracking regular expressions

    The fragment of ECMAScript regular expressions used by the sources:
    character classes, concatenation, greedy and lazy repetition, optional
    groups and numbered capture groups, matched by backtracking with the
    priorities of the language (greedy: longest first; lazy: shortest
    first; leftmost start position). *)

Module Regex.
Import JsString.

Inductive citem : Type :=
| CChar (c : ascii)
| CSpace.

Definition citem_matches (i : citem) (c : ascii) : bool :=
  match i with
  | CChar d => ascii_eqb d c
  | CSpace => is_space c
  end.

Inductive re : Type :=
| Eps
| Cls (negated : bool) (items : list citem)
| Seq (r1 r2 : re)
| Opt (r : re)
| Star (greedy : bool) (r : re)
| Grp (i : nat) (r : re).

Definition cls_matches (negated : bool) (items : list citem) (c : ascii) : bool :=
  xorb negated (existsb (fun i => citem_matches i c) items).

Definition has_space (items : list citem) : bool :=
  existsb (fun i => match i with CSpace => true | CChar _ => false end) items.

(** One character of a class at the head of the text, and the text after
    it.  A class that names [\s] sees a white-space character outside ASCII
    as one character; any other class reads one byte. *)
Definition cls_step (negated : bool) (items : list citem) (s : list ascii)
    : option (list ascii) :=
  match s with
  | [] => None
  | a :: s' =>
      match (if has_space items then wide_space s else None) with
      | Some rest => if negated then None else Some rest
      | None => if cls_matches negated items a then Some s' else None
      end
  end.

(** [[\s\S]]. *)
Definition Any : re := Cls true [].
Definition Chr (c : ascii) : re := Cls false [CChar c].
(** A letter under the [i] flag. *)
Definition ChrI (c : ascii) : re := Cls false [CChar (lower_char c); CChar (upper_char c)].
Definition Plus (r : re) : re := Seq r (Star true r).

Fixpoint Lit_chars (l : list ascii) : re :=
  match l with
  | [] => Eps
  | c :: l' => Seq (Chr c) (Lit_chars l')
  end.
Definition Lit (s : string) : re := Lit_chars (chars s).

Fixpoint LitI_chars (l : list ascii) : re :=
  match l with
  | [] => Eps
  | c :: l' => Seq (ChrI c) (LitI_chars l')
  end.
Definition LitI (s : string) : re := LitI_chars (chars s).

Fixpoint seqs (rs : list re) : re :=
  match rs with
  | [] => Eps
  | [r] => r
  | r :: rs' => Seq r (seqs rs')
  end.

(** Captures, most recent binding first. *)
Definition caps : Type := list (nat * list ascii).

Fixpoint cap_get (c : caps) (i : nat) : option (list ascii) :=
  match c with
  | [] => None
  | (j, v) :: c' => if Nat.eqb i j then Some v else cap_get c' i
  end.

(** Repetition of a matcher [m1], at most [n] times, each round consuming
    at least one character: a round that matches the empty text is
    refused.  Greedy repetition tries one more round first, lazy
    repetition tries the continuation first. *)
Fixpoint star_loop {R : Type} (greedy : bool)
    (m1 : list ascii -> caps -> (list ascii -> caps -> option R) -> option R)
    (k : list ascii -> caps -> option R)
    (n : nat) (s : list ascii) (c : caps) {struct n} : option R :=
  match n with
  | O => k s c
  | S n' =>
      let more (_ : unit) :=
        m1 s c (fun s' c' =>
                  if Nat.ltb (length s') (length s)
                  then star_loop greedy m1 k n' s' c' else None) in
      if greedy then
        match more tt with
        | Some x => Some x
        | None => k s c
        end
      else
        match k s c with
        | Some x => Some x
        | None => more tt
        end
  end.

(** [rmatch r s c k]: match [r] at the head of [s], then continue with [k]
    on the rest; [None] makes the matcher backtrack. *)
Fixpoint rmatch {R : Type} (r : re) (s : list ascii) (c : caps)
    (k : list ascii -> caps -> option R) {struct r} : option R :=
  match r with
  | Eps => k s c
  | Cls negated items =>
      match cls_step negated items s with
      | Some s' => k s' c
      | None => None
      end
  | Seq r1 r2 => rmatch r1 s c (fun s' c' => rmatch r2 s' c' k)
  | Opt r1 =>
      match rmatch r1 s c k with
      | Some x => Some x
      | None => k s c
      end
  | Star greedy r1 =>
      star_loop greedy (fun s' c' k' => rmatch r1 s' c' k') k (length s) s c
  | Grp i r1 =>
      rmatch r1 s c
        (fun s' c' => k s' ((i, take (length s - length s') s) :: c'))
  end.

(** A successful match: the text before it, the matched text, the captures
    and the text after it. *)
Record match_result : Type := MkMatch {
  m_before : list ascii;
  m_text : list ascii;
  m_caps : caps;
  m_after : list ascii
}.

(** Match at the head of [s] only. *)
Definition match_here (r : re) (s : list ascii) : option (list ascii * caps * list ascii) :=
  rmatch r s [] (fun s' c => Some (take (length s - length s') s, c, s')).

(** Leftmost match in [s]; [pre] is the text already skipped, reversed. *)
Fixpoint search_from (r : re) (pre : list ascii) (s : list ascii) : option match_result :=
  match match_here r s with
  | Some (m, c, rest) => Some (MkMatch (rev pre) m c rest)
  | None =>
      match s with
      | [] => None
      | a :: s' => search_from r (a :: pre) s'
      end
  end.

Definition search (r : re) (s : list ascii) : option match_result := search_from r [] s.

(** [s.match(r)] for a regular expression without the [g] flag. *)
Definition js_match (r : re) (s : string) : option match_result := search r (chars s).

(** The [i]-th group of a match as a string; [None] when the group did not
    take part in the match. *)
Definition group (m : match_result) (i : nat) : option string :=
  match i with
  | O => Some (str (m_text m))
  | _ => str <$> cap_get (m_caps m) i
  end.

(** Replacement templates: literal text and [$n]. *)
Inductive tpiece : Type :=
| TLit (s : string)
| TGrp (i : nat).

Definition expand_piece (c : caps) (p : tpiece) : list ascii :=
  match p with
  | TLit s => chars s
  | TGrp i => default [] (cap_get c i)
  end.

Definition expand (t : list tpiece) (c : caps) : list ascii :=
  concat (map (expand_piece c) t).

(** [s.replace(r, t)] with the [g] flag: every match, left to right, the
    search resuming after the previous match (one character further after
    an empty match). *)
Fixpoint replace_all_chars (fuel : nat) (r : re) (t : list tpiece) (s : list ascii)
    : list ascii :=
  match fuel with
  | O => s
  | S fuel' =>
      match search r s with
      | None => s
      | Some m =>
          m_before m ++ expand t (m_caps m) ++
          match m_text m, m_after m with
          | [], a :: rest => a :: replace_all_chars fuel' r t rest
          | [], [] => []
          | _ :: _, rest => replace_all_chars fuel' r t rest
          end
      end
  end.

Definition replace_all (r : re) (t : list tpiece) (s : string) : string :=
  str (replace_all_chars (S (String.length s)) r t (chars s)).

(** [s.replace(r, t)] without the [g] flag: the first match only. *)
Definition replace_first (r : re) (t : list tpiece) (s : string) : string :=
  match js_match r s with
  | None => s
  | Some m => str (m_before m ++ expand t (m_caps m) ++ m_after m)
  end.

(** The texts of a regular expression, without regard to priorities. *)
Inductive lang : re -> list ascii -> Prop :=
| L_eps : lang Eps []
| L_cls negated items p rest :
    cls_step negated items (p ++ rest) = Some rest -> lang (Cls negated items) p
| L_seq r1 r2 p1 p2 : lang r1 p1 -> lang r2 p2 -> lang (Seq r1 r2) (p1 ++ p2)
| L_opt_some r p : lang r p -> lang (Opt r) p
| L_opt_none r : lang (Opt r) []
| L_star_nil g r : lang (Star g r) []
| L_star_cons g r p1 p2 :
    lang r p1 -> lang (Star g r) p2 -> lang (Star g r) (p1 ++ p2)
| L_grp i r p : lang r p -> lang (Grp i r) p.

(** The order in which a greedy run over [u] hands the rest to its
    continuation: after all of [u] first, then after one character less,
    and so on. *)
Fixpoint try_back {R : Type} (k : list ascii -> caps -> option R)
    (u rest : list ascii) (c : caps) : option R :=
  match u with
  | [] => k rest c
  | a :: u' =>
      match try_back k u' rest c with
      | Some x => Some x
      | None => k (a :: u' ++ rest) c
      end
  end.

Definition no_paren (u : list ascii) : Prop := Forall (fun a => a <> ")"%char) u.

Definition no_bracket (u : list ascii) : Prop := Forall (fun a => a <> "]"%char) u.

(** The text after a run: empty, or starting with a closing parenthesis. *)
Definition stops (rest : list ascii) : Prop :=
  rest = [] \/ exists r, rest = ")"%char :: r.

(** The text has no occurrence of the character. *)
Definition lacks (c : ascii) (s : string) : bool :=
  forallb (fun a => negb (ascii_eqb a c)) (chars s).

End Regex.

(** ** JSON values and [JSON.parse] *)

Module Json.
Import JsString.

(** A number is kept as its literal text. *)
#[local] Set Warnings "-register-all".

Inductive json : Type :=
| JNull
| JBool (b : bool)
| JNum (literal : string)
| JStr (s : string)
| JArr (items : list json)
| JObj (members : list (string * json)).

(** [o[k]] on the members of an object in source order: a repeated key
    keeps its last value. *)
Fixpoint member (ms : list (string * json)) (k : string) : option json :=
  match ms with
  | [] => None
  | (k', v) :: ms' =>
      match member ms' k with
      | Some w => Some w
      | None => if String.eqb k k' then Some v else None
      end
  end.

Definition is_digit (c : ascii) : bool :=
  let n := nat_of_ascii c in Nat.leb 48 n && Nat.leb n 57.

Definition is_nonzero_digit (c : ascii) : bool :=
  let n := nat_of_ascii c in Nat.leb 49 n && Nat.leb n 57.

(** The digits of a number literal before its exponent. *)
Fixpoint mantissa (l : list ascii) : list ascii :=
  match l with
  | [] => []
  | c :: l' =>
      if ascii_eqb c "e" || ascii_eqb c "E" then [] else c :: mantissa l'
  end.

(** The characters of a number literal after the letter of its exponent. *)
Fixpoint exponent (l : list ascii) : list ascii :=
  match l with
  | [] => []
  | c :: l' =>
      if ascii_eqb c "e" || ascii_eqb c "E" then l' else exponent l'
  end.

(** The characters after the decimal point. *)
Fixpoint fraction (l : list ascii) : list ascii :=
  match l with
  | [] => []
  | c :: l' => if ascii_eqb c "." then l' else fraction l'
  end.

(** The number written by the digits of a text, its other characters
    skipped. *)
Fixpoint digits_value (l : list ascii) (acc : N) : N :=
  match l with
  | [] => acc
  | c :: l' =>
      digits_value l'
        (if is_digit c then (acc * 10 + N.of_nat (nat_of_ascii c - 48))%N else acc)
  end.

Definition count_digits (l : list ascii) : nat := length (List.filter is_digit l).

(** Whether the literal is read as zero: its digits are all zero, or its
    value [m * 10^d] is at most [2^-1075], half the least positive double,
    which rounds to zero.  A value below [10^-330] is below that bound
    whatever its digits. *)
Definition reads_as_zero (lit : string) : bool :=
  let ms := mantissa (chars lit) in
  let m := digits_value ms 0 in
  let e :=
    match exponent (chars lit) with
    | c :: l' =>
        if ascii_eqb c "-" then (- Z.of_N (digits_value l' 0))%Z
        else Z.of_N (digits_value (c :: l') 0)
    | [] => 0%Z
    end in
  let d := (e - Z.of_nat (count_digits (fraction ms)))%Z in
  if N.eqb m 0 then true
  else if Z.leb 0 d then false
  else if Z.leb (Z.of_nat (count_digits ms) + 330) (- d) then true
  else N.leb (m * 2 ^ 1075) (10 ^ Z.to_N (- d)).

(** [!!v]. *)
Definition truthy (v : json) : bool :=
  match v with
  | JNull => false
  | JBool b => b
  | JNum lit => negb (reads_as_zero lit)
  | JStr s => JsString.truthy s
  | JArr _ => true
  | JObj _ => true
  end.

(** JSON white space: space, tab, line feed, carriage return. *)
Definition is_ws (c : ascii) : bool :=
  let n := nat_of_ascii c in
  Nat.eqb n 32 || Nat.eqb n 9 || Nat.eqb n 10 || Nat.eqb n 13.

Fixpoint skip_ws (l : list ascii) : list ascii :=
  match l with
  | c :: l' => if is_ws c then skip_ws l' else l
  | [] => []
  end.

Definition hex_val (c : ascii) : option nat :=
  let n := nat_of_ascii c in
  if Nat.leb 48 n && Nat.leb n 57 then Some (n - 48)
  else if Nat.leb 65 n && Nat.leb n 70 then Some (n - 55)
  else if Nat.leb 97 n && Nat.leb n 102 then Some (n - 87)
  else None.

(** UTF-8 bytes of a code unit below 0x10000.  A surrogate that stands
    alone has no UTF-8 of its own and is carried as the three bytes that
    this gives. *)
Definition utf8 (u : N) : list ascii :=
  (if u <? 128 then [ascii_of_N u]
   else if u <? 2048 then
     [ascii_of_N (192 + u / 64); ascii_of_N (128 + u mod 64)]
   else
     [ascii_of_N (224 + u / 4096); ascii_of_N (128 + (u / 64) mod 64);
      ascii_of_N (128 + u mod 64)])%N.

(** UTF-8 bytes of the code point of a surrogate pair. *)
Definition utf8_pair (high low : N) : list ascii :=
  (let u := 65536 + (high - 55296) * 1024 + (low - 56320) in
   [ascii_of_N (240 + u / 262144); ascii_of_N (128 + (u / 4096) mod 64);
    ascii_of_N (128 + (u / 64) mod 64); ascii_of_N (128 + u mod 64)])%N.

Definition is_high_surrogate (u : N) : bool := (55296 <=? u)%N && (u <? 56320)%N.
Definition is_low_surrogate (u : N) : bool := (56320 <=? u)%N && (u <? 57344)%N.

Definition hex4 (h1 h2 h3 h4 : ascii) : option N :=
  match hex_val h1, hex_val h2, hex_val h3, hex_val h4 with
  | Some a, Some b, Some c, Some d =>
      Some (N.of_nat a * 4096 + N.of_nat b * 256 + N.of_nat c * 16 + N.of_nat d)%N
  | _, _, _, _ => None
  end.

Definition escape (c : ascii) : option ascii :=
  if ascii_eqb c dquote then Some dquote
  else if ascii_eqb c "\" then Some "\"%char
  else if ascii_eqb c "/" then Some "/"%char
  else if ascii_eqb c "b" then Some (ascii_of_nat 8)
  else if ascii_eqb c "f" then Some (ascii_of_nat 12)
  else if ascii_eqb c "n" then Some (ascii_of_nat 10)
  else if ascii_eqb c "r" then Some (ascii_of_nat 13)
  else if ascii_eqb c "t" then Some (ascii_of_nat 9)
  else None.

(** The body of a string literal after its opening quote; [acc] is the
    decoded text so far, reversed.  The escape of a high surrogate that is
    followed at once by the escape of a low surrogate is one character. *)
Fixpoint parse_string_body (l : list ascii) (acc : list ascii)
    : option (string * list ascii) :=
  match l with
  | [] => None
  | c :: l' =>
      if ascii_eqb c dquote then Some (str (rev acc), l')
      else if ascii_eqb c "\" then
        match l' with
        | e :: l2 =>
            if ascii_eqb e "u" then
              match l2 with
              | h1 :: h2 :: h3 :: h4 :: l3 =>
                  match hex4 h1 h2 h3 h4 with
                  | Some u =>
                      match l3 with
                      | b1 :: b2 :: k1 :: k2 :: k3 :: k4 :: l4 =>
                          match hex4 k1 k2 k3 k4 with
                          | Some v =>
                              if is_high_surrogate u && ascii_eqb b1 "\"
                                 && ascii_eqb b2 "u" && is_low_surrogate v
                              then parse_string_body l4 (rev (utf8_pair u v) ++ acc)
                              else parse_string_body l3 (rev (utf8 u) ++ acc)
                          | None => parse_string_body l3 (rev (utf8 u) ++ acc)
                          end
                      | _ => parse_string_body l3 (rev (utf8 u) ++ acc)
                      end
                  | None => None
                  end
              | _ => None
              end
            else
              match escape e with
              | Some x => parse_string_body l2 (x :: acc)
              | None => None
              end
        | [] => None
        end
      else if Nat.ltb (nat_of_ascii c) 32 then None
      else parse_string_body l' (c :: acc)
  end.

Fixpoint span_digits (l : list ascii) : list ascii * list ascii :=
  match l with
  | c :: l' =>
      if is_digit c then let (d, r) := span_digits l' in (c :: d, r) else ([], l)
  | [] => ([], [])
  end.

(** A number literal: an optional minus sign, an integer part without
    leading zero, an optional fraction and an optional exponent. *)
Definition parse_number (l : list ascii) : option (string * list ascii) :=
  let (sign, l1) :=
    match l with
    | c :: l' => if ascii_eqb c "-" then ([c], l') else ([], l)
    | [] => ([], l)
    end in
  let (int, l2) := span_digits l1 in
  match int with
  | [] => None
  | d :: ds =>
      if ascii_eqb d "0" && negb (Nat.eqb (length ds) 0) then
        (* a leading zero ends the integer part *)
        None
      else
        let '(frac, l3) :=
          match l2 with
          | c :: l' =>
              if ascii_eqb c "." then
                let (f, r) := span_digits l' in
                match f with
                | [] => (None, l2)
                | _ => (Some (c :: f), r)
                end
              else (Some [], l2)
          | [] => (Some [], l2)
          end in
        match frac with
        | None => None
        | Some fr =>
            let '(ex, l4) :=
              match l3 with
              | c :: l' =>
                  if ascii_eqb c "e" || ascii_eqb c "E" then
                    let (sg, l'') :=
                      match l' with
                      | g :: r =>
                          if ascii_eqb g "+" || ascii_eqb g "-" then ([g], r) else ([], l')
                      | [] => ([], l')
                      end in
                    let (e, r) := span_digits l'' in
                    match e with
                    | [] => (None, l3)
                    | _ => (Some (c :: sg ++ e), r)
                    end
                  else (Some [], l3)
              | [] => (Some [], l3)
              end in
            match ex with
            | None => None
            | Some e => Some (str (sign ++ int ++ fr ++ e), l4)
            end
        end
  end.

Definition is_number_start (c : ascii) : bool := ascii_eqb c "-" || is_digit c.

(** Recursive descent; every call consumes at least one character before
    it recurses, so a fuel of the length of the text is enough. *)
Fixpoint parse_value (fuel : nat) (l : list ascii) : option (json * list ascii) :=
  match fuel with
  | O => None
  | S fuel' =>
      match skip_ws l with
      | [] => None
      | c :: l' =>
          if ascii_eqb c "{" then
            match skip_ws l' with
            | c2 :: l2 =>
                if ascii_eqb c2 "}" then Some (JObj [], l2)
                else parse_members fuel' (c2 :: l2) []
            | [] => None
            end
          else if ascii_eqb c "[" then
            match skip_ws l' with
            | c2 :: l2 =>
                if ascii_eqb c2 "]" then Some (JArr [], l2)
                else parse_items fuel' (c2 :: l2) []
            | [] => None
            end
          else if ascii_eqb c dquote then
            match parse_string_body l' [] with
            | Some (s, r) => Some (JStr s, r)
            | None => None
            end
          else if starts_with (chars "true") (c :: l') then
            Some (JBool true, drop 4 (c :: l'))
          else if starts_with (chars "false") (c :: l') then
            Some (JBool false, drop 5 (c :: l'))
          else if starts_with (chars "null") (c :: l') then
            Some (JNull, drop 4 (c :: l'))
          else if is_number_start c then
            match parse_number (c :: l') with
            | Some (n, r) => Some (JNum n, r)
            | None => None
            end
          else None
      end
  end
with parse_members (fuel : nat) (l : list ascii) (acc : list (string * json))
    : option (json * list ascii) :=
  match fuel with
  | O => None
  | S fuel' =>
      match skip_ws l with
      | c :: l1 =>
          if ascii_eqb c dquote then
            match parse_string_body l1 [] with
            | Some (key, l2) =>
                match skip_ws l2 with
                | c3 :: l3 =>
                    if ascii_eqb c3 ":" then
                      match parse_value fuel' l3 with
                      | Some (v, l4) =>
                          match skip_ws l4 with
                          | c5 :: l5 =>
                              if ascii_eqb c5 "," then
                                parse_members fuel' l5 ((key, v) :: acc)
                              else if ascii_eqb c5 "}" then
                                Some (JObj (rev ((key, v) :: acc)), l5)
                              else None
                          | [] => None
                          end
                      | None => None
                      end
                    else None
                | [] => None
                end
            | None => None
            end
          else None
      | [] => None
      end
  end
with parse_items (fuel : nat) (l : list ascii) (acc : list json)
    : option (json * list ascii) :=
  match fuel with
  | O => None
  | S fuel' =>
      match parse_value fuel' l with
      | Some (v, l1) =>
          match skip_ws l1 with
          | c :: l2 =>
              if ascii_eqb c "," then parse_items fuel' l2 (v :: acc)
              else if ascii_eqb c "]" then Some (JArr (rev (v :: acc)), l2)
              else None
          | [] => None
          end
      | None => None
      end
  end.

(** [JSON.parse(text)]; [None] is the [SyntaxError]. *)
Definition parse (text : string) : option json :=
  match parse_value (S (String.length text)) (chars text) with
  | Some (v, rest) =>
      match skip_ws rest with
      | [] => Some v
      | _ :: _ => None
      end
  | None => None
  end.

Definition is_scalar (v : json) : bool :=
  match v with
  | JNull | JBool _ | JNum _ | JStr _ => true
  | JArr _ | JObj _ => false
  end.

End Json.

(** ** Effects: exceptions, the outside world and the call trace *)

Module Effects.
Import Json.

(** The outcome of a call that may throw; [Throw msg] carries
    [error.message]. *)
Inductive Exc (A : Type) : Type :=
| Ok (a : A)
| Throw (msg : string).
Arguments Ok {A} a.
Arguments Throw {A} msg.

(** A value returned by the database driver in a record field. *)
Inductive dbvalue : Type :=
| VNode (identity : string) (labels : list string) (props : list (string * json))
| VRel (identity : string) (type : string) (start_id end_id : string)
       (props : list (string * json))
| VOther (v : json).

(** A record: its keys with their values, in column order. *)
Definition record : Type := list (string * dbvalue).

Record config : Type := MkConfig {
  uri : option string;
  username : option string;
  password : option string
}.

Record message : Type := MkMessage {
  role : string;
  content : string
}.

Record llm_request : Type := MkLlmRequest {
  req_baseURL : string;
  req_apiKey : string;
  req_model : string;
  req_messages : list message
}.

(** [response.choices], each choice with its [message.content]. *)
Record llm_response : Type := MkLlmResponse {
  choices : option (list (option string))
}.

(** Calls that leave the process. *)
Inductive event : Type :=
| EvDriver (c : option config)
| EvRun (query : string)
| EvRunValue (query : json)
| EvClose
| EvLlm (r : llm_request).

Definition is_db_event (e : event) : bool :=
  match e with
  | EvLlm _ => false
  | _ => true
  end.

Definition is_llm_event (e : event) : bool :=
  match e with
  | EvLlm _ => true
  | _ => false
  end.

(** The collaborators, as functions of a world state [W]: [getDriver]
    with its connection pool, [session.run], [session.close] and
    [openai.chat.completions.create].  [session_run_value] is
    [session.run] handed a query that is not a string. *)
Record Env (W : Type) : Type := MkEnv {
  get_driver : option config -> W -> Exc unit * W;
  session_run : string -> W -> Exc (list record) * W;
  session_run_value : json -> W -> Exc (list record) * W;
  session_close : W -> Exc unit * W;
  llm_create : llm_request -> W -> Exc llm_response * W;
  env_OPENAI_API_KEY : option string;
  env_OPENAI_BASE_URL : option string
}.
Arguments get_driver {W}.
Arguments session_run {W}.
Arguments session_run_value {W}.
Arguments session_close {W}.
Arguments llm_create {W}.
Arguments env_OPENAI_API_KEY {W}.
Arguments env_OPENAI_BASE_URL {W}.

(** The state threaded through a request: the world and the calls made so
    far, oldest first. *)
Record St (W : Type) : Type := MkSt {
  world : W;
  trace : list event
}.
Arguments MkSt {W}.
Arguments world {W}.
Arguments trace {W}.

Definition M (W A : Type) : Type := St W -> Exc A * St W.

Definition ret {W A} (a : A) : M W A := fun st => (Ok a, st).
Definition throw {W A} (msg : string) : M W A := fun st => (Throw msg, st).

Definition bind {W A B} (m : M W A) (k : A -> M W B) : M W B :=
  fun st =>
    match m st with
    | (Ok a, st') => k a st'
    | (Throw msg, st') => (Throw msg, st')
    end.

(** [try { m } catch (error) { h(error.message) }]. *)
Definition try_catch {W A} (m : M W A) (h : string -> M W A) : M W A :=
  fun st =>
    match m st with
    | (Ok a, st') => (Ok a, st')
    | (Throw msg, st') => h msg st'
    end.

(** [try { m } finally { f }]: [f] runs on every exit; when it throws, its
    exception replaces the outcome of [m]. *)
Definition finally {W A} (m : M W A) (f : M W unit) : M W A :=
  fun st =>
    match m st with
    | (r, st') =>
        match f st' with
        | (Ok _, st'') => (r, st'')
        | (Throw msg, st'') => (Throw msg, st'')
        end
    end.

(** An oracle call, recorded in the trace. *)
Definition call {W A} (e : event) (f : W -> Exc A * W) : M W A :=
  fun st =>
    let (r, w') := f (world st) in
    (r, MkSt w' (trace st ++ [e])).

Definition getDriver {W} (E : Env W) (c : option config) : M W unit :=
  call (EvDriver c) (get_driver E c).
Definition run {W} (E : Env W) (q : string) : M W (list record) :=
  call (EvRun q) (session_run E q).
Definition run_value {W} (E : Env W) (q : json) : M W (list record) :=
  call (EvRunValue q) (session_run_value E q).
Definition close {W} (E : Env W) : M W unit :=
  call EvClose (session_close E).
Definition create {W} (E : Env W) (r : llm_request) : M W llm_response :=
  call (EvLlm r) (llm_create E r).

(** Run a request from a world, with an empty trace. *)
Definition exec {W A} (m : M W A) (w : W) : Exc A * St W := m (MkSt w []).

(** The queries sent to [session.run], in order. *)
Definition runs (tr : list event) : list string :=
  flat_map (fun e => match e with EvRun q => [q] | _ => [] end) tr.

(** A computation extends the trace: the calls made before it are still
    there, in order, when it ends. *)
Definition extends {W A : Type} (m : M W A) : Prop :=
  forall st r st', m st = (r, st') -> exists l, trace st' = (trace st ++ l)%list.

End Effects.

Declare Scope eff_scope.
Delimit Scope eff_scope with eff.
Notation "'let*' x := m 'in' k" := (Effects.bind m (fun x => k))
  (at level 10, x pattern, m at level 100, k at level 200) : eff_scope.

(** ** [src/lib/neo4j.ts] *)

Module Neo4j.
Import JsString Json Effects.
Local Open Scope eff_scope.

(** Property maps are JSON objects. *)
Definition props : Type := list (string * json).

Record raw_node : Type := MkRawNode {
  n_id : string;
  n_labels : option (list string);
  n_properties : option props
}.

Record raw_rel : Type := MkRawRel {
  r_id : string;
  r_type : string;
  startNodeId : string;
  endNodeId : string;
  r_properties : option props
}.

(** [Neo4jResult]; a field that is [undefined] or [null] is [None]. *)
Record Neo4jResult : Type := MkResult {
  nodes : option (list raw_node);
  relationships : option (list raw_rel)
}.

Record graph_node : Type := MkGraphNode {
  g_id : string;
  g_label : string;
  g_properties : props
}.

(** A link of the graph data; an index that the lookup did not find is
    [undefined], here [None]. *)
Record graph_link : Type := MkGraphLink {
  source : option nat;
  target : option nat;
  l_label : option string;
  l_properties : option props;
  l_type : option string;
  l_id : option string
}.

Record GraphData : Type := MkGraph {
  g_nodes : list graph_node;
  g_links : list graph_link
}.

Definition empty_graph : GraphData := MkGraph [] [].

(** [a || b] on strings. *)
Definition or_string (a b : string) : string :=
  if JsString.truthy a then a else b.

Definition transform_node (node : raw_node) : graph_node :=
  MkGraphNode (n_id node)
    (match n_labels node with
     | Some (l :: _) => l
     | _ => "Node"
     end)
    (default [] (n_properties node)).

(** An identifier under which a plain object stores and finds what a map
    does: it names no member of [Object.prototype]. *)
Definition ordinary (id : string) : bool := negb (JsObject.inherited id).

(** [nodes.forEach((node, index) => { nodeIdMap[node.id] = index })],
    starting at position [index].  The index is a plain object, held here
    as a map: the two agree on the identifiers that are [ordinary].  A
    property that looks up an identifier which may be absent from the
    nodes, or that needs an identifier to have been stored, states
    [ordinary] for it as a hypothesis. *)
Fixpoint fill_nodeIdMap (ns : list graph_node) (index : nat) (m : gmap string nat)
    : gmap string nat :=
  match ns with
  | [] => m
  | node :: ns' => fill_nodeIdMap ns' (S index) (<[g_id node := index]> m)
  end.

Definition nodeIdMap_of (ns : list graph_node) : gmap string nat :=
  fill_nodeIdMap ns 0 ∅.

Definition transform_rel (nodeIdMap : gmap string nat) (rel : raw_rel) : graph_link :=
  MkGraphLink (nodeIdMap !! startNodeId rel) (nodeIdMap !! endNodeId rel)
    (Some (or_string (r_type rel) "RELATED_TO"))
    (Some (default [] (r_properties rel)))
    None None.

Definition transformNeo4jResultToGraphData (result : option Neo4jResult) : GraphData :=
  match result with
  | None => empty_graph
  | Some r =>
      match nodes r, relationships r with
      | Some ns, Some rs =>
          let nodes := map transform_node ns in
          let nodeIdMap := nodeIdMap_of nodes in
          let links := map (transform_rel nodeIdMap) rs in
          MkGraph nodes links
      | _, _ => empty_graph
      end
  end.

(** *** [executeQuery] *)

Definition values (rec : record) : list dbvalue := map snd rec.

(** The first pass of [executeQuery]: nodes by identity, first occurrence
    kept, in order of first occurrence. *)
Fixpoint collect_nodes (vs : list dbvalue) (seen : gset string) (acc : list raw_node)
    : gset string * list raw_node :=
  match vs with
  | [] => (seen, acc)
  | VNode i ls ps :: vs' =>
      if decide (i ∈ seen) then collect_nodes vs' seen acc
      else collect_nodes vs' ({[i]} ∪ seen) (acc ++ [MkRawNode i (Some ls) (Some ps)])
  | _ :: vs' => collect_nodes vs' seen acc
  end.

Fixpoint collect_rels (vs : list dbvalue) (seen : gset string) (acc : list raw_rel)
    : gset string * list raw_rel :=
  match vs with
  | [] => (seen, acc)
  | VRel i t s e ps :: vs' =>
      if decide (i ∈ seen) then collect_rels vs' seen acc
      else collect_rels vs' ({[i]} ∪ seen) (acc ++ [MkRawRel i t s e (Some ps)])
  | _ :: vs' => collect_rels vs' seen acc
  end.

Definition result_of_records (records : list record) : Neo4jResult :=
  let vs := concat (map values records) in
  MkResult (Some (snd (collect_nodes vs ∅ [])))
           (Some (snd (collect_rels vs ∅ []))).

(** The session is closed on every exit; an error of [close] is logged and
    dropped. *)
Definition close_quietly {W} (E : Env W) : M W unit :=
  try_catch (close E) (fun _ => ret tt).

Definition executeQuery {W} (E : Env W) (query : string) (customConfig : option config)
    : M W Neo4jResult :=
  fun st =>
    match getDriver E customConfig st with
    | (Throw msg, st1) =>
        (* no session was opened *)
        (Throw ("Database query failed: " ++ msg), st1)
    | (Ok _, st1) =>
        finally
          (try_catch
             (let* records := run E query in ret (result_of_records records))
             (fun msg => throw ("Database query failed: " ++ msg)))
          (close_quietly E) st1
    end.

(** [executeQuery] handed a query that is not a string. *)
Definition executeQuery_value {W} (E : Env W) (query : json)
    (customConfig : option config) : M W Neo4jResult :=
  fun st =>
    match getDriver E customConfig st with
    | (Throw msg, st1) => (Throw ("Database query failed: " ++ msg), st1)
    | (Ok _, st1) =>
        finally
          (try_catch
             (let* records := run_value E query in ret (result_of_records records))
             (fun msg => throw ("Database query failed: " ++ msg)))
          (close_quietly E) st1
    end.

(** *** [getGraphSchema] and [getNodeProperties] *)

Record schema : Type := MkSchema {
  nodeLabels : list string;
  relationshipTypes : list string
}.

Definition empty_schema : schema := MkSchema [] [].

(** [record.get(0)]: the first field; a record without fields throws.
    [db.labels()] and [db.relationshipTypes()] yield strings. *)
Definition get0 (rec : record) : Exc string :=
  match rec with
  | (_, VOther (JStr s)) :: _ => Ok s
  | (_, _) :: _ => Ok EmptyString
  | [] => Throw "This record has no field with index 0"
  end.

Fixpoint map_exc {A B} (f : A -> Exc B) (l : list A) : Exc (list B) :=
  match l with
  | [] => Ok []
  | a :: l' =>
      match f a with
      | Throw msg => Throw msg
      | Ok b =>
          match map_exc f l' with
          | Throw msg => Throw msg
          | Ok bs => Ok (b :: bs)
          end
      end
  end.

Definition lift {W A} (r : Exc A) : M W A := fun st => (r, st).

Definition getGraphSchema {W} (E : Env W) (customConfig : option config) : M W schema :=
  fun st =>
    match
      try_catch (let* _ := getDriver E customConfig in ret true)
                (fun _ => ret false) st
    with
    | (Ok false, st1) | (Throw _, st1) =>
        (* [getDriver] threw: the catch block answers, no session to close *)
        (Ok empty_schema, st1)
    | (Ok true, st1) =>
        finally
          (try_catch
             (let* labelsResult := run E "CALL db.labels()" in
              let* nodeLabels := lift (map_exc get0 labelsResult) in
              let* relTypesResult := run E "CALL db.relationshipTypes()" in
              let* relationshipTypes := lift (map_exc get0 relTypesResult) in
              ret (MkSchema nodeLabels relationshipTypes))
             (fun _ => ret empty_schema))
          (close E) st1
    end.

(** [Object.keys(node.properties)] of the field [n] of a record. *)
Definition sampled_keys (rec : record) : Exc (list string) :=
  match list_find (fun kv => String.eqb (fst kv) "n" = true) rec with
  | Some (_, (_, VNode _ _ ps)) => Ok (map fst ps)
  | Some (_, (_, VRel _ _ _ _ ps)) => Ok (map fst ps)
  | Some (_, (_, VOther (JObj ms))) =>
      match member ms "properties" with
      | Some (JObj ps) => Ok (map fst ps)
      | _ => Throw "Cannot convert undefined or null to object"
      end
  | Some (_, (_, VOther _)) => Throw "Cannot convert undefined or null to object"
  | None => Throw "This record has no field with key 'n'"
  end.

Definition nodeProperties_t : Type := list (string * list string).

(** [for (const label of nodeLabels)] of [getNodeProperties]. *)
Fixpoint sample_labels {W} (E : Env W) (labels : list string) (acc : nodeProperties_t)
    : M W nodeProperties_t :=
  match labels with
  | [] => ret acc
  | label :: labels' =>
      let* keys :=
        try_catch
          (let* result := run E ("MATCH (n:" ++ label ++ ") RETURN n LIMIT 1") in
           match result with
           | rec :: _ => lift (sampled_keys rec)
           | [] => ret []
           end)
          (fun _ => ret []) in
      sample_labels E labels' (acc ++ [(label, keys)])
  end.

Definition getNodeProperties {W} (E : Env W) (customConfig : option config)
    : M W nodeProperties_t :=
  fun st =>
    match
      try_catch (let* _ := getDriver E customConfig in ret true)
                (fun _ => ret false) st
    with
    | (Ok false, st1) | (Throw _, st1) => (Ok [], st1)
    | (Ok true, st1) =>
        finally
          (try_catch
             (let* s := getGraphSchema E customConfig in
              sample_labels E (nodeLabels s) [])
             (fun _ => ret []))
          (close E) st1
    end.

(** The identities of the nodes, and of the relationships, among values. *)
Definition node_identities (vs : list dbvalue) : list string :=
  flat_map (fun v => match v with VNode i _ _ => [i] | _ => [] end) vs.

Definition rel_identities (vs : list dbvalue) : list string :=
  flat_map (fun v => match v with VRel i _ _ _ _ => [i] | _ => [] end) vs.

(** The last position of a node with the identifier [id]. *)
Fixpoint last_index (ns : list graph_node) (id : string) : option nat :=
  match ns with
  | [] => None
  | node :: ns' =>
      match last_index ns' id with
      | Some j => Some (S j)
      | None => if String.eqb (g_id node) id then Some 0 else None
      end
  end.

End Neo4j.

(** ** The query synthesizer, [generateCypherQuery] *)

Module OpenAI.
Import JsString Regex Json Effects Neo4j.
Local Open Scope string_scope.
Local Open Scope eff_scope.

(** [Array.prototype.join]. *)
Fixpoint join (sep : string) (l : list string) : string :=
  match l with
  | [] => EmptyString
  | [x] => x
  | x :: l' => x ++ sep ++ join sep l'
  end.

Definition nl : string := String (ascii_of_nat 10) EmptyString.

(** [nodeProperties[label]]: the last assignment to the key. *)
Fixpoint lookup_last {A} (m : list (string * A)) (k : string) : option A :=
  match m with
  | [] => None
  | (k', v) :: m' =>
      match lookup_last m' k with
      | Some w => Some w
      | None => if String.eqb k k' then Some v else None
      end
  end.

Record full_schema : Type := MkFullSchema {
  fs_nodeLabels : list string;
  fs_relationshipTypes : list string;
  fs_nodeProperties : nodeProperties_t
}.

(** What [schema.nodeProperties[label]] reads. *)
Inductive read : Type :=
| Keys (keys : list string)
| Undefined
| Other.

(** The object is given by its assignments.  An assigned label reads its
    last value, and so does [__proto__], whose value is then the prototype
    of the object.  A label that was not assigned reads a member of the
    prototype when it names one: a function, an object, a number or a
    string, here [Other]. *)
Definition read_properties (np : nodeProperties_t) (label : string) : read :=
  match lookup_last np label with
  | Some keys => Keys keys
  | None =>
      if JsObject.inherited label then Other
      else
        match lookup_last np "__proto__" with
        | Some arr => if JsObject.array_member (length arr) label then Other else Undefined
        | None => Undefined
        end
  end.

(** One line of the prompt; [?.join] on a value that has no [join] throws. *)
Definition label_line (sc : full_schema) (label : string) : Exc string :=
  match read_properties (fs_nodeProperties sc) label with
  | Keys keys =>
      Ok ("- " ++ label ++ " (Properties: " ++ or_string (join ", " keys) "none" ++ ")")
  | Undefined => Ok ("- " ++ label ++ " (Properties: none)")
  | Other => Throw "schema.nodeProperties[label]?.join is not a function"
  end.

(** The guidelines and the answer format that close the system prompt. *)
Definition guidelines : string :=
  join nl
    ["Follow these guidelines:";
     "1. Analyze the user's question to understand what they're asking about.";
     "2. Use the provided schema information to create accurate queries.";
     "3. Generate a valid Cypher query that would answer their question.";
     "4. Keep queries simple and focused on what the user is asking.";
     "5. Return ONLY nodes and relationships that are relevant to the question.";
     "6. Limit results to a reasonable number (e.g., 50 nodes maximum) to avoid overwhelming visualizations.";
     "7. Include node properties in the results.";
     "8. If you can't generate a query for the question, return a simple query like "
       ++ dq ++ "MATCH (n) RETURN n LIMIT 5" ++ dq ++ ".";
     EmptyString;
     "Your response should be in the following JSON format:";
     "{";
     "  " ++ dq ++ "cypherQuery" ++ dq ++ ": " ++ dq ++ "The Cypher query to execute" ++ dq ++ ",";
     "  " ++ dq ++ "explanation" ++ dq ++ ": " ++ dq
       ++ "A brief explanation of what the query does" ++ dq;
     "}";
     EmptyString].

(** The prompt around the lines of the labels. *)
Definition prompt_text (label_lines : list string) (relationshipTypes : list string)
    : string :=
  join nl
    [EmptyString;
     "You are a helpful assistant that translates natural language questions into Neo4j Cypher queries.";
     "Your task is to understand the user's question about graph data and generate an appropriate Cypher query.";
     EmptyString;
     "Database Schema Information:";
     "Node Labels:";
     join nl label_lines;
     EmptyString;
     "Relationship Types:";
     join nl (map (fun t => "- " ++ t) relationshipTypes);
     EmptyString;
     EmptyString;
     guidelines].

Definition systemPrompt (sc : full_schema) : Exc string :=
  match map_exc (label_line sc) (fs_nodeLabels sc) with
  | Throw msg => Throw msg
  | Ok label_lines => Ok (prompt_text label_lines (fs_relationshipTypes sc))
  end.

(** What the synthesizer returns.  The fields are typed [string] in the
    source, and hold whatever the parsed JSON holds. *)
Record synthesized : Type := MkSynth {
  cypherQuery : json;
  explanation : json
}.

Definition space_cls : re := Cls false [CSpace].
Definition backticks : string := "```".

(** [/```(?:json)?\s*([\s\S]*?)\s*```/] *)
Definition jsonBlock_re : re :=
  seqs [Lit backticks; Opt (Lit "json"); Star true space_cls;
        Grp 1 (Star false Any); Star true space_cls; Lit backticks].

(** [/{[\s\S]*}/] *)
Definition jsonObject_re : re :=
  seqs [Chr "{"; Star true Any; Chr "}"].

(** The class of a double quote, white space or a colon. *)
Definition sep_cls : re := Cls false [CChar dquote; CSpace; CChar ":"].
Definition not_quote : re := Cls true [CChar dquote].

(** [/cypherQuery[dquote\s:]+([^dquote]+)/] and the same for
    [explanation]. *)
Definition field_re (name : string) : re :=
  seqs [Lit name; Plus sep_cls; Grp 1 (Plus not_quote)].

Definition default_explanation : string := "未提供查询解释".
Definition default_query : string := "MATCH (n) RETURN n LIMIT 25".
Definition parse_failure_explanation : string :=
  "无法从LLM响应中提取有效的查询。使用默认查询。".
Definition error_explanation : string :=
  "处理您的问题时遇到错误。请检查您的OpenAI API密钥和连接设置是否正确。".

(** The text handed to [JSON.parse]: the content of the first fenced
    block when there is one, narrowed to its span from the first opening
    brace to the last closing brace when there is one. *)
Definition extract_json (content : string) : string :=
  let jsonContent :=
    match js_match jsonBlock_re content with
    | Some m => default content (group m 1)
    | None => content
    end in
  match js_match jsonObject_re jsonContent with
  | Some m => default jsonContent (group m 0)
  | None => jsonContent
  end.

(** [v.name] on a parsed value: [undefined] is [None]; on [null] the
    access throws. *)
Definition field (v : json) (name : string) : Exc (option json) :=
  match v with
  | JNull => Throw "Cannot read properties of null"
  | JObj ms => Ok (member ms name)
  | _ => Ok None
  end.

(** The [try] block around [JSON.parse]. *)
Definition parse_structured (content : string) : Exc synthesized :=
  match Json.parse (extract_json content) with
  | None => Throw "Unexpected token in JSON"
  | Some parsedResponse =>
      match field parsedResponse "cypherQuery" with
      | Throw msg => Throw msg
      | Ok q =>
          match q with
          | Some qv =>
              if Json.truthy qv then
                match field parsedResponse "explanation" with
                | Throw msg => Throw msg
                | Ok (Some ev) =>
                    Ok (MkSynth qv (if Json.truthy ev then ev else JStr default_explanation))
                | Ok None => Ok (MkSynth qv (JStr default_explanation))
                end
              else Throw "Response does not contain a Cypher query"
          | None => Throw "Response does not contain a Cypher query"
          end
      end
  end.

(** The [catch] block: the fields read from the raw text. *)
Definition parse_literal (content : string) : synthesized :=
  match js_match (field_re "cypherQuery") content with
  | Some cypherMatch =>
      MkSynth (JStr (trim (default EmptyString (group cypherMatch 1))))
        (JStr match js_match (field_re "explanation") content with
              | Some explanationMatch => trim (default EmptyString (group explanationMatch 1))
              | None => default_explanation
              end)
  | None => MkSynth (JStr default_query) (JStr parse_failure_explanation)
  end.

Definition parse_content (content : string) : synthesized :=
  match parse_structured content with
  | Ok r => r
  | Throw _ => parse_literal content
  end.

Definition fallback : synthesized :=
  MkSynth (JStr default_query) (JStr error_explanation).

(** [a || b] on optional strings: [a] when it is present and not empty,
    [b] otherwise. *)
Definition or_opt (a b : option string) : option string :=
  match a with
  | Some s => if JsString.truthy s then Some s else b
  | None => b
  end.

(** A value that passes [if (!x) throw]: present and not empty. *)
Definition present (x : option string) : option string := or_opt x None.

Definition generateCypherQuery {W} (E : Env W) (messages : list message)
    (sc : full_schema) (apiKey baseUrl modelName : option string) : M W synthesized :=
  try_catch
    (let* systemPrompt := lift (systemPrompt sc) in
     let promptMessages := MkMessage "system" systemPrompt :: messages in
     let openaiApiKey := present (or_opt apiKey (env_OPENAI_API_KEY E)) in
     let openaiBaseUrl :=
       default "https://api.openai.com/v1"
         (or_opt (or_opt baseUrl (env_OPENAI_BASE_URL E)) None) in
     match openaiApiKey with
     | None => throw "OpenAI API key is required"
     | Some key =>
         let model := default "gpt-4" (or_opt modelName None) in
         let* response :=
           create E (MkLlmRequest openaiBaseUrl key model promptMessages) in
         match choices response with
         | None | Some [] => throw "No response from OpenAI API"
         | Some (content :: _) =>
             match content with
             | None => throw "Empty response from OpenAI API"
             | Some text =>
                 if JsString.truthy text then ret (parse_content text)
                 else throw "Empty response from OpenAI API"
             end
         end
     end)
    (fun _ => ret fallback).

End OpenAI.

(** ** The chat route, [src/app/api/chat/route.ts] *)

Module Route.
Import JsString Regex Json Effects Neo4j OpenAI.
Local Open Scope string_scope.
Local Open Scope eff_scope.

(** The parsed request body; a field that is absent is [None]. *)
Record body : Type := MkBody {
  b_messages : option (list message);
  b_openaiApiKey : option string;
  b_openaiBaseUrl : option string;
  b_neo4jUri : option string;
  b_neo4jUsername : option string;
  b_neo4jPassword : option string;
  b_modelName : option string
}.

Record table : Type := MkTable {
  columns : list string;
  rows : list (list (string * json))
}.

(** A link as sent to the caller: indices as decimal strings. *)
Record out_link : Type := MkOutLink {
  o_source : option string;
  o_target : option string;
  o_link : graph_link
}.

Record out_graph : Type := MkOutGraph {
  o_nodes : list graph_node;
  o_links : list out_link
}.

(** The reply text: a fixed or diagnostic message, or the report of a
    completed turn, given by its ingredients (the explanation, whether the
    table is shown, the counts of the summary, whether the visualisation
    note is appended). *)
Inductive reply : Type :=
| Text (s : string)
| Report (explanation : json) (table_shown : bool) (node_count rel_count : nat)
         (visual_note : bool).

Record response : Type := MkResponse {
  status : nat;
  resp_message : reply;
  graphData : option out_graph;
  tableData : option table
}.

Definition json_response (status : nat) (msg : string) : response :=
  MkResponse status (Text msg) None None.

Definition missing_messages_message : string :=
  "Invalid request: messages array is required".
Definition missing_key_message : string :=
  "OpenAI API密钥未提供。请在应用设置中配置有效的API密钥。".
Definition missing_db_message : string :=
  "Neo4j数据库连接参数不完整。请在应用设置中配置数据库URI、用户名和密码。".

(** [!x] on an optional string. *)
Definition missing (x : option string) : bool :=
  match x with
  | Some s => negb (JsString.truthy s)
  | None => true
  end.

Definition convertGraphDataForResponse (data : GraphData) : out_graph :=
  MkOutGraph (g_nodes data)
    (map (fun link =>
            MkOutLink (pretty <$> source link) (pretty <$> target link) link)
         (g_links data)).

(** *** Step 2: the schema and the system message *)

Definition is_system (m : message) : bool := String.eqb (role m) "system".

(** [messages[i].content += text] at the first system message. *)
Fixpoint append_to_system (ms : list message) (text : string) : list message :=
  match ms with
  | [] => []
  | m :: ms' =>
      if is_system m then MkMessage (role m) (content m ++ text) :: ms'
      else m :: append_to_system ms' text
  end.

Section Annotate.
(** [JSON.stringify(nodeProperties, null, 2)]. *)
Variable stringify : nodeProperties_t -> string.

Definition schema_lines (indent : string) (sc : schema) (np : nodeProperties_t) : string :=
  "数据库结构信息：" ++ nl ++
  indent ++ "节点标签: " ++ join ", " (nodeLabels sc) ++ nl ++
  indent ++ "关系类型: " ++ join ", " (relationshipTypes sc) ++ nl ++
  indent ++ "节点属性: " ++ stringify np.

Definition direction_caveat : string :=
  nl ++ nl ++ "注意：在生成 Cypher 查询时，请考虑关系的方向。例如，" ++ dq ++ "妻子" ++ dq
  ++ "关系可能是从妻子指向丈夫，也可能是从丈夫指向妻子。如果不确定，可以使用无方向查询如 (a)-[:妻子]-(b) 或尝试双向查询。".

Definition annotate (ms : list message) (sc : schema) (np : nodeProperties_t)
    : list message :=
  let ms1 :=
    if existsb is_system ms then
      append_to_system ms (nl ++ nl ++ schema_lines "    " sc np)
    else
      MkMessage "system"
        ("欢迎使用LLMGraphChat！您可以用自然语言询问图数据库中的任何内容。" ++ nl ++
         "  " ++ nl ++ "          " ++ schema_lines "          " sc np) :: ms in
  if existsb is_system ms1 then append_to_system ms1 direction_caveat else ms1.

(** The [try] block of the schema: the three variables it assigns, as they
    stand after it, whether it completed or threw part-way. *)
Definition fetch_schema {W} (E : Env W) (cfg : option config) (ms : list message)
    : M W (schema * nodeProperties_t * list message) :=
  fun st =>
    match getGraphSchema E cfg st with
    | (Throw _, st1) => (Ok (empty_schema, [], ms), st1)
    | (Ok sc, st1) =>
        match getNodeProperties E cfg st1 with
        | (Throw _, st2) => (Ok (sc, [], ms), st2)
        | (Ok np, st2) => (Ok (sc, np, annotate ms sc np), st2)
        end
    end.

End Annotate.

(** *** Step 3: synthesis *)

Definition route_default_query : string := "MATCH (n:Character) RETURN n LIMIT 25".

(** [v || null]. *)
Definition or_null (v : json) : json := if Json.truthy v then v else JNull.

(** The result of [generateCypherQuery] is an object, so of the three
    shapes the route distinguishes (array of chunks, string, object) the
    object one applies. *)
Definition process_result (result : synthesized) : json * json :=
  let q := or_null (cypherQuery result) in
  let e := or_null (explanation result) in
  let '(q, e) :=
    if Json.truthy q then (q, e)
    else (JStr route_default_query,
          JStr "无法从LLM响应中提取有效的查询。使用默认查询返回角色节点。") in
  (q, if Json.truthy e then e else JStr "未提供查询解释。").

Definition synthesize {W} (E : Env W) (ms : list message) (sc : schema)
    (np : nodeProperties_t) (b : body) : M W (json * json) :=
  try_catch
    (let* result :=
       generateCypherQuery E ms
         (MkFullSchema (nodeLabels sc) (relationshipTypes sc) np)
         (b_openaiApiKey b) (b_openaiBaseUrl b) (b_modelName b) in
     ret (process_result result))
    (fun msg =>
       ret (JStr route_default_query,
            JStr ("生成查询时出错：" ++ or_string msg "未知错误"
                  ++ "。使用默认查询返回角色节点。"))).

(** *** Step 4: the rewrite of the label 妻子 *)

Definition not_paren : re := Cls true [CChar ")"].

(** [/\(([^)]+)\)-\[:妻子\]->\(([^)]+)\)/g] *)
Definition wife_re : re :=
  seqs [Chr "("; Grp 1 (Plus not_paren); Lit ")-[:妻子]->(";
        Grp 2 (Plus not_paren); Chr ")"].

Definition wife_template : list tpiece :=
  [TLit "("; TGrp 1; TLit ")-[:妻子]-("; TGrp 2; TLit ")"].

Definition rewrite_wife (cypherQuery : string) : string :=
  if includes cypherQuery "妻子" then replace_all wife_re wife_template cypherQuery
  else cypherQuery.

(** *** Step 5: execution with repair *)

(** [/\(([^)]+)\)-\[:([^)]+)\]->\(([^)]+)\)/g] *)
Definition directed_re : re :=
  seqs [Chr "("; Grp 1 (Plus not_paren); Lit ")-[:"; Grp 2 (Plus not_paren);
        Lit "]->("; Grp 3 (Plus not_paren); Chr ")"].

Definition reversedQuery (cypherQuery : string) : string :=
  replace_all directed_re
    [TLit "("; TGrp 3; TLit ")-[:"; TGrp 2; TLit "]->("; TGrp 1; TLit ")"]
    cypherQuery.

Definition undirectedQuery (cypherQuery : string) : string :=
  replace_all directed_re
    [TLit "("; TGrp 1; TLit ")-[:"; TGrp 2; TLit "]-("; TGrp 3; TLit ")"]
    cypherQuery.

Definition not_comma : re := Cls true [CChar ","].

(** [/RETURN\s+([^,]+),\s*r,\s*([^,]+)/i] *)
Definition return_r_re : re :=
  seqs [LitI "RETURN"; Plus space_cls; Grp 1 (Plus not_comma); Chr ",";
        Star true space_cls; ChrI "r"; Chr ","; Star true space_cls;
        Grp 2 (Plus not_comma)].

Definition nodeOnlyQuery (cypherQuery : string) : string :=
  replace_first return_r_re [TLit "RETURN "; TGrp 1; TLit ", "; TGrp 2] cypherQuery.

(** [neo4jResult.nodes] and [neo4jResult.relationships]; [executeQuery]
    always returns both arrays. *)
Definition nodes_of (r : Neo4jResult) : list raw_node := default [] (nodes r).
Definition rels_of (r : Neo4jResult) : list raw_rel := default [] (relationships r).

(** The repair of the relationship objects of the first result.  The
    identifiers come from [identity.toString()]; the random suffix given to
    an empty one is not modelled. *)
Definition fix_rel (rel : raw_rel) : raw_rel :=
  MkRawRel (or_string (r_id rel) "rel-") (or_string (r_type rel) "unknown")
    (startNodeId rel) (endNodeId rel) (Some (default [] (r_properties rel))).

Definition fix_relationships (r : Neo4jResult) : Neo4jResult :=
  MkResult (nodes r) (Some (map fix_rel (rels_of r))).

Definition is_nil {A} (l : list A) : bool :=
  match l with [] => true | _ :: _ => false end.

(** Lines 298 to 341: the direct execution and the two retries. *)
Definition execute_with_repair {W} (E : Env W) (cfg : option config)
    (cypherQuery : string) : M W Neo4jResult :=
  let* r0 := executeQuery E cypherQuery cfg in
  let r1 := fix_relationships r0 in
  if is_nil (nodes_of r1) then
    let* r2 :=
      if includes cypherQuery "->"
      then executeQuery E (reversedQuery cypherQuery) cfg
      else ret r1 in
    if is_nil (nodes_of r2) && includes cypherQuery "->"
    then executeQuery E (undirectedQuery cypherQuery) cfg
    else ret r2
  else ret r1.

(** The manual pass that adds links when the transformation produced none. *)
Definition manual_link (nodeIdMap : gmap string nat) (rel : raw_rel) : list graph_link :=
  if negb (JsString.truthy (startNodeId rel)) || negb (JsString.truthy (endNodeId rel))
  then []
  else
    match nodeIdMap !! startNodeId rel, nodeIdMap !! endNodeId rel with
    | Some sourceIndex, Some targetIndex =>
        [MkGraphLink (Some sourceIndex) (Some targetIndex) None None
           (Some (or_string (r_type rel) "unknown"))
           (Some (or_string (r_id rel)
                    ("rel-" ++ pretty sourceIndex ++ "-" ++ pretty targetIndex)))]
    | _, _ => []
    end.

Definition to_graph (r : Neo4jResult) : GraphData :=
  let graphData := transformNeo4jResultToGraphData (Some r) in
  if is_nil (g_links graphData) && negb (is_nil (rels_of r)) then
    MkGraph (g_nodes graphData)
      (concat (map (manual_link (nodeIdMap_of (g_nodes graphData))) (rels_of r)))
  else graphData.

Definition db_error_reply (msg : string) : response :=
  json_response 200
    ("我理解了您的问题，但在查询数据库时遇到了问题: " ++ or_string msg "未知错误"
     ++ "。请尝试其他问题或检查您的数据库连接设置。").

Definition virtual_rel (firstNode secondNode : raw_node) : raw_rel :=
  MkRawRel "virtual-rel-1" "妻子" (n_id firstNode) (n_id secondNode) (Some []).

(** The recovery from a relationship-shape error: node columns only, and
    one placeholder relationship between the first two nodes. *)
Definition node_only_recovery {W} (E : Env W) (cfg : option config)
    (cypherQuery : string) : M W (Neo4jResult * GraphData) :=
  let* r := executeQuery E (nodeOnlyQuery cypherQuery) cfg in
  let r' :=
    match nodes_of r with
    | firstNode :: secondNode :: _ =>
        MkResult (nodes r) (Some [virtual_rel firstNode secondNode])
    | _ => r
    end in
  ret (r', transformNeo4jResultToGraphData (Some r')).

Definition is_shape_error (msg : string) : bool :=
  includes msg "toString" || includes msg "startNodeIdentity"
  || includes msg "endNodeIdentity".

(** Lines 297 to 443: either the result with its graph, or the reply that
    ends the turn. *)
Definition execute_step {W} (E : Env W) (cfg : option config) (cypherQuery : string)
    : M W (Neo4jResult * GraphData + response) :=
  try_catch
    (let* r := execute_with_repair E cfg cypherQuery in
     ret (inl (r, to_graph r)))
    (fun msg =>
       if is_shape_error msg then
         try_catch
           (let* rg := node_only_recovery E cfg cypherQuery in ret (inl rg))
           (fun _ => ret (inr (db_error_reply msg)))
       else ret (inr (db_error_reply msg))).

(** [cypherQuery.includes(text)] on an array: an element is that string. *)
Definition array_includes (items : list json) (text : string) : bool :=
  existsb (fun v => match v with JStr s => String.eqb s text | _ => false end) items.

(** Lines 297 to 443 for a query that is an array, as a parsed answer can
    hold one.  An array has [includes] and has no [replace]: a retry, and
    the recovery, throw before they execute anything. *)
Definition execute_step_value {W} (E : Env W) (cfg : option config) (items : list json)
    : M W (Neo4jResult * GraphData + response) :=
  try_catch
    (let* r0 := executeQuery_value E (JArr items) cfg in
     let r1 := fix_relationships r0 in
     if is_nil (nodes_of r1) && array_includes items "->"
     then throw "cypherQuery.replace is not a function"
     else ret (inl (r1, to_graph r1)))
    (fun msg => ret (inr (db_error_reply msg))).

(** *** Step 6: the table form *)

(** The test on the query text that opens the table path. *)
Definition wants_table (cypherQuery : string) : bool :=
  let lower := toLowerCase cypherQuery in
  includes lower "return" && (includes lower ".name" || includes lower "as ").

(** The text after the last occurrence of [p]. *)
Fixpoint after_last (p l : list ascii) : option (list ascii) :=
  match l with
  | [] => None
  | _ :: l' =>
      match after_last p l' with
      | Some r => Some r
      | None => if starts_with p l then Some (drop (length p) l) else None
      end
  end.

(** The test as the specification words it, for comparison with
    [wants_table]: the return clause of the query, the text after its last
    RETURN, holds a property access or an AS alias. *)
Definition return_clause_projects_values (cypherQuery : string) : bool :=
  match after_last (chars "return") (chars (toLowerCase cypherQuery)) with
  | Some clause =>
      includes_chars clause (chars ".") || includes_chars clause (chars " as ")
  | None => false
  end.

(** [record.get(column)]; a key that the record lacks throws. *)
Fixpoint record_get (rec : record) (column : string) : Exc dbvalue :=
  match rec with
  | [] => Throw "This record has no field with that key"
  | (k, v) :: rec' => if String.eqb k column then Ok v else record_get rec' column
  end.

(** A cell: the property map of a value that has one, the value itself
    otherwise. *)
Definition cell (value : dbvalue) : json :=
  match value with
  | VNode _ _ ps => JObj ps
  | VRel _ _ _ _ ps => JObj ps
  | VOther (JObj ms) =>
      match member ms "properties" with
      | Some p => if Json.truthy p then p else JObj ms
      | None => JObj ms
      end
  | VOther v => v
  end.

Definition row_of (columns : list string) (rec : record) : Exc (list (string * json)) :=
  map_exc (fun column =>
             match record_get rec column with
             | Ok value => Ok (column, cell value)
             | Throw msg => Throw msg
             end) columns.

Definition keys (rec : record) : list string := map fst rec.

Definition table_of_records (records : list record) : Exc (option table) :=
  match records with
  | [] => Ok None
  | first :: _ =>
      let columns := keys first in
      match map_exc (row_of columns) records with
      | Ok rows => Ok (Some (MkTable columns rows))
      | Throw msg => Throw msg
      end
  end.

(** Lines 445 to 483.  A failure of the table path leaves [tableData]
    undefined and does not end the turn. *)
Definition table_step {W} (E : Env W) (cfg : option config) (cypherQuery : string)
    : M W (option table) :=
  try_catch
    (if wants_table cypherQuery then
       let* _ := getDriver E cfg in
       let* records := run E cypherQuery in
       let* _ := close E in
       lift (table_of_records records)
     else ret None)
    (fun _ => ret None).

(** *** Step 7: the reply *)

Definition compose (explanation : json) (neo4jResult : Neo4jResult)
    (graphData : GraphData) (tableData : option table) : response :=
  let has_nodes := negb (is_nil (nodes_of neo4jResult)) in
  let table_shown :=
    match tableData with
    | Some t => negb (is_nil (rows t))
    | None => false
    end in
  MkResponse 200
    (Report explanation table_shown (length (nodes_of neo4jResult))
       (length (rels_of neo4jResult)) has_nodes)
    (if has_nodes then Some (convertGraphDataForResponse graphData) else None)
    tableData.

(** *** The handler *)

Section Handler.
Variable stringify : nodeProperties_t -> string.

(** The turn after validation. *)
Definition turn {W} (E : Env W) (b : body) (messages : list message) : M W response :=
  let cfg := Some (MkConfig (b_neo4jUri b) (b_neo4jUsername b) (b_neo4jPassword b)) in
  let* fetched := fetch_schema stringify E cfg messages in
  let '(sc, np, ms) := fetched in
  let* synthesizedQuery := synthesize E ms sc np b in
  let '(q, explanation) := synthesizedQuery in
  match q with
  | JStr cypherQuery0 =>
      let cypherQuery := rewrite_wife cypherQuery0 in
      let* executed := execute_step E cfg cypherQuery in
      match executed with
      | inr reply => ret reply
      | inl (neo4jResult, graphData) =>
          let* tableData := table_step E cfg cypherQuery in
          ret (compose explanation neo4jResult graphData tableData)
      end
  | JArr items =>
      if array_includes items "妻子" then throw "cypherQuery.replace is not a function"
      else
        let* executed := execute_step_value E cfg items in
        match executed with
        | inr reply => ret reply
        | inl (neo4jResult, graphData) =>
            (* [cypherQuery.toLowerCase] throws inside the table path *)
            ret (compose explanation neo4jResult graphData None)
        end
  | _ =>
      (* a number, a boolean or an object has no [includes] to call *)
      throw "cypherQuery.includes is not a function"
  end.

(** [POST]; [None] is a body that [request.json()] could not parse. *)
Definition POST {W} (E : Env W) (request : option body) : M W response :=
  try_catch
    (match request with
     | None => ret (json_response 400 missing_messages_message)
     | Some b =>
         match b_messages b with
         | None => ret (json_response 400 missing_messages_message)
         | Some messages =>
             if missing (b_openaiApiKey b) then
               ret (json_response 400 missing_key_message)
             else if missing (b_neo4jUri b) || missing (b_neo4jUsername b)
                     || missing (b_neo4jPassword b) then
               ret (json_response 400 missing_db_message)
             else turn E b messages
         end
     end)
    (fun msg =>
       ret (json_response 500
              ("抱歉，处理您的请求时出现了错误: " ++ or_string msg "未知错误"))).

End Handler.

(** The text of one pattern of the retries, with its two nodes [X] and [Y]
    and its relationship type [T], and what follows it. *)
Definition pattern_input (X T Y post : list ascii) : list ascii :=
  chars "(" ++ X ++ chars ")-[:" ++ T ++ chars "]->(" ++ Y ++ chars ")" ++ post.

(** The groups of its match. *)
Definition pattern_caps (X T Y : list ascii) : caps := [(3, Y); (2, T); (1, X)].

(** The request that the synthesizer sends for a body and a prompt. *)
Definition request_for {W : Type} (E : Env W) (b : body) (key : string) (ms : list message)
    (prompt : string) : llm_request :=
  MkLlmRequest
    (default "https://api.openai.com/v1"
       (or_opt (or_opt (b_openaiBaseUrl b) (env_OPENAI_BASE_URL E)) None))
    key (default "gpt-4" (or_opt (b_modelName b) None))
    (MkMessage "system" prompt :: ms).

End Route.

(** ** The list of models: [getAvailableModels] and its route *)

Module Models.
Import JsString Json Effects Neo4j OpenAI Route.
Local Open Scope string_scope.

(** [String.prototype.endsWith]. *)
Definition endsWith (s suffix : string) : bool :=
  starts_with (rev (chars suffix)) (rev (chars s)).

(** The address of the list of models for a base URL. *)
Definition modelsUrl (baseUrl : string) : string :=
  if endsWith baseUrl "/v1" then baseUrl ++ "/models"
  else if endsWith baseUrl "/" then baseUrl ++ "v1/models"
  else baseUrl ++ "/v1/models".

(** The HTTP client: [axios.get(url, { headers })] with its
    [Authorization] header, answering [response.data] or throwing. *)
Record Http (W : Type) : Type := MkHttp {
  axios_get : string -> string -> W -> Exc (option json) * W;
  http_OPENAI_BASE_URL : option string
}.
Arguments axios_get {W}.
Arguments http_OPENAI_BASE_URL {W}.

(** A request that was sent: its address and its [Authorization] header. *)
Definition http_call : Type := (string * string)%type.

(** [response.data.data.map(model => model.id)] when [response.data] and
    [response.data.data] are truthy, the empty list otherwise; an
    identifier that is undefined is [None]. *)
Definition models_of (data : option json) : Exc (list (option json)) :=
  match data with
  | Some d =>
      if Json.truthy d then
        match field d "data" with
        | Ok (Some dd) =>
            if Json.truthy dd then
              match dd with
              | JArr items => map_exc (fun model => field model "id") items
              | _ => Throw "response.data.data.map is not a function"
              end
            else Ok []
        | Ok None => Ok []
        | Throw msg => Throw msg
        end
      else Ok []
  | None => Ok []
  end.

(** [getAvailableModels]: the models, the world after the call and the
    requests sent. *)
Definition getAvailableModels {W} (H : Http W) (apiKey baseUrl : string) (w : W)
    : list (option json) * W * list http_call :=
  let url := modelsUrl baseUrl in
  let authorization := "Bearer " ++ apiKey in
  match axios_get H url authorization w with
  | (Ok data, w') =>
      (match models_of data with
       | Ok models => models
       | Throw _ => []
       end, w', [(url, authorization)])
  | (Throw _, w') => ([], w', [(url, authorization)])
  end.

Inductive models_body : Type :=
| ModelsMessage (msg : string)
| ModelsList (models : list (option json)).

Record models_response : Type := MkModelsResponse {
  m_status : nat;
  m_body : models_body
}.

Record models_request : Type := MkModelsRequest {
  mr_openaiApiKey : option string;
  mr_openaiBaseUrl : option string
}.

(** The route of the list of models; [None] is a body that could not be
    parsed. *)
Definition models_POST {W} (H : Http W) (request : option models_request) (w : W)
    : models_response * W * list http_call :=
  match request with
  | None => (MkModelsResponse 400 (ModelsMessage "Invalid request body"), w, [])
  | Some body =>
      match present (mr_openaiApiKey body) with
      | None => (MkModelsResponse 400 (ModelsMessage missing_key_message), w, [])
      | Some key =>
          let '(models, w', calls) :=
            getAvailableModels H key
              (default "https://api.openai.com/v1"
                 (or_opt (or_opt (mr_openaiBaseUrl body) (http_OPENAI_BASE_URL H)) None))
              w in
          (MkModelsResponse 200 (ModelsList models), w', calls)
      end
  end.

End Models.

(** ** The route of the schema *)

Module SchemaRoute.
Import JsString Json Effects Neo4j OpenAI Route.
Local Open Scope string_scope.
Local Open Scope eff_scope.

Inductive schema_body : Type :=
| SchemaError (error : string)
| SchemaData (nodeLabels relationshipTypes : list string)
             (nodeProperties : nodeProperties_t).

Record schema_response : Type := MkSchemaResponse {
  s_status : nat;
  s_body : schema_body
}.

Definition incomplete_message : string :=
  "Neo4j数据库连接参数不完整。请提供数据库URI、用户名和密码。".

(** [GET], with the three search parameters of the address; a parameter
    that is absent is [None]. *)
Definition GET {W} (E : Env W) (neo4jUri neo4jUsername neo4jPassword : option string)
    : M W schema_response :=
  try_catch
    (if missing neo4jUri || missing neo4jUsername || missing neo4jPassword then
       ret (MkSchemaResponse 400 (SchemaError incomplete_message))
     else
       let neo4jConfig := Some (MkConfig neo4jUri neo4jUsername neo4jPassword) in
       let* schemaResult := getGraphSchema E neo4jConfig in
       let* propertiesResult := getNodeProperties E neo4jConfig in
       ret (MkSchemaResponse 200
              (SchemaData (nodeLabels schemaResult) (relationshipTypes schemaResult)
                 propertiesResult)))
    (fun msg =>
       ret (MkSchemaResponse 500 (SchemaError ("获取数据库结构信息失败: " ++ msg)))).

End SchemaRoute.

(** ** The connection pool: [getDriver], [initDriver] and [closeDriver] *)

Module Driver.
Import JsString Effects OpenAI.
Local Open Scope string_scope.
Local Open Scope list_scope.

(** A driver object is known by the number it got when it was created, and
    so is a promise returned by [initDriver]. *)
Definition handle : Type := nat.

(** [{ uri, username, password }], as [currentConfig] holds it. *)
Record connection : Type := MkConnection {
  cn_uri : string;
  cn_username : string;
  cn_password : string
}.

(** How a promise of [initDriver] was settled; it is fulfilled with the
    value of the variable [driver] at that time. *)
Inductive outcome : Type :=
| Fulfilled (d : option handle)
| Rejected (msg : string).

(** What [getDriver] returns: [Promise.resolve(driver)] or a promise of
    [initDriver]. *)
Inductive promise : Type :=
| Resolved (d : handle)
| Init (n : nat).

(** The calls to the driver library. *)
Inductive devent : Type :=
| Created (d : handle) (c : connection)
| VerifyStarted (d : handle)
| CloseStarted (d : handle).

(** The library and the process environment: [neo4j.driver] may throw. *)
Record Lib : Type := MkLib {
  neo4j_driver : connection -> Exc unit;
  NEO4J_URI : option string;
  NEO4J_USERNAME : option string;
  NEO4J_PASSWORD : option string
}.

(** The three variables of the module, the counter of objects, the
    promises settled so far and the calls made. *)
Record state : Type := MkState {
  driver : option handle;
  driverInitPromise : option nat;
  currentConfig : option connection;
  fresh : nat;
  settled : list (nat * outcome);
  log : list devent
}.

(** [customConfig?.field]. *)
Definition custom (customConfig : option config) (field : config -> option string)
    : option string :=
  match customConfig with
  | Some c => field c
  | None => None
  end.

(** The three values of [initDriver] and its three checks. *)
Definition resolve (L : Lib) (customConfig : option config) : Exc connection :=
  match present (or_opt (custom customConfig uri) (NEO4J_URI L)) with
  | None => Throw "Neo4j URI is not set"
  | Some u =>
      match present (or_opt (custom customConfig username) (NEO4J_USERNAME L)) with
      | None => Throw "Neo4j username is not set"
      | Some n =>
          match present (or_opt (custom customConfig password) (NEO4J_PASSWORD L)) with
          | None => Throw "Neo4j password is not set"
          | Some p => Ok (MkConnection u n p)
          end
      end
  end.

(** The part of the [try] block of [initDriver] that comes before its
    [await]. *)
Definition construct (L : Lib) (customConfig : option config) : Exc connection :=
  match resolve L customConfig with
  | Throw msg => Throw msg
  | Ok c =>
      match neo4j_driver L c with
      | Throw msg => Throw msg
      | Ok _ => Ok c
      end
  end.

(** The [catch] block of [initDriver], for the promise [n]. *)
Definition fail (n : nat) (msg : string) (s : state) : state :=
  MkState None None None (fresh s)
    (settled s ++ [(n, Rejected ("Failed to connect to Neo4j: " ++ msg))]) (log s).

(** [initDriver] up to its [await]: the promise it returns and the state
    it leaves. *)
Definition initDriver (L : Lib) (customConfig : option config) (s : state)
    : nat * state :=
  let n := fresh s in
  let s1 := MkState (driver s) (driverInitPromise s) (currentConfig s) (S n)
              (settled s) (log s) in
  match construct L customConfig with
  | Throw msg => (n, fail n msg s1)
  | Ok c =>
      let d := S n in
      (n, MkState (Some d) (driverInitPromise s) (Some c) (S d) (settled s)
            (log s ++ [Created d c; VerifyStarted d]))
  end.

(** [initDriver] after its [await], when [verifyConnectivity] has settled. *)
Definition verified (n : nat) (result : Exc unit) (s : state) : state :=
  match result with
  | Ok _ =>
      MkState (driver s) (driverInitPromise s) (currentConfig s) (fresh s)
        (settled s ++ [(n, Fulfilled (driver s))]) (log s)
  | Throw msg => fail n msg s
  end.

(** [closeDriver] up to its [await]. *)
Definition closeDriver (s : state) : state :=
  match driver s with
  | Some d =>
      MkState (driver s) (driverInitPromise s) (currentConfig s) (fresh s)
        (settled s) (log s ++ [CloseStarted d])
  | None => s
  end.

(** [closeDriver] after its [await], when [driver.close()] has settled. *)
Definition closed (result : Exc unit) (s : state) : state :=
  match result with
  | Ok _ => MkState None None None (fresh s) (settled s) (log s)
  | Throw _ => s
  end.

(** [customConfig && (customConfig.uri || customConfig.username ||
    customConfig.password)]. *)
Definition given (customConfig : option config) : bool :=
  match customConfig with
  | Some c =>
      negb (Route.missing (uri c)) || negb (Route.missing (username c)) ||
      negb (Route.missing (password c))
  | None => false
  end.

(** [value !== field], for a value that may be undefined. *)
Definition differs (value : option string) (field : string) : bool :=
  match value with
  | Some v => negb (String.eqb v field)
  | None => true
  end.

(** The condition under which [getDriver] calls [closeDriver]. *)
Definition changed (L : Lib) (customConfig : option config) (s : state) : bool :=
  match driver s, currentConfig s with
  | Some _, Some cur =>
      differs (or_opt (custom customConfig uri) (NEO4J_URI L)) (cn_uri cur) ||
      differs (or_opt (custom customConfig username) (NEO4J_USERNAME L)) (cn_username cur) ||
      differs (or_opt (custom customConfig password) (NEO4J_PASSWORD L)) (cn_password cur)
  | _, _ => false
  end.

(** [driverInitPromise = initDriver(customConfig); return driverInitPromise]. *)
Definition start (L : Lib) (customConfig : option config) (s : state)
    : promise * state :=
  let '(n, s1) := initDriver L customConfig s in
  (Init n,
   MkState (driver s1) (Some n) (currentConfig s1) (fresh s1) (settled s1) (log s1)).

(** The end of [getDriver], from its second comment on. *)
Definition reuse (L : Lib) (customConfig : option config) (s : state)
    : promise * state :=
  match driver s with
  | Some d => (Resolved d, s)
  | None =>
      match driverInitPromise s with
      | Some n => (Init n, s)
      | None => start L customConfig s
      end
  end.

Definition getDriver (L : Lib) (customConfig : option config) (s : state)
    : promise * state :=
  if given customConfig then
    let s1 := if changed L customConfig s then closeDriver s else s in
    match driver s1 with
    | None => start L customConfig s1
    | Some _ => reuse L customConfig s1
    end
  else reuse L customConfig s.

End Driver.

(** ** The client: validation of the graph data before it is drawn *)

Module Client.
Import JsString Effects Neo4j Route.
Local Open Scope string_scope.

(** What the effect of [GraphVisualization] stores: the data to draw and
    the error to show.  The sizes, colours and descriptions it adds to the
    nodes and links are left out. *)
Record processed : Type := MkProcessed {
  p_nodes : list graph_node;
  p_links : list out_link;
  p_error : option string
}.

(** [getNodeId]: an endpoint of a link of the response is a string or is
    not there; reading [.id] of undefined throws. *)
Definition getNodeId (source : option string) : Exc string :=
  match source with
  | Some s => Ok s
  | None => Throw "Cannot read properties of undefined (reading 'id')"
  end.

(** [nodeIds.has(sourceId) && nodeIds.has(targetId)]. *)
Definition endpoints_known (nodeIds : gset string) (link : out_link) : Exc bool :=
  match getNodeId (o_source link) with
  | Throw msg => Throw msg
  | Ok sourceId =>
      match getNodeId (o_target link) with
      | Throw msg => Throw msg
      | Ok targetId =>
          Ok (bool_decide (sourceId ∈ nodeIds) && bool_decide (targetId ∈ nodeIds))
      end
  end.

Definition endpoints_unknown (nodeIds : gset string) (link : out_link) : Exc bool :=
  match endpoints_known nodeIds link with
  | Throw msg => Throw msg
  | Ok b => Ok (negb b)
  end.

(** [Array.prototype.filter] with a callback that may throw. *)
Fixpoint filter_exc {A : Type} (f : A -> Exc bool) (l : list A) : Exc (list A) :=
  match l with
  | [] => Ok []
  | a :: l' =>
      match f a with
      | Throw msg => Throw msg
      | Ok b =>
          match filter_exc f l' with
          | Throw msg => Throw msg
          | Ok r => Ok (if b then a :: r else r)
          end
      end
  end.

(** The links that are drawn. *)
Definition validate (nodes : list graph_node) (links : list out_link)
    : Exc (list out_link) :=
  let nodeIds : gset string := list_to_set (map g_id nodes) in
  match filter_exc (endpoints_unknown nodeIds) links with
  | Throw msg => Throw msg
  | Ok [] => Ok links
  | Ok (_ :: _) => filter_exc (endpoints_known nodeIds) links
  end.

(** The effect of [GraphVisualization] on its [data]. *)
Definition processGraph (data : option out_graph) : processed :=
  match data with
  | None => MkProcessed [] [] (Some "无效的图形数据结构")
  | Some g =>
      match o_nodes g with
      | [] => MkProcessed [] [] (Some "图数据中没有找到节点")
      | _ :: _ =>
          match validate (o_nodes g) (o_links g) with
          | Ok links => MkProcessed (o_nodes g) links None
          | Throw _ => MkProcessed [] [] (Some "处理图数据时出错")
          end
      end
  end.

End Client.

(** ** Scripted worlds, used to run the model *)

Module Script.
Import JsString Json Effects Neo4j OpenAI Route.
Local Open Scope string_scope.

(** A database given by a function from query text to records, which
    refuses a query that is not a text, and an LLM that always answers the
    same text.  The world state is not used. *)
Definition env (db : string -> Exc (list record)) (answer : Exc string) : Env unit :=
  MkEnv unit
    (fun _ w => (Ok tt, w))
    (fun q w => (db q, w))
    (fun _ w => (Throw "Cypher query is expected to be a non-empty string.", w))
    (fun w => (Ok tt, w))
    (fun _ w =>
       (match answer with
        | Ok text => Ok (MkLlmResponse (Some [Some text]))
        | Throw msg => Throw msg
        end, w))
    None None.

Definition node (i name : string) : dbvalue :=
  VNode i ["Person"] [("name", JStr name)].

Definition answer_json (query explanation : string) : string :=
  "{" ++ dq ++ "cypherQuery" ++ dq ++ ":" ++ dq ++ query ++ dq ++ "," ++
  dq ++ "explanation" ++ dq ++ ":" ++ dq ++ explanation ++ dq ++ "}".

Definition good_body (ms : list message) : body :=
  MkBody (Some ms) (Some "sk-1") None (Some "bolt://db") (Some "neo4j") (Some "pw") None.

Definition silent_db (q : string) : Exc (list record) := Ok [].

Definition no_schema : full_schema := MkFullSchema [] [] [].

Definition no_key_body : body :=
  MkBody (Some [MkMessage "user" "hi"]) None None
    (Some "bolt://db") (Some "neo4j") (Some "pw") None.

Definition no_messages_body : body :=
  MkBody None (Some "sk-1") None (Some "bolt://db") (Some "neo4j") (Some "pw") None.

(** Three nodes, two relationships between them and one relationship to a
    fourth node that is not in the result. *)
Definition dangling_result : Neo4jResult :=
  MkResult
    (Some [MkRawNode "1" (Some ["Person"]) (Some []);
           MkRawNode "2" (Some ["Person"]) (Some []);
           MkRawNode "3" (Some ["Person"]) (Some [])])
    (Some [MkRawRel "10" "KNOWS" "1" "2" (Some []);
           MkRawRel "11" "KNOWS" "2" "3" (Some []);
           MkRawRel "12" "KNOWS" "3" "4" (Some [])]).

(** The response body of the specification: a sentence, then a fenced json
    block with the two fields. *)
Definition fenced_body : string :=
  "Here is the answer:" ++ nl ++ "```json" ++ nl ++
  answer_json "MATCH (n) RETURN n" "x" ++ nl ++ "```".

Definition people_db (q : string) : Exc (list record) :=
  Ok [[("a.name", VOther (JStr "Ann")); ("b", node "2" "Bob")]].

Definition people_query : string := "MATCH (a)--(b) RETURN a.name, b".

Definition people_table : table :=
  MkTable ["a.name"; "b"]
    [[("a.name", JStr "Ann"); ("b", JObj [("name", JStr "Bob")])]].

Definition knows_query : string := "MATCH (a)-[:KNOWS]->(b) RETURN a,b".

(** A database in which the relationship runs from b to a. *)
Definition reversed_db (q : string) : Exc (list record) :=
  if String.eqb q "MATCH (b)-[:KNOWS]->(a) RETURN a,b"
  then Ok [[("a", node "1" "Ann"); ("b", node "2" "Bob")]]
  else Ok [].

Definition named_query : string := "MATCH (a)-[r:KNOWS]->(b) RETURN a,b".

Definition chained_query : string := "MATCH (a)-[:妻子]->(b)-[:妻子]->(c) RETURN a,c".


(** An HTTP client that always answers the same. *)
Definition http (answer : Exc (option json)) : Models.Http unit :=
  Models.MkHttp unit (fun _ _ w => (answer, w)) None.

(** A driver library that accepts every connection, in a process without
    the three environment variables. *)
Definition lib : Driver.Lib := Driver.MkLib (fun _ => Ok tt) None None None.

(** A pool with a verified driver to bolt://a. *)
Definition pool_a : Driver.state :=
  Driver.MkState (Some 1) (Some 0)
    (Some (Driver.MkConnection "bolt://a" "neo4j" "pw")) 2
    [(0, Driver.Fulfilled (Some 1))]
    [Driver.Created 1 (Driver.MkConnection "bolt://a" "neo4j" "pw");
     Driver.VerifyStarted 1].

(** A pool before its first use. *)
Definition pool_empty : Driver.state := Driver.MkState None None None 0 [] [].

Definition config_b : option config :=
  Some (MkConfig (Some "bolt://b") (Some "neo4j") (Some "pw")).





(** A schema of one label with one property. *)
Definition people_schema : full_schema :=
  MkFullSchema ["Person"] ["KNOWS"] [("Person", ["name"])].

(** The same with a given outcome of [session.close()]. *)
Definition env_closing (db : string -> Exc (list record)) (answer : Exc string)
    (closing : Exc unit) : Env unit :=
  MkEnv unit
    (fun _ w => (Ok tt, w))
    (fun q w => (db q, w))
    (fun _ w => (Throw "Cypher query is expected to be a non-empty string.", w))
    (fun w => (closing, w))
    (fun _ w =>
       (match answer with
        | Ok text => Ok (MkLlmResponse (Some [Some text]))
        | Throw msg => Throw msg
        end, w))
    None None.

Definition no_key_no_messages_body : body :=
  MkBody None None None (Some "bolt://db") (Some "neo4j") (Some "pw") None.

(** A query that filters on a property and returns the whole node. *)
Definition filtered_query : string := "MATCH (n) WHERE n.name = 'Ann' RETURN n".

Definition filtered_db (q : string) : Exc (list record) := Ok [[("n", node "1" "Ann")]].

(** A database that answers nothing to [knows_query] and fails on its
    reversal. *)
Definition failing_retry_db (q : string) : Exc (list record) :=
  if String.eqb q "MATCH (b)-[:KNOWS]->(a) RETURN a,b"
  then Throw "Cannot read properties of undefined (reading 'toString')"
  else Ok [].

(** An answer whose query is an array of one text. *)
Definition array_answer : string :=
  "{" ++ dq ++ "cypherQuery" ++ dq ++ ": [" ++ dq ++ "MATCH (n) RETURN n" ++ dq ++ "], "
  ++ dq ++ "explanation" ++ dq ++ ": " ++ dq ++ "x" ++ dq ++ "}".

End Script.

(** * Properties *)

Import JsString Regex Json Effects Neo4j OpenAI Route Script.
Local Open Scope string_scope.

(** ** The result normalizer *)

Section Normalizer.

Lemma fill_nodeIdMap_lookup (ns : list graph_node) :
  forall (base : nat) (m : gmap string nat) (id : string) (i : nat),
    fill_nodeIdMap ns base m !! id = Some i ->
    (base <= i /\ exists node, ns !! (i - base) = Some node /\ g_id node = id)
    \/ m !! id = Some i.
Proof.
  induction ns as [|n ns IH]; intros base m id i H; simpl in H.
  - right; exact H.
  - destruct (IH _ _ _ _ H) as [[Hle [node [Hn Hid]]] | Hm].
    + left. split; [lia|]. exists node. split; [|exact Hid].
      replace (i - base) with (S (i - S base)) by lia. exact Hn.
    + destruct (decide (g_id n = id)) as [Heq | Hne].
      * subst id. rewrite lookup_insert_eq in Hm. injection Hm as <-.
        left. split; [lia|]. exists n. rewrite Nat.sub_diag. split; reflexivity.
      * rewrite lookup_insert_ne in Hm by exact Hne. right; exact Hm.
Qed.

(** An index found in the map is a position of the node list, and the node
    there has the identifier that was looked up. *)
Lemma nodeIdMap_of_lookup (ns : list graph_node) (id : string) (i : nat) :
  nodeIdMap_of ns !! id = Some i ->
  exists node, ns !! i = Some node /\ g_id node = id.
Proof.
  intros H. destruct (fill_nodeIdMap_lookup ns 0 ∅ id i H) as [[_ [node [Hn Hid]]] | He].
  - exists node. rewrite Nat.sub_0_r in Hn. split; assumption.
  - rewrite lookup_empty in He. discriminate.
Qed.

Lemma fill_nodeIdMap_dom (ns : list graph_node) :
  forall (base : nat) (m : gmap string nat) (id : string),
    is_Some (fill_nodeIdMap ns base m !! id) <->
    (id ∈ map g_id ns \/ is_Some (m !! id)).
Proof.
  induction ns as [|n ns IH]; intros base m id; simpl.
  - split; [intros H; right; exact H | intros [H | H]; [inversion H | exact H]].
  - rewrite IH, elem_of_cons, lookup_insert_is_Some.
    destruct (decide (g_id n = id)) as [Heq | Hne]; [rewrite Heq; tauto|].
    split.
    + intros [H | [H | [_ H]]]; [left; right; exact H | contradiction | right; exact H].
    + intros [[H | H] | H];
        [symmetry in H; contradiction | left; exact H | right; right; split; assumption].
Qed.

(** The emitted nodes carry the identifiers of the input nodes, in order. *)
Lemma transform_node_ids (ns : list raw_node) (rs : list raw_rel) :
  map g_id (g_nodes (transformNeo4jResultToGraphData (Some (MkResult (Some ns) (Some rs)))))
  = map n_id ns.
Proof.
  simpl. rewrite map_map. reflexivity.
Qed.

(** A link whose source (target) was found points at a node whose
    identifier is the start (end) of its relationship. *)
Lemma transform_link_endpoints (ns : list raw_node) (rs : list raw_rel)
    (k : nat) (rel : raw_rel) (link : graph_link) :
  let g := transformNeo4jResultToGraphData (Some (MkResult (Some ns) (Some rs))) in
  rs !! k = Some rel ->
  g_links g !! k = Some link ->
  (forall i, source link = Some i ->
     exists node, g_nodes g !! i = Some node /\ g_id node = startNodeId rel) /\
  (forall i, target link = Some i ->
     exists node, g_nodes g !! i = Some node /\ g_id node = endNodeId rel).
Proof.
  simpl. intros Hrel Hlink.
  rewrite list_lookup_fmap, Hrel in Hlink. simpl in Hlink. injection Hlink as <-.
  split; intros i Hi; simpl in Hi; apply nodeIdMap_of_lookup; exact Hi.
Qed.

(** A relationship is never dropped: there is one link per relationship,
    and the link of a relationship whose end is not an emitted node has no
    target. *)
Lemma transform_keeps_every_relationship (ns : list raw_node) (rs : list raw_rel) :
  let g := transformNeo4jResultToGraphData (Some (MkResult (Some ns) (Some rs))) in
  length (g_links g) = length rs /\
  forall k rel link,
    rs !! k = Some rel -> g_links g !! k = Some link ->
    endNodeId rel ∉ map n_id ns -> target link = None.
Proof.
  simpl. split; [apply length_map|].
  intros k rel link Hrel Hlink Hnot.
  rewrite list_lookup_fmap, Hrel in Hlink. simpl in Hlink. injection Hlink as <-.
  simpl. apply eq_None_not_Some. intros Hsome.
  apply fill_nodeIdMap_dom in Hsome. destruct Hsome as [Hin | He].
  - rewrite map_map in Hin. apply Hnot. exact Hin.
  - rewrite lookup_empty in He. destruct He; discriminate.
Qed.

End Normalizer.

(** C1, at the input of the specification (three nodes, two valid
    relationships, one relationship to an absent fourth node): the
    normalization emits three links, not two; the third has source 2 and no
    target, so it is passed through rather than excluded. *)
Theorem C1_dangling_link_is_emitted :
  let g := transformNeo4jResultToGraphData (Some dangling_result) in
  map g_id (g_nodes g) = ["1"; "2"; "3"] /\
  length (g_links g) = 3 /\
  map (fun l => (source l, target l)) (g_links g)
  = [(Some 0, Some 1); (Some 1, Some 2); (Some 2, None)].
Proof.
  vm_compute. repeat split.
Qed.

(** C10: a result that is null or undefined, or that lacks its nodes or
    its relationships, is normalized to the empty graph. *)
Theorem C10_transform_total_on_missing (result : option Neo4jResult) :
  (result = None \/
   exists r, result = Some r /\ (nodes r = None \/ relationships r = None)) ->
  transformNeo4jResultToGraphData result = MkGraph [] [].
Proof.
  intros [-> | [r [-> [Hn | Hr]]]]; simpl.
  - reflexivity.
  - rewrite Hn. reflexivity.
  - rewrite Hr. destruct (nodes r); reflexivity.
Qed.

Lemma C10_transform_total_on_missing_witness :
  transformNeo4jResultToGraphData (Some (MkResult None (Some []))) = MkGraph [] [].
Proof.
  apply (C10_transform_total_on_missing (Some (MkResult None (Some [])))).
  right. exists (MkResult None (Some [])). split; [reflexivity | left; reflexivity].
Defined.

(** ** The synthesizer's parsing *)

(** C9: the fenced response body parses to the query MATCH (n) RETURN n
    with the explanation x. *)
Theorem C9_fenced_json_parses :
  parse_content fenced_body = MkSynth (JStr "MATCH (n) RETURN n") (JStr "x") /\
  fst (exec (generateCypherQuery (env (fun _ => Ok []) (Ok fenced_body))
               [MkMessage "user" "show me the nodes"] (MkFullSchema [] [] [])
               (Some "sk-1") None None) tt)
  = Ok (MkSynth (JStr "MATCH (n) RETURN n") (JStr "x")).
Proof.
  vm_compute. split; reflexivity.
Qed.

(** ** Input validation *)

Section Validation.
Context {W : Type}.
Variable stringify : nodeProperties_t -> string.
Variable E : Env W.

(** C7, as the code has it: a request without LLM key, or whose body
    could not be parsed, is answered with status 400 before any call to
    the database or to the LLM.  When the request carries its messages the
    message is the one about the API key; otherwise it is the one about
    the messages. *)
Theorem C7_missing_key_rejected (request : option body) (w : W) :
  match request with
  | Some b => missing (b_openaiApiKey b) = true
  | None => True
  end ->
  exists msg,
    exec (POST stringify E request) w = (Ok (json_response 400 msg), MkSt w []) /\
    (forall b ms,
       request = Some b -> b_messages b = Some ms ->
       msg = missing_key_message /\ includes msg "API密钥" = true) /\
    ((request = None \/ exists b, request = Some b /\ b_messages b = None) ->
     msg = missing_messages_message).
Proof.
  intros Hkey. unfold exec, POST, try_catch.
  destruct request as [b|].
  - destruct (b_messages b) as [ms|] eqn:Hms.
    + rewrite Hkey. exists missing_key_message. split; [reflexivity|]. split.
      * intros b' ms' _ _. split; [reflexivity | vm_compute; reflexivity].
      * intros [H | [b' [H Hb']]]; [discriminate|].
        injection H as <-. rewrite Hms in Hb'. discriminate.
    + exists missing_messages_message. split; [reflexivity|]. split.
      * intros b' ms' H Hb'. injection H as <-. rewrite Hms in Hb'. discriminate.
      * intros _. reflexivity.
  - exists missing_messages_message. split; [reflexivity|]. split.
    + intros b ms H. discriminate.
    + intros _. reflexivity.
Qed.

(** C5, as the code has it: a request whose body is missing or has no
    messages field is answered with status 400 and the fixed message,
    before any call. *)
Theorem C5_missing_messages_rejected (request : option body) (w : W) :
  (request = None \/ exists b, request = Some b /\ b_messages b = None) ->
  exec (POST stringify E request) w
  = (Ok (json_response 400 missing_messages_message), MkSt w []).
Proof.
  intros [-> | [b [-> Hb]]]; unfold exec, POST, try_catch; [reflexivity|].
  rewrite Hb. reflexivity.
Qed.

End Validation.

Lemma C7_missing_key_rejected_witness :
  exec (POST (fun _ => "{}") (env silent_db (Throw "down")) (Some no_key_body)) tt
  = (Ok (json_response 400 missing_key_message), MkSt tt []) /\
  includes missing_key_message "API密钥" = true.
Proof.
  destruct (C7_missing_key_rejected (fun _ => "{}") (env silent_db (Throw "down"))
              (Some no_key_body) tt eq_refl) as [msg [Hrun [Hkey _]]].
  destruct (Hkey no_key_body [MkMessage "user" "hi"] eq_refl eq_refl) as [Hmsg Hin].
  rewrite Hmsg in Hrun, Hin. split; [exact Hrun | exact Hin].
Defined.

(** C7, as stated, fails: a request that lacks its LLM key and its
    messages is answered with the message about the messages, which does
    not mention the key. *)
Lemma C7_missing_key_and_messages :
  exec (POST (fun _ => "{}") (env silent_db (Throw "down")) (Some no_key_no_messages_body)) tt
  = (Ok (json_response 400 "Invalid request: messages array is required"), MkSt tt []) /\
  missing (b_openaiApiKey no_key_no_messages_body) = true /\
  includes (toLowerCase "Invalid request: messages array is required") "key" = false /\
  includes "Invalid request: messages array is required" "密钥" = false.
Proof.
  vm_compute. repeat split.
Qed.

Lemma C5_missing_messages_rejected_witness :
  exec (POST (fun _ => "{}") (env silent_db (Throw "down")) (Some no_messages_body)) tt
  = (Ok (json_response 400 missing_messages_message), MkSt tt []).
Proof.
  apply (C5_missing_messages_rejected (fun _ => "{}") (env silent_db (Throw "down"))
           (Some no_messages_body) tt).
  right. exists no_messages_body. split; reflexivity.
Defined.

(** C5, as stated, fails: a request with an empty list of messages and all
    credentials is not rejected; the schema is fetched and the LLM is
    called. *)
Lemma C5_empty_messages_not_rejected :
  let '(r, st) :=
    exec (POST (fun _ => "{}") (env silent_db (Throw "down")) (Some (good_body []))) tt in
  (forall msg, r <> Ok (json_response 400 msg)) /\
  existsb is_db_event (trace st) = true /\
  existsb is_llm_event (trace st) = true.
Proof.
  vm_compute. repeat split. intros msg H. discriminate H.
Qed.

(** ** The synthesizer's failure paths *)

Section Synthesizer.
Context {W : Type}.
Variable E : Env W.
Variable messages : list message.
Variable sc : full_schema.
Variables apiKey baseUrl modelName : option string.

(** The outcome of the parsing, by strategy. *)
Lemma parse_content_cases (text : string) :
  (forall r, parse_structured text = Ok r ->
     parse_content text = r /\ Json.truthy (cypherQuery r) = true) /\
  (forall msg, parse_structured text = Throw msg ->
     js_match (field_re "cypherQuery") text = None ->
     parse_content text = MkSynth (JStr default_query) (JStr parse_failure_explanation)).
Proof.
  unfold parse_content. split.
  - intros r Hr. rewrite Hr. split; [reflexivity|].
    unfold parse_structured in Hr.
    destruct (Json.parse (extract_json text)) as [v|]; [|discriminate].
    destruct (field v "cypherQuery") as [[qv|]|]; try discriminate.
    destruct (Json.truthy qv) eqn:Hq; [|discriminate].
    destruct (field v "explanation") as [[ev|]|]; try discriminate;
      injection Hr as <-; exact Hq.
  - intros msg Hs Hm. rewrite Hs. unfold parse_literal. rewrite Hm. reflexivity.
Qed.

(** C3, as the code has it.  The synthesizer always returns a value.
    It returns the fallback, the query MATCH (n) RETURN n LIMIT 25 without
    label and a fixed, non-empty explanation, without any call when the
    prompt cannot be built or the key is missing; otherwise it makes one
    call, and returns the fallback when that call throws or answers no
    choice or no content.  For a text that the call answers: when the JSON
    strategy reads an object with a truthy query, the query returned is
    that value; when the JSON strategy fails and the literal pattern finds
    no match, the value returned is the same default query with the
    explanation of the parse failure. *)
Theorem C3_synthesizer_falls_back (st : St W) :
  exists r st',
    generateCypherQuery E messages sc apiKey baseUrl modelName st = (Ok r, st') /\
    (((exists msg, systemPrompt sc = Throw msg) \/
      present (or_opt apiKey (env_OPENAI_API_KEY E)) = None) ->
     r = MkSynth (JStr "MATCH (n) RETURN n LIMIT 25") (JStr error_explanation) /\
     Json.truthy (explanation r) = true /\ st' = st) /\
    (forall prompt key,
       systemPrompt sc = Ok prompt ->
       present (or_opt apiKey (env_OPENAI_API_KEY E)) = Some key ->
       let req :=
         MkLlmRequest
           (default "https://api.openai.com/v1"
              (or_opt (or_opt baseUrl (env_OPENAI_BASE_URL E)) None))
           key (default "gpt-4" (or_opt modelName None))
           (MkMessage "system" prompt :: messages) in
       trace st' = (trace st ++ [EvLlm req])%list /\
       (forall msg w',
          llm_create E req (world st) = (Throw msg, w') ->
          r = MkSynth (JStr "MATCH (n) RETURN n LIMIT 25") (JStr error_explanation) /\
          Json.truthy (explanation r) = true) /\
       (forall response w',
          llm_create E req (world st) = (Ok response, w') ->
          ((choices response = None \/ choices response = Some [] \/
            (exists rest, choices response = Some (None :: rest)) \/
            (exists rest, choices response = Some (Some EmptyString :: rest))) ->
           r = MkSynth (JStr "MATCH (n) RETURN n LIMIT 25") (JStr error_explanation) /\
           Json.truthy (explanation r) = true) /\
          (forall text rest,
             choices response = Some (Some text :: rest) ->
             JsString.truthy text = true ->
             (forall v q,
                Json.parse (extract_json text) = Some v ->
                field v "cypherQuery" = Ok (Some q) ->
                Json.truthy q = true ->
                cypherQuery r = q) /\
             (forall msg,
                parse_structured text = Throw msg ->
                js_match (field_re "cypherQuery") text = None ->
                r = MkSynth (JStr "MATCH (n) RETURN n LIMIT 25")
                      (JStr parse_failure_explanation) /\
                Json.truthy (explanation r) = true)))).
Proof.
  unfold generateCypherQuery, try_catch, bind at 1, lift.
  destruct (systemPrompt sc) as [prompt|pmsg] eqn:Hprompt.
  2:{ exists fallback, st. split; [reflexivity|]. split.
      - intros _. repeat split.
      - intros prompt key Hp. discriminate. }
  destruct (present (or_opt apiKey (env_OPENAI_API_KEY E))) as [key|] eqn:Hkey.
  2:{ exists fallback, st. split; [reflexivity|]. split.
      - intros _. repeat split.
      - intros prompt' key _ Hk. discriminate. }
  unfold bind, create, call.
  set (req := MkLlmRequest _ key _ _).
  assert (Hnot : ((exists msg, Ok prompt = Throw msg) \/ Some key = None) -> False).
  { intros [[msg H] | H]; discriminate. }
  destruct (llm_create E req (world st)) as [[resp | emsg] w1] eqn:Hllm.
  - set (st1 := MkSt w1 (trace st ++ [EvLlm req])).
    assert (Hshape : forall r,
      (match choices resp with
       | Some (Some text :: _) =>
           if JsString.truthy text then r = parse_content text else r = fallback
       | _ => r = fallback
       end) ->
      (((exists msg, Ok prompt = Throw msg) \/ Some key = None) ->
       r = MkSynth (JStr "MATCH (n) RETURN n LIMIT 25") (JStr error_explanation) /\
       Json.truthy (explanation r) = true /\ st1 = st) /\
      (forall prompt' key',
         Ok prompt = Ok prompt' -> Some key = Some key' ->
         let req' :=
           MkLlmRequest
             (default "https://api.openai.com/v1"
                (or_opt (or_opt baseUrl (env_OPENAI_BASE_URL E)) None))
             key' (default "gpt-4" (or_opt modelName None))
             (MkMessage "system" prompt' :: messages) in
         trace st1 = (trace st ++ [EvLlm req'])%list /\
         (forall msg w',
            llm_create E req' (world st) = (Throw msg, w') ->
            r = MkSynth (JStr "MATCH (n) RETURN n LIMIT 25") (JStr error_explanation) /\
            Json.truthy (explanation r) = true) /\
         (forall response w',
            llm_create E req' (world st) = (Ok response, w') ->
            ((choices response = None \/ choices response = Some [] \/
              (exists rest, choices response = Some (None :: rest)) \/
              (exists rest, choices response = Some (Some EmptyString :: rest))) ->
             r = MkSynth (JStr "MATCH (n) RETURN n LIMIT 25") (JStr error_explanation) /\
             Json.truthy (explanation r) = true) /\
            (forall text rest,
               choices response = Some (Some text :: rest) ->
               JsString.truthy text = true ->
               (forall v q,
                  Json.parse (extract_json text) = Some v ->
                  field v "cypherQuery" = Ok (Some q) ->
                  Json.truthy q = true ->
                  cypherQuery r = q) /\
               (forall msg,
                  parse_structured text = Throw msg ->
                  js_match (field_re "cypherQuery") text = None ->
                  r = MkSynth (JStr "MATCH (n) RETURN n LIMIT 25")
                        (JStr parse_failure_explanation) /\
                  Json.truthy (explanation r) = true))))).
    { intros r Hr. split; [intros H; destruct (Hnot H)|].
      intros prompt' key' Hp Hk. injection Hp as <-. injection Hk as <-.
      cbv zeta. fold req. split; [reflexivity|]. split.
      { intros msg w' Hw. rewrite Hw in Hllm. discriminate. }
      intros response w' Hw. rewrite Hw in Hllm. injection Hllm as -> _. split.
      - intros [Hc | [Hc | [[rest Hc] | [rest Hc]]]]; rewrite Hc in Hr;
          cbn in Hr; subst r; split; reflexivity.
      - intros text rest Hc Ht. rewrite Hc, Ht in Hr. subst r. split.
        + intros v q Hv Hq Htq. unfold parse_content, parse_structured.
          rewrite Hv, Hq, Htq.
          destruct (field v "explanation") as [[ev|]|emsg'] eqn:He; try reflexivity.
          exfalso. destruct v; cbn in Hq, He; discriminate.
        + intros msg Hs Hm. destruct (parse_content_cases text) as [_ Hthrow].
          rewrite (Hthrow msg Hs Hm). split; reflexivity. }
    destruct (choices resp) as [[|[text|] rest]|] eqn:Hch.
    + exists fallback, st1. split; [reflexivity|]. apply Hshape. reflexivity.
    + destruct (JsString.truthy text) eqn:Htext.
      * exists (parse_content text), st1. split; [reflexivity|]. apply Hshape.
        reflexivity.
      * exists fallback, st1. split; [reflexivity|]. apply Hshape.
        reflexivity.
    + exists fallback, st1. split; [reflexivity|]. apply Hshape. reflexivity.
    + exists fallback, st1. split; [reflexivity|]. apply Hshape. reflexivity.
  - exists fallback, (MkSt w1 (trace st ++ [EvLlm req])). split; [reflexivity|]. split.
    + intros H. destruct (Hnot H).
    + intros prompt' key' Hp Hk. injection Hp as <-. injection Hk as <-.
      cbv zeta. fold req. split; [reflexivity|]. split.
      * intros msg w' _. split; reflexivity.
      * intros response w' Hw. rewrite Hw in Hllm. discriminate.
Qed.

End Synthesizer.

(** A run of C3 with a schema of one label and an LLM that answers a
    sentence without query: the default query is returned with the
    explanation of the parse failure. *)
Lemma C3_synthesizer_falls_back_witness :
  exists r st',
    generateCypherQuery (env silent_db (Ok "Sorry, I cannot write that query."))
      [MkMessage "user" "hi"] people_schema (Some "sk-1") None None (MkSt tt [])
    = (Ok r, st') /\
    r = MkSynth (JStr "MATCH (n) RETURN n LIMIT 25") (JStr parse_failure_explanation) /\
    Json.truthy (explanation r) = true.
Proof.
  destruct (C3_synthesizer_falls_back
              (env silent_db (Ok "Sorry, I cannot write that query."))
              [MkMessage "user" "hi"] people_schema (Some "sk-1") None None (MkSt tt []))
    as [r [st' [Hrun [_ Hcall]]]].
  exists r, st'. split; [exact Hrun|].
  destruct (Hcall (prompt_text ["- Person (Properties: name)"] ["KNOWS"]) "sk-1"
              eq_refl eq_refl) as [_ [_ Hanswer]].
  destruct (Hanswer (MkLlmResponse (Some [Some "Sorry, I cannot write that query."])) tt
              eq_refl) as [_ Htext].
  destruct (Htext "Sorry, I cannot write that query." [] eq_refl eq_refl) as [_ Hfail].
  apply (Hfail "Unexpected token in JSON"); vm_compute; reflexivity.
Defined.

(** C3, as stated, fails: with the LLM down the fallback query is
    MATCH (n) RETURN n LIMIT 25, which names no label. *)
Lemma C3_fallback_names_no_label :
  let '(r, _) :=
    exec (generateCypherQuery (env silent_db (Throw "network")) [MkMessage "user" "hi"]
            no_schema (Some "sk-1") None None) tt in
  exists q e,
    r = Ok (MkSynth (JStr q) e) /\
    forall label, q <> "MATCH (n:" ++ label ++ ") RETURN n LIMIT 25".
Proof.
  vm_compute. eexists _, _. split; [reflexivity|].
  intros label H. discriminate H.
Qed.

(** The strategy that reads the fields from the raw text can return an
    empty query: the capture is only required to hold one character, and
    is trimmed afterwards. *)
Lemma literal_strategy_can_return_empty_query :
  parse_content "cypherQuery:  " = MkSynth (JStr EmptyString) (JStr default_explanation).
Proof.
  vm_compute. reflexivity.
Qed.

(** ** The table form *)

Lemma map_exc_Forall2 {A B : Type} (f : A -> Exc B) (l : list A) :
  forall bs, map_exc f l = Ok bs -> Forall2 (fun a b => f a = Ok b) l bs.
Proof.
  induction l as [|a l IH]; intros bs H; simpl in H.
  - injection H as <-. constructor.
  - destruct (f a) as [b|] eqn:Hb; [|discriminate].
    destruct (map_exc f l) as [bs'|]; [|discriminate].
    injection H as <-. constructor; [exact Hb | apply IH; reflexivity].
Qed.

(** A row holds, column by column, the cell of the value that the record
    has under that column. *)
Lemma row_of_spec (columns : list string) (rec : record) (row : list (string * json)) :
  row_of columns rec = Ok row ->
  map fst row = columns /\
  forall j column c,
    row !! j = Some (column, c) ->
    exists value, record_get rec column = Ok value /\ c = cell value.
Proof.
  unfold row_of. intros H. apply map_exc_Forall2 in H.
  induction H as [|column [k c] cols row' Hhead _ IH].
  - split; [reflexivity|]. intros j column c Hj. rewrite lookup_nil in Hj. discriminate.
  - destruct IH as [IHcols IHcells].
    destruct (record_get rec column) as [value|] eqn:Hget; [|discriminate].
    injection Hhead as <- <-. split; [simpl; rewrite IHcols; reflexivity|].
    intros [|j] column' c' Hj; simpl in Hj.
    + injection Hj as <- <-. exists value. split; [exact Hget | reflexivity].
    + apply (IHcells j). exact Hj.
Qed.

Section TablePath.
Context {W : Type}.
Variable E : Env W.
Variable cfg : option config.

(** C4, as the code has it: a table is produced only for a query text
    that, in lower case, contains return and, anywhere, a name access or
    an as alias; its columns are the
    keys of the first record; there is one row per record and each cell is
    the property map of an entity-valued field and the value itself of a
    scalar field. *)
Theorem C4_table_form (cypherQuery : string) (st st' : St W) (t : table) :
  table_step E cfg cypherQuery st = (Ok (Some t), st') ->
  (includes (toLowerCase cypherQuery) "return" = true /\
   (includes (toLowerCase cypherQuery) ".name" = true \/
    includes (toLowerCase cypherQuery) "as " = true)) /\
  (exists first rest w w',
     session_run E cypherQuery w = (Ok (first :: rest), w') /\
     columns t = keys first /\
     length (rows t) = length (first :: rest) /\
     forall i rec row,
       (first :: rest) !! i = Some rec -> rows t !! i = Some row ->
       map fst row = columns t /\
       forall j column c,
         row !! j = Some (column, c) ->
         exists value, record_get rec column = Ok value /\ c = cell value) /\
  (forall i ls ps, cell (VNode i ls ps) = JObj ps) /\
  (forall i ty s e ps, cell (VRel i ty s e ps) = JObj ps) /\
  (forall v, is_scalar v = true -> cell (VOther v) = v).
Proof.
  intros H. unfold table_step, try_catch in H.
  destruct (wants_table cypherQuery) eqn:Hwants.
  2:{ simpl in H. discriminate. }
  split.
  { unfold wants_table in Hwants. apply andb_prop in Hwants as [Hret Hproj].
    split; [exact Hret|]. apply orb_prop in Hproj. exact Hproj. }
  split.
  2:{ repeat split; try reflexivity. intros v Hv. destruct v; try reflexivity; discriminate. }
  unfold bind, getDriver, run, close, call, lift in H.
  destruct (get_driver E cfg (world st)) as [[[]|m0] w0]; simpl in H; [|discriminate].
  destruct (session_run E cypherQuery w0) as [[records|m1] w1] eqn:Hrun;
    simpl in H; [|discriminate].
  destruct (session_close E w1) as [[[]|m2] w2]; simpl in H; [|discriminate].
  unfold table_of_records in H.
  destruct records as [|first rest]; [discriminate|].
  destruct (map_exc (row_of (keys first)) (first :: rest)) as [rws|] eqn:Hrows;
    [|discriminate].
  injection H as <- _. simpl.
  exists first, rest, w0, w1. split; [exact Hrun|]. split; [reflexivity|].
  apply map_exc_Forall2 in Hrows. split.
  - symmetry. apply (Forall2_length _ _ _ Hrows).
  - intros i rec row Hrec Hrow.
    apply row_of_spec. exact (Forall2_lookup_lr _ _ _ _ _ _ Hrows Hrec Hrow).
Qed.

End TablePath.

Lemma C4_table_form_witness :
  includes (toLowerCase people_query) "return" = true /\
  (includes (toLowerCase people_query) ".name" = true \/
   includes (toLowerCase people_query) "as " = true).
Proof.
  refine (proj1 (C4_table_form (env people_db (Throw "unused")) None people_query
                   (MkSt tt []) (MkSt tt [EvDriver None; EvRun people_query; EvClose])
                   people_table _)).
  vm_compute. reflexivity.
Defined.

(** C4, as stated, fails: the test reads the whole text, not the return
    clause.  A query that filters on a name and returns the whole node
    gets a table, whose cell is the property map of the node. *)
Lemma C4_table_for_whole_node :
  return_clause_projects_values filtered_query = false /\
  exec (table_step (env filtered_db (Throw "unused")) None filtered_query) tt
  = (Ok (Some (MkTable ["n"] [[("n", JObj [("name", JStr "Ann")])]])),
     MkSt tt [EvDriver None; EvRun filtered_query; EvClose]).
Proof.
  vm_compute. split; reflexivity.
Qed.

(** ** The trace only grows *)

Local Open Scope list_scope.

Section Trace.
Context {W : Type}.

Lemma extends_ret {A} (a : A) : extends (@ret W A a).
Proof. intros st r st' H. injection H as _ <-. exists []. symmetry. apply app_nil_r. Qed.

Lemma extends_throw {A} (msg : string) : extends (@throw W A msg).
Proof. intros st r st' H. injection H as _ <-. exists []. symmetry. apply app_nil_r. Qed.

Lemma extends_lift {A} (x : Exc A) : extends (@lift W A x).
Proof. intros st r st' H. injection H as _ <-. exists []. symmetry. apply app_nil_r. Qed.

Lemma extends_call {A} (e : event) (f : W -> Exc A * W) : extends (call e f).
Proof.
  intros st r st' H. unfold call in H. destruct (f (world st)) as [r0 w0].
  injection H as _ <-. exists [e]. reflexivity.
Qed.

Lemma extends_bind {A B} (m : M W A) (k : A -> M W B) :
  extends m -> (forall a, extends (k a)) -> extends (bind m k).
Proof.
  intros Hm Hk st r st' H. unfold bind in H.
  destruct (m st) as [[a|msg] st1] eqn:Hrun.
  - destruct (Hm _ _ _ Hrun) as [l1 H1]. destruct (Hk a _ _ _ H) as [l2 H2].
    exists (l1 ++ l2). rewrite H2, H1. symmetry. apply app_assoc.
  - injection H as _ <-. exact (Hm _ _ _ Hrun).
Qed.

Lemma extends_try_catch {A} (m : M W A) (h : string -> M W A) :
  extends m -> (forall msg, extends (h msg)) -> extends (try_catch m h).
Proof.
  intros Hm Hh st r st' H. unfold try_catch in H.
  destruct (m st) as [[a|msg] st1] eqn:Hrun.
  - injection H as _ <-. exact (Hm _ _ _ Hrun).
  - destruct (Hm _ _ _ Hrun) as [l1 H1]. destruct (Hh msg _ _ _ H) as [l2 H2].
    exists (l1 ++ l2). rewrite H2, H1. symmetry. apply app_assoc.
Qed.

Lemma extends_finally {A} (m : M W A) (f : M W unit) :
  extends m -> extends f -> extends (finally m f).
Proof.
  intros Hm Hf st r st' H. unfold finally in H.
  destruct (m st) as [r0 st1] eqn:Hrun. destruct (Hm _ _ _ Hrun) as [l1 H1].
  destruct (f st1) as [[u|msg] st2] eqn:Hfin; destruct (Hf _ _ _ Hfin) as [l2 H2];
    injection H as _ <-; exists (l1 ++ l2); rewrite H2, H1; symmetry; apply app_assoc.
Qed.

Lemma extends_if {A} (c : bool) (m1 m2 : M W A) :
  extends m1 -> extends m2 -> extends (if c then m1 else m2).
Proof. destruct c; auto. Qed.

End Trace.

Ltac trace_auto :=
  repeat first
    [ apply extends_ret | apply extends_throw | apply extends_lift
    | apply extends_call | apply extends_if
    | apply extends_bind; [|intros ?]
    | apply extends_try_catch; [|intros ?]
    | apply extends_finally ].

Section TraceOfTheRoute.
Context {W : Type}.
Variable E : Env W.
Variable cfg : option config.

Lemma extends_executeQuery (q : string) : extends (executeQuery E q cfg).
Proof.
  intros st r st' H. unfold executeQuery in H.
  destruct (getDriver E cfg st) as [[u|msg] st1] eqn:Hd;
    destruct (extends_call _ _ _ _ _ Hd) as [l1 H1].
  - assert (Hrest : extends
              (finally
                 (try_catch
                    (bind (run E q) (fun records => ret (result_of_records records)))
                    (fun msg => throw ("Database query failed: " ++ msg)%string))
                 (close_quietly E))).
    { unfold close_quietly, run, close. trace_auto. }
    destruct (Hrest _ _ _ H) as [l2 H2]. exists (l1 ++ l2).
    rewrite H2, H1. symmetry. apply app_assoc.
  - injection H as _ <-. exists l1. exact H1.
Qed.

Lemma extends_execute_with_repair (q : string) : extends (execute_with_repair E cfg q).
Proof.
  unfold execute_with_repair.
  apply extends_bind; [apply extends_executeQuery|]. intros r0.
  apply extends_if; [|apply extends_ret].
  apply extends_bind.
  - apply extends_if; [apply extends_executeQuery | apply extends_ret].
  - intros r2. apply extends_if; [apply extends_executeQuery | apply extends_ret].
Qed.

Lemma extends_execute_step (q : string) : extends (execute_step E cfg q).
Proof.
  unfold execute_step, node_only_recovery.
  apply extends_try_catch.
  - apply extends_bind; [apply extends_execute_with_repair | intros; apply extends_ret].
  - intros msg. apply extends_if; [|apply extends_ret].
    apply extends_try_catch; [|intros; apply extends_ret].
    apply extends_bind; [|intros; apply extends_ret].
    apply extends_bind; [apply extends_executeQuery | intros; apply extends_ret].
Qed.

Lemma extends_executeQuery_value (q : json) : extends (executeQuery_value E q cfg).
Proof.
  intros st r st' H. unfold executeQuery_value in H.
  destruct (getDriver E cfg st) as [[u|msg] st1] eqn:Hd;
    destruct (extends_call _ _ _ _ _ Hd) as [l1 H1].
  - assert (Hrest : extends
              (finally
                 (try_catch
                    (bind (run_value E q) (fun records => ret (result_of_records records)))
                    (fun msg => throw ("Database query failed: " ++ msg)%string))
                 (close_quietly E))).
    { unfold close_quietly, run_value, close. trace_auto. }
    destruct (Hrest _ _ _ H) as [l2 H2]. exists (l1 ++ l2).
    rewrite H2, H1. symmetry. apply app_assoc.
  - injection H as _ <-. exists l1. exact H1.
Qed.

Lemma extends_execute_step_value (items : list json) :
  extends (execute_step_value E cfg items).
Proof.
  unfold execute_step_value.
  apply extends_try_catch; [|intros; apply extends_ret].
  apply extends_bind; [apply extends_executeQuery_value|]. intros r0.
  apply extends_if; [apply extends_throw | apply extends_ret].
Qed.

Lemma extends_table_step (q : string) : extends (table_step E cfg q).
Proof.
  unfold table_step, getDriver, run, close. trace_auto.
Qed.

End TraceOfTheRoute.

(** ** Schema introspection when the database fails *)

Section Outage.
Context {W : Type}.
Variable stringify : nodeProperties_t -> string.
Variable E : Env W.

(** When the label query that [getGraphSchema] sends throws, the outcome is
    decided by the closing of the session: the empty descriptor when it
    succeeds, its error when it throws. *)
Lemma getGraphSchema_label_query_error (cfg : option config) (st : St W)
    (w1 w2 : W) (msg : string) :
  get_driver E cfg (world st) = (Ok tt, w1) ->
  session_run E "CALL db.labels()" w1 = (Throw msg, w2) ->
  getGraphSchema E cfg st
  = (match fst (session_close E w2) with
     | Ok _ => Ok empty_schema
     | Throw cmsg => Throw cmsg
     end,
     MkSt (snd (session_close E w2))
       (trace st ++ [EvDriver cfg; EvRun "CALL db.labels()"; EvClose])).
Proof.
  intros Hd Hq.
  unfold getGraphSchema, try_catch, bind, getDriver, call, ret. rewrite Hd.
  unfold finally, try_catch, bind, run, close, call, lift. cbn [world trace].
  rewrite Hq. cbn [world trace].
  destruct (session_close E w2) as [[[]|cmsg] w3]; cbn [fst snd];
    rewrite <- !app_assoc; reflexivity.
Qed.

(** The same when the query of the relationship types throws. *)
Lemma getGraphSchema_type_query_error (cfg : option config) (st : St W)
    (w1 w2 w3 : W) (labels : list record) (nodeLabels : list string) (msg : string) :
  get_driver E cfg (world st) = (Ok tt, w1) ->
  session_run E "CALL db.labels()" w1 = (Ok labels, w2) ->
  map_exc get0 labels = Ok nodeLabels ->
  session_run E "CALL db.relationshipTypes()" w2 = (Throw msg, w3) ->
  getGraphSchema E cfg st
  = (match fst (session_close E w3) with
     | Ok _ => Ok empty_schema
     | Throw cmsg => Throw cmsg
     end,
     MkSt (snd (session_close E w3))
       (trace st ++ [EvDriver cfg; EvRun "CALL db.labels()";
                     EvRun "CALL db.relationshipTypes()"; EvClose])).
Proof.
  intros Hd Hl Hn Hq.
  unfold getGraphSchema, try_catch, bind, getDriver, call, ret. rewrite Hd.
  unfold finally, try_catch, bind, run, close, call, lift. cbn [world trace].
  rewrite Hl. cbn [world trace]. rewrite Hn. rewrite Hq. cbn [world trace].
  destruct (session_close E w3) as [[[]|cmsg] w4]; cbn [fst snd];
    rewrite <- !app_assoc; reflexivity.
Qed.

Lemma systemPrompt_without_labels (relationshipTypes : list string)
    (np : nodeProperties_t) :
  systemPrompt (MkFullSchema [] relationshipTypes np)
  = Ok (prompt_text [] relationshipTypes).
Proof. reflexivity. Qed.

Lemma synthesize_calls_llm (b : body) (ms : list message) (sc : schema)
    (np : nodeProperties_t) (prompt : string) (st : St W) :
  missing (b_openaiApiKey b) = false ->
  systemPrompt (MkFullSchema (nodeLabels sc) (relationshipTypes sc) np) = Ok prompt ->
  exists key r st',
    synthesize E ms sc np b st = (Ok r, st') /\
    trace st' = trace st ++ [EvLlm (request_for E b key ms prompt)].
Proof.
  intros Hkey Hprompt. unfold missing in Hkey.
  destruct (b_openaiApiKey b) as [key|] eqn:Hb; [|discriminate].
  apply negb_false_iff in Hkey. exists key.
  unfold synthesize, generateCypherQuery, try_catch, bind at 1, bind at 1, lift.
  rewrite Hprompt, Hb.
  replace (present (or_opt (Some key) (env_OPENAI_API_KEY E))) with (Some key)
    by (unfold present, or_opt; rewrite Hkey, Hkey; reflexivity).
  unfold bind, create, call. fold (request_for E b key ms prompt).
  destruct (llm_create E _ (world st)) as [[resp|msg] w1]; simpl.
  - destruct (choices resp) as [[|[text|] rest]|]; simpl;
      try (eexists _, _; split; reflexivity).
    destruct (JsString.truthy text); simpl; eexists _, _; split; reflexivity.
  - eexists _, _. split; reflexivity.
Qed.

(** The second half of C6 holds on every path: when [getGraphSchema]
    returns the empty descriptor, or throws, a turn with all its
    credentials goes on to the LLM call, whose system prompt is the one of
    the empty schema. *)
Lemma empty_schema_reaches_synthesis (b : body) (ms : list message) (w : W) :
  b_messages b = Some ms ->
  missing (b_openaiApiKey b) = false ->
  missing (b_neo4jUri b) = false ->
  missing (b_neo4jUsername b) = false ->
  missing (b_neo4jPassword b) = false ->
  let cfg := Some (MkConfig (b_neo4jUri b) (b_neo4jUsername b) (b_neo4jPassword b)) in
  (fst (getGraphSchema E cfg (MkSt w [])) = Ok empty_schema \/
   exists msg, fst (getGraphSchema E cfg (MkSt w [])) = Throw msg) ->
  exists r st' req,
    exec (POST stringify E (Some b)) w = (r, st') /\
    In (EvLlm req) (trace st') /\
    hd_error (req_messages req) = Some (MkMessage "system" (prompt_text [] [])).
Proof.
  intros Hms Hkey Huri Huser Hpw cfg Hschema.
  unfold exec, POST. rewrite Hms, Hkey, Huri, Huser, Hpw. simpl orb. cbv iota.
  match goal with |- context [try_catch _ ?h] => set (handler := h) end.
  (* the schema step *)
  assert (Hfetch : exists np ms' st2,
             fetch_schema stringify E cfg ms (MkSt w []) = (Ok (empty_schema, np, ms'), st2)).
  { unfold fetch_schema.
    destruct (getGraphSchema E cfg (MkSt w [])) as [[sc|m] st1]; cbn [fst] in Hschema.
    - destruct Hschema as [Hs | [m Hs]]; [|discriminate]. injection Hs as ->.
      destruct (getNodeProperties E cfg st1) as [[np|m] st2]; eexists _, _, _; reflexivity.
    - eexists _, _, _; reflexivity. }
  destruct Hfetch as [np [ms' [st2 Hfetch]]].
  (* the synthesis *)
  destruct (synthesize_calls_llm b ms' empty_schema np (prompt_text [] []) st2 Hkey
              (systemPrompt_without_labels [] np))
    as [key [[q e] [st3 [Hsyn Htrace]]]].
  set (req := request_for E b key ms' (prompt_text [] [])) in *.
  (* whatever follows keeps the call in the trace *)
  assert (Hrest : forall (m : M W response) r st',
             extends m -> m st3 = (r, st') -> In (EvLlm req) (trace st')).
  { intros m r st' Hext Hm. destruct (Hext _ _ _ Hm) as [l Hl].
    rewrite Hl, Htrace. apply in_or_app. left. apply in_or_app. right. left. reflexivity. }
  destruct (try_catch (turn stringify E b ms) handler (MkSt w [])) as [r st'] eqn:Hrun.
  exists r, st', req. split; [reflexivity|]. split; [|reflexivity].
  unfold try_catch, turn, bind at 1 in Hrun. fold cfg in Hrun.
  rewrite Hfetch in Hrun. unfold bind at 1 in Hrun. rewrite Hsyn in Hrun.
  destruct q as [| | |cypherQuery0|items|];
    try (unfold throw, handler, ret in Hrun; injection Hrun as _ <-;
         rewrite Htrace; apply in_or_app; right; left; reflexivity).
  - set (rest := bind (execute_step E cfg (rewrite_wife cypherQuery0)) _) in Hrun.
    assert (Hext : extends (try_catch rest handler)).
    { apply extends_try_catch; [|intros; apply extends_ret].
      unfold rest. apply extends_bind; [apply extends_execute_step|].
      intros [[r0 g]|reply]; [|apply extends_ret].
      apply extends_bind; [apply extends_table_step | intros; apply extends_ret]. }
    apply (Hrest (try_catch rest handler) r st' Hext).
    unfold try_catch. exact Hrun.
  - set (rest := if array_includes items "妻子" then _ else _) in Hrun.
    assert (Hext : extends (try_catch rest handler)).
    { apply extends_try_catch; [|intros; apply extends_ret].
      unfold rest. apply extends_if; [apply extends_throw|].
      apply extends_bind; [apply extends_execute_step_value|].
      intros [[r0 g]|reply]; apply extends_ret. }
    apply (Hrest (try_catch rest handler) r st' Hext).
    unfold try_catch. exact Hrun.
Qed.

End Outage.

(** C6, at a database whose queries throw and whose sessions cannot be
    closed: [getGraphSchema] does not return the empty descriptor, it
    throws the error of [session.close()], which its [finally] block does
    not guard; the one of [executeQuery] does, and returns its result when
    only the closing fails.  The turn still goes on to the LLM call with
    the prompt of the empty schema, because the route catches the error. *)
Theorem C6_failing_close_escapes_getGraphSchema :
  let E := env_closing (fun _ => Throw "connection lost") (Ok "no idea")
             (Throw "socket closed") in
  exec (getGraphSchema E None) tt
  = (Throw "socket closed",
     MkSt tt [EvDriver None; EvRun "CALL db.labels()"; EvClose]) /\
  (exists r0 st',
     exec (executeQuery (env_closing silent_db (Ok "no idea") (Throw "socket closed"))
             "MATCH (n) RETURN n" None) tt
     = (Ok r0, st')) /\
  exists r st' req,
    exec (POST (fun _ => "{}") E (Some (good_body [MkMessage "user" "hi"]))) tt = (r, st') /\
    In (EvLlm req) (trace st') /\
    hd_error (req_messages req) = Some (MkMessage "system" (prompt_text [] [])).
Proof.
  intros E. split; [reflexivity|]. split.
  - eexists _, _. vm_compute. reflexivity.
  - apply (empty_schema_reaches_synthesis (fun _ => "{}"%string) E
             (good_body [MkMessage "user" "hi"]) [MkMessage "user" "hi"] tt);
      try reflexivity.
    right. eexists. reflexivity.
Qed.

(** ** What a match of a regular expression is *)

(** Repetition of a matcher that only hands on rests after a text of [P]
    only hands on rests after a sequence of such texts. *)
Lemma star_loop_sound {R : Type} (greedy : bool)
    (m1 : list ascii -> caps -> (list ascii -> caps -> option R) -> option R)
    (P : list ascii -> Prop) (r1 : re) (k : list ascii -> caps -> option R) :
  (forall p, P p -> lang r1 p) ->
  (forall s c k' y, m1 s c k' = Some y ->
     exists p s' c', s = p ++ s' /\ P p /\ k' s' c' = Some y) ->
  forall n s c x,
    star_loop greedy m1 k n s c = Some x ->
    exists p s' c', s = p ++ s' /\ lang (Star greedy r1) p /\ k s' c' = Some x.
Proof.
  intros HP Hm1. induction n as [|n IHn]; intros s c x H; simpl in H.
  - exists [], s, c. repeat split; [constructor | exact H].
  - assert (Hmore : forall y,
               m1 s c (fun s' c' =>
                         if Nat.ltb (length s') (length s)
                         then star_loop greedy m1 k n s' c' else None) = Some y ->
               exists p s' c', s = p ++ s' /\ lang (Star greedy r1) p /\ k s' c' = Some y).
    { intros y Hy. apply Hm1 in Hy as [p1 [s1 [c1 [-> [Hl1 Hy]]]]].
      destruct (Nat.ltb (length s1) (length (p1 ++ s1))); [|discriminate].
      apply IHn in Hy as [p2 [s2 [c2 [-> [Hl2 Hy]]]]].
      exists (p1 ++ p2), s2, c2. split; [apply app_assoc|].
      split; [apply L_star_cons; [apply HP; exact Hl1 | exact Hl2] | exact Hy]. }
    destruct greedy.
    + match type of H with
      | match ?m with _ => _ end = _ => destruct m as [y|] eqn:Hm
      end.
      * injection H as ->. apply Hmore. reflexivity.
      * exists [], s, c. repeat split; [constructor | exact H].
    + destruct (k s c) as [y|] eqn:Hk.
      * injection H as ->. exists [], s, c. repeat split; [constructor | exact Hk].
      * apply Hmore. exact H.
Qed.

Lemma wide_space_prefix (s rest : list ascii) :
  wide_space s = Some rest -> exists p, s = p ++ rest.
Proof.
  unfold wide_space. destruct s as [|a [|b l2]]; try discriminate.
  destruct (wide_space_bytes _ _ None).
  - intros H. injection H as <-. exists [a; b]. reflexivity.
  - destruct l2 as [|c l3]; [discriminate|].
    destruct (wide_space_bytes _ _ (Some _)); [|discriminate].
    intros H. injection H as <-. exists [a; b; c]. reflexivity.
Qed.

Lemma cls_step_prefix (negated : bool) (items : list citem) (s s' : list ascii) :
  cls_step negated items s = Some s' -> exists p, s = p ++ s'.
Proof.
  unfold cls_step. destruct s as [|a s0]; [discriminate|].
  destruct (if has_space items then wide_space (a :: s0) else None) as [rest|] eqn:Hw.
  - destruct negated; [discriminate|]. intros H. injection H as <-.
    destruct (has_space items); [|discriminate].
    apply wide_space_prefix. exact Hw.
  - destruct (cls_matches negated items a); [|discriminate].
    intros H. injection H as <-. exists [a]. reflexivity.
Qed.

(** A class that does not name [\s] reads one byte. *)
Lemma cls_step_plain (negated : bool) (items : list citem) (a : ascii) (s : list ascii) :
  has_space items = false ->
  cls_step negated items (a :: s) = if cls_matches negated items a then Some s else None.
Proof.
  intros H. unfold cls_step. rewrite H. reflexivity.
Qed.

Lemma cls_step_plain_inv (negated : bool) (items : list citem) (p rest : list ascii) :
  has_space items = false ->
  cls_step negated items (p ++ rest) = Some rest ->
  exists a, p = [a] /\ cls_matches negated items a = true.
Proof.
  intros Hs H. destruct p as [|a p].
  - destruct rest as [|a rest]; [discriminate|].
    cbn [app] in H. rewrite (cls_step_plain _ _ _ _ Hs) in H.
    destruct (cls_matches negated items a); [|discriminate].
    injection H as H. apply (f_equal (@length ascii)) in H. cbn in H. lia.
  - cbn [app] in H. rewrite (cls_step_plain _ _ _ _ Hs) in H.
    destruct (cls_matches negated items a) eqn:Hc; [|discriminate].
    injection H as H. exists a. split; [|exact Hc].
    assert (Hp : p = []).
    { apply (app_inv_tail rest). exact H. }
    rewrite Hp. reflexivity.
Qed.

(** Whatever the matcher hands to its continuation is the rest of the
    input after a text of the expression. *)
Lemma rmatch_sound {R : Type} (r : re) :
  forall (s : list ascii) (c : caps) (k : list ascii -> caps -> option R) (x : R),
    rmatch r s c k = Some x ->
    exists p s' c', s = p ++ s' /\ lang r p /\ k s' c' = Some x.
Proof.
  induction r as [|negated items|r1 IH1 r2 IH2|r1 IH1|greedy r1 IH1|i r1 IH1];
    intros s c k x H; simpl in H.
  - exists [], s, c. repeat split; [constructor | exact H].
  - destruct (cls_step negated items s) as [s'|] eqn:Hc; [|discriminate].
    destruct (cls_step_prefix _ _ _ _ Hc) as [p ->].
    exists p, s', c. repeat split; [econstructor; exact Hc | exact H].
  - apply IH1 in H as [p1 [s1 [c1 [-> [Hl1 H]]]]].
    apply IH2 in H as [p2 [s2 [c2 [-> [Hl2 H]]]]].
    exists (p1 ++ p2), s2, c2. split; [apply app_assoc|].
    split; [constructor; assumption | exact H].
  - destruct (rmatch r1 s c k) as [y|] eqn:Hm.
    + injection H as ->. apply IH1 in Hm as [p [s' [c' [-> [Hl Hk]]]]].
      exists p, s', c'. repeat split; [apply L_opt_some; exact Hl | exact Hk].
    + exists [], s, c. repeat split; [apply L_opt_none | exact H].
  - refine (star_loop_sound greedy _ (lang r1) r1 k (fun _ Hp => Hp) _ (length s) s c x H).
    intros s0 c0 k0 y Hy. exact (IH1 _ _ _ _ Hy).
  - apply IH1 in H as [p [s' [c' [-> [Hl H]]]]].
    eexists p, s', _. repeat split; [constructor; exact Hl | exact H].
Qed.

Lemma match_here_sound (r : re) (s m rest : list ascii) (c : caps) :
  match_here r s = Some (m, c, rest) -> s = m ++ rest /\ lang r m.
Proof.
  unfold match_here. intros H.
  apply rmatch_sound in H as [p [s' [c' [-> [Hl H]]]]].
  injection H as <- _ <-.
  rewrite length_app. replace (length p + length s' - length s') with (length p) by lia.
  rewrite take_app_length. split; [reflexivity | exact Hl].
Qed.

Lemma search_from_sound (r : re) (s : list ascii) :
  forall pre m,
    search_from r pre s = Some m ->
    rev pre ++ s = m_before m ++ m_text m ++ m_after m /\ lang r (m_text m).
Proof.
  induction s as [|a s IH]; intros pre m H; simpl in H.
  - destruct (match_here r []) as [[[t c] rest]|] eqn:Hm; [|discriminate].
    injection H as <-. simpl. apply match_here_sound in Hm as [-> Hl].
    split; [reflexivity | exact Hl].
  - destruct (match_here r (a :: s)) as [[[t c] rest]|] eqn:Hm.
    + injection H as <-. simpl. apply match_here_sound in Hm as [-> Hl].
      split; [reflexivity | exact Hl].
    + apply IH in H as [Heq Hl]. split; [|exact Hl].
      rewrite <- Heq. simpl. rewrite <- app_assoc. reflexivity.
Qed.

Lemma search_sound (r : re) (s : list ascii) (m : match_result) :
  search r s = Some m ->
  s = m_before m ++ m_text m ++ m_after m /\ lang r (m_text m).
Proof.
  intros H. apply search_from_sound in H. exact H.
Qed.

(** ** Texts that contain a literal *)

Lemma ascii_eqb_refl (a : ascii) : ascii_eqb a a = true.
Proof. apply Ascii.eqb_refl. Qed.

Lemma starts_with_app (p b : list ascii) : starts_with p (p ++ b) = true.
Proof.
  induction p as [|a p IH]; simpl; [reflexivity|].
  rewrite ascii_eqb_refl. exact IH.
Qed.

Lemma includes_chars_mid (a p b : list ascii) : includes_chars (a ++ p ++ b) p = true.
Proof.
  induction a as [|x a IH]; simpl.
  - destruct (p ++ b) eqn:Hpb; simpl; rewrite <- Hpb, starts_with_app; reflexivity.
  - rewrite IH. apply orb_true_r.
Qed.

Lemma lang_Chr (c : ascii) (p : list ascii) : lang (Chr c) p -> p = [c].
Proof.
  intros H. inversion H as [|negated items p0 rest Hc| | | | | |]; subst.
  apply cls_step_plain_inv in Hc as [a [-> Hc]]; [|reflexivity].
  unfold cls_matches in Hc. simpl in Hc. rewrite orb_false_r in Hc.
  apply Ascii.eqb_eq in Hc. subst. reflexivity.
Qed.

Lemma lang_Lit_chars (l p : list ascii) : lang (Lit_chars l) p -> p = l.
Proof.
  revert p. induction l as [|c l IH]; intros p H; simpl in H.
  - inversion H. reflexivity.
  - inversion H as [| |r1 r2 p1 p2 H1 H2| | | | |]; subst.
    apply lang_Chr in H1. apply IH in H2. subst. reflexivity.
Qed.

Lemma lang_Seq (r1 r2 : re) (p : list ascii) :
  lang (Seq r1 r2) p -> exists p1 p2, p = p1 ++ p2 /\ lang r1 p1 /\ lang r2 p2.
Proof.
  intros H. inversion H as [| |r1' r2' p1 p2 H1 H2| | | | |]; subst.
  exists p1, p2. repeat split; assumption.
Qed.

(** A match of the 妻子 pattern contains the directed arrow of the label. *)
Lemma wife_match_has_arrow (t : list ascii) :
  lang wife_re t -> exists a b, t = a ++ chars "-[:妻子]->" ++ b.
Proof.
  unfold wife_re. simpl seqs. intros H.
  apply lang_Seq in H as [p1 [t1 [-> [_ H]]]].
  apply lang_Seq in H as [p2 [t2 [-> [_ H]]]].
  apply lang_Seq in H as [p3 [t3 [-> [H3 _]]]].
  apply lang_Lit_chars in H3. subst p3.
  exists (p1 ++ p2 ++ chars ")"), (chars "(" ++ t3).
  rewrite <- !app_assoc. reflexivity.
Qed.

(** A match of the pattern of the retries contains an arrow head. *)
Lemma directed_match_has_arrow (t : list ascii) :
  lang directed_re t -> exists a b, t = a ++ chars "->" ++ b.
Proof.
  unfold directed_re. simpl seqs. intros H.
  apply lang_Seq in H as [p1 [t1 [-> [_ H]]]].
  apply lang_Seq in H as [p2 [t2 [-> [_ H]]]].
  apply lang_Seq in H as [p3 [t3 [-> [_ H]]]].
  apply lang_Seq in H as [p4 [t4 [-> [_ H]]]].
  apply lang_Seq in H as [p5 [t5 [-> [H5 _]]]].
  apply lang_Lit_chars in H5. subst p5.
  exists (p1 ++ p2 ++ p3 ++ p4 ++ chars "]"), (chars "(" ++ t5).
  rewrite <- !app_assoc. reflexivity.
Qed.

Lemma str_chars (s : string) : str (chars s) = s.
Proof. apply string_of_list_ascii_of_string. Qed.

(** A replacement without match returns the text as it is. *)
Lemma replace_all_no_match (r : re) (t : list tpiece) (s : string) :
  js_match r s = None -> replace_all r t s = s.
Proof.
  unfold js_match, replace_all. intros H. simpl. rewrite H. apply str_chars.
Qed.

Lemma match_includes (r : re) (s lit : string) (m : match_result) :
  (forall t, lang r t -> exists a b, t = a ++ chars lit ++ b) ->
  js_match r s = Some m -> includes s lit = true.
Proof.
  intros Hlit H. unfold js_match in H. apply search_sound in H as [Heq Hl].
  destruct (Hlit _ Hl) as [a [b Ht]]. unfold includes. rewrite Heq, Ht.
  replace (m_before m ++ (a ++ chars lit ++ b) ++ m_after m)
    with ((m_before m ++ a) ++ chars lit ++ (b ++ m_after m))
    by (rewrite <- !app_assoc; reflexivity).
  apply includes_chars_mid.
Qed.

(** ** The rewrite of the label 妻子 *)

(** A query without directed arrow of the label is left as it is. *)
Lemma rewrite_wife_undirected (q : string) :
  includes q "-[:妻子]->" = false -> rewrite_wife q = q.
Proof.
  intros H. unfold rewrite_wife. destruct (includes q "妻子"); [|reflexivity].
  destruct (js_match wife_re q) as [m|] eqn:Hm.
  - rewrite (match_includes wife_re q "-[:妻子]->" m wife_match_has_arrow Hm) in H.
    discriminate.
  - apply replace_all_no_match. exact Hm.
Qed.

Lemma rewrite_wife_example :
  rewrite_wife "MATCH (a)-[:妻子]->(b) RETURN a,b" = "MATCH (a)-[:妻子]-(b) RETURN a,b".
Proof. vm_compute. reflexivity. Qed.

(** C8, at a chain of two directed patterns that share the node b: the
    first pass rewrites the first pattern only, because the second begins
    inside the text already matched; a second pass rewrites the other one.
    Applying the rewrite twice is not applying it once. *)
Theorem C8_rewrite_wife_chain_needs_two_passes :
  rewrite_wife chained_query = "MATCH (a)-[:妻子]-(b)-[:妻子]->(c) RETURN a,c" /\
  rewrite_wife (rewrite_wife chained_query)
  = "MATCH (a)-[:妻子]-(b)-[:妻子]-(c) RETURN a,c" /\
  rewrite_wife (rewrite_wife chained_query) <> rewrite_wife chained_query.
Proof.
  vm_compute. repeat split. intros H. discriminate H.
Qed.

(** ** The retries of the repair engine *)

Lemma runs_app (a b : list event) : runs (a ++ b) = runs a ++ runs b.
Proof. apply flat_map_app. Qed.

Lemma reversedQuery_example :
  reversedQuery "MATCH (a)-[:KNOWS]->(b) RETURN a,b" = "MATCH (b)-[:KNOWS]->(a) RETURN a,b".
Proof. vm_compute. reflexivity. Qed.

Lemma undirectedQuery_example :
  undirectedQuery "MATCH (a)-[:KNOWS]->(b) RETURN a,b" = "MATCH (a)-[:KNOWS]-(b) RETURN a,b".
Proof. vm_compute. reflexivity. Qed.

(** The test on the arrow head lets through every query that the pattern
    of the retries matches. *)
Lemma directed_match_passes_gate (q : string) (m : match_result) :
  js_match directed_re q = Some m -> includes q "->" = true.
Proof.
  apply match_includes. exact directed_match_has_arrow.
Qed.

(** A query that the pattern does not match is retried as it is. *)
Lemma retries_without_match (q : string) :
  js_match directed_re q = None -> reversedQuery q = q /\ undirectedQuery q = q.
Proof.
  intros H. split; apply replace_all_no_match; exact H.
Qed.

(** ** The retries on a query with one pattern of the matched shape *)

Lemma not_paren_matches (a : ascii) :
  a <> ")"%char -> cls_matches true [CChar ")"] a = true.
Proof.
  intros H. unfold cls_matches. cbn [existsb citem_matches]. rewrite orb_false_r.
  destruct (ascii_eqb ")" a) eqn:He; [|reflexivity].
  unfold ascii_eqb in He. apply Ascii.eqb_eq in He. congruence.
Qed.

Lemma not_paren_stops {R : Type} (rest : list ascii) (c : caps)
    (k : list ascii -> caps -> option R) :
  stops rest -> rmatch not_paren rest c k = None.
Proof.
  intros [-> | [r ->]]; reflexivity.
Qed.

Lemma star_run {R : Type} (k : list ascii -> caps -> option R)
    (rest : list ascii) (c : caps) :
  stops rest ->
  forall u n,
    length u <= n -> no_paren u ->
    star_loop true (fun s' c' k' => rmatch not_paren s' c' k') k n (u ++ rest) c
    = try_back k u rest c.
Proof.
  intros Hstop. induction u as [|a u IH]; intros n Hn Hu.
  - cbn [app try_back]. destruct n as [|n]; cbn [star_loop]; [reflexivity|].
    rewrite (not_paren_stops rest c _ Hstop). reflexivity.
  - destruct n as [|n]; [simpl in Hn; lia|].
    inversion Hu as [|a' u' Ha Hu']; subst.
    cbn [star_loop app]. cbn [rmatch not_paren]. rewrite ?cls_step_plain by reflexivity.
    rewrite (not_paren_matches a Ha).
    replace (Nat.ltb (length (u ++ rest)) (length (a :: u ++ rest))) with true
      by (symmetry; apply Nat.ltb_lt; simpl; lia).
    rewrite IH by (simpl in Hn; try lia; assumption). reflexivity.
Qed.

Lemma take_app_diff (u r : list ascii) : take (length (u ++ r) - length r) (u ++ r) = u.
Proof.
  rewrite length_app. replace (length u + length r - length r) with (length u) by lia.
  apply take_app_length.
Qed.

(** A capture group over a run, at the start of a run [a :: u]. *)
Lemma grp_run {R : Type} (i : nat) (a : ascii) (u rest : list ascii) (c : caps)
    (k : list ascii -> caps -> option R) :
  no_paren (a :: u) -> stops rest ->
  rmatch (Grp i (Plus not_paren)) (a :: u ++ rest) c k
  = try_back
      (fun s' c' =>
         k s' ((i, take (length (a :: u ++ rest) - length s') (a :: u ++ rest)) :: c'))
      u rest c.
Proof.
  intros Hu Hstop. inversion Hu as [|a' u' Ha Hu']; subst.
  cbn [rmatch Plus not_paren]. rewrite ?cls_step_plain by reflexivity. rewrite (not_paren_matches a Ha).
  apply (star_run _ rest c Hstop u (length (u ++ rest))); [|assumption].
  rewrite length_app. lia.
Qed.

Lemma try_back_longest {R : Type} (k : list ascii -> caps -> option R)
    (u rest : list ascii) (c : caps) (x : R) :
  k rest c = Some x -> try_back k u rest c = Some x.
Proof.
  intros H. induction u as [|a u IH]; simpl; [exact H|]. rewrite IH. reflexivity.
Qed.

Lemma try_back_all_fail {R : Type} (k : list ascii -> caps -> option R)
    (rest : list ascii) (c : caps) :
  forall w,
    (forall w1 w2, w = w1 ++ w2 -> k (w2 ++ rest) c = None) ->
    try_back k w rest c = None.
Proof.
  induction w as [|a w IH]; intros H; simpl.
  - apply (H [] []). reflexivity.
  - rewrite IH.
    + apply (H [] (a :: w)). reflexivity.
    + intros w1 w2 ->. apply (H (a :: w1) w2). reflexivity.
Qed.

(** The run backtracks to the first split, from the longest, whose rest
    the continuation accepts. *)
Lemma try_back_first {R : Type} (k : list ascii -> caps -> option R)
    (rest : list ascii) (c : caps) (x : R) (w : list ascii) :
  (forall w1 w2, w = w1 ++ w2 -> w1 <> [] -> k (w2 ++ rest) c = None) ->
  k (w ++ rest) c = Some x ->
  forall v, try_back k (v ++ w) rest c = Some x.
Proof.
  intros Hfail Hok. induction v as [|a v IH]; simpl.
  - destruct w as [|b w]; simpl; [exact Hok|].
    rewrite try_back_all_fail; [exact Hok|].
    intros w1 w2 ->. apply (Hfail (b :: w1) w2); [reflexivity | discriminate].
  - rewrite IH. reflexivity.
Qed.

Lemma rmatch_Seq {R : Type} (r1 r2 : re) (s : list ascii) (c : caps)
    (k : list ascii -> caps -> option R) :
  rmatch (Seq r1 r2) s c k = rmatch r1 s c (fun s' c' => rmatch r2 s' c' k).
Proof. reflexivity. Qed.

Lemma rmatch_Chr {R : Type} (a : ascii) (s : list ascii) (c : caps)
    (k : list ascii -> caps -> option R) :
  rmatch (Chr a) (a :: s) c k = k s c.
Proof.
  cbn [rmatch Chr]. rewrite ?cls_step_plain by reflexivity. unfold cls_matches. cbn [existsb citem_matches].
  rewrite ascii_eqb_refl. reflexivity.
Qed.

Lemma rmatch_Lit_chars {R : Type} (l s : list ascii) (c : caps)
    (k : list ascii -> caps -> option R) :
  rmatch (Lit_chars l) (l ++ s) c k = k s c.
Proof.
  induction l as [|a l IH]; [reflexivity|].
  cbn [Lit_chars app]. cbn [rmatch]. fold (Chr a).
  change (rmatch (Chr a) (a :: l ++ s) c (fun s' c' => rmatch (Lit_chars l) s' c' k)
          = k s c).
  rewrite rmatch_Chr. exact IH.
Qed.

(** The continuation of the second group needs a closing bracket first. *)
Lemma bracket_needed {R : Type} (r : re) (s : list ascii) (c : caps)
    (k : list ascii -> caps -> option R) :
  match s with [] => True | h :: _ => h <> "]"%char end ->
  rmatch (Seq (Lit "]->(") r) s c k = None.
Proof.
  destruct s as [|h s]; intros H; [reflexivity|].
  cbn [rmatch Lit chars list_ascii_of_string Lit_chars Chr]. rewrite ?cls_step_plain by reflexivity.
  unfold cls_matches. cbn [existsb citem_matches]. rewrite orb_false_r.
  destruct (ascii_eqb "]" h) eqn:He; [|reflexivity].
  unfold ascii_eqb in He. apply Ascii.eqb_eq in He. congruence.
Qed.

Section OnePattern.
Variables x t y post : list ascii.
Variables x0 t0 y0 : ascii.
Hypothesis Hx : no_paren (x0 :: x).
Hypothesis Ht : no_paren (t0 :: t).
Hypothesis Hy : no_paren (y0 :: y).
Hypothesis Hyb : no_bracket (y0 :: y).

Lemma directed_rmatch {R : Type} (k : list ascii -> caps -> option R) (res : R) :
  k post (pattern_caps (x0 :: x) (t0 :: t) (y0 :: y)) = Some res ->
  rmatch directed_re (pattern_input (x0 :: x) (t0 :: t) (y0 :: y) post) [] k = Some res.
Proof.
  intros Hk. unfold pattern_input, directed_re. cbn [seqs].
  set (X := x0 :: x). set (T := t0 :: t). set (Y := y0 :: y).
  (* the opening parenthesis *)
  set (R1 := chars ")-[:" ++ T ++ chars "]->(" ++ Y ++ chars ")" ++ post).
  change (chars "(" ++ X ++ R1) with ("("%char :: x0 :: x ++ R1).
  rewrite rmatch_Seq, rmatch_Chr.
  (* the first group takes all of X *)
  rewrite rmatch_Seq.
  rewrite (grp_run 1 x0 x R1 [] _ Hx) by (right; eexists; reflexivity).
  apply try_back_longest.
  change (x0 :: x ++ R1) with (X ++ R1). rewrite take_app_diff.
  unfold R1. rewrite rmatch_Seq. unfold Lit at 1. rewrite rmatch_Lit_chars.
  (* the second group backtracks to T *)
  set (R3 := chars ")" ++ post).
  replace (T ++ chars "]->(" ++ Y ++ R3) with (t0 :: (t ++ chars "]->(" ++ Y) ++ R3)
    by (unfold T; cbn [app]; rewrite <- !app_assoc; reflexivity).
  assert (Hrun : no_paren (t0 :: t ++ chars "]->(" ++ Y)).
  { unfold no_paren. rewrite app_comm_cons. apply Forall_app. split; [exact Ht|].
    apply Forall_app. split; [|exact Hy].
    repeat constructor; discriminate. }
  rewrite rmatch_Seq.
  rewrite (grp_run 2 t0 (t ++ chars "]->(" ++ Y) R3 _ _ Hrun)
    by (right; eexists; reflexivity).
  apply (try_back_first _ R3 _ res (chars "]->(" ++ Y)).
  { intros w1 w2 Hw Hw1. apply bracket_needed.
    destruct w1 as [|h w1]; [contradiction|].
    cbn [chars list_ascii_of_string app] in Hw. injection Hw as _ Hw.
    assert (Hnb : no_bracket (w1 ++ w2)).
    { rewrite <- Hw. repeat (constructor; [discriminate|]). exact Hyb. }
    apply Forall_app in Hnb as [_ Hnb].
    destruct w2 as [|h2 w2]; [discriminate|].
    inversion Hnb; assumption. }
  replace (t0 :: (t ++ chars "]->(" ++ Y) ++ R3) with (T ++ (chars "]->(" ++ Y) ++ R3)
    by (unfold T; cbn [app]; rewrite <- !app_assoc; reflexivity).
  rewrite take_app_diff. rewrite <- app_assoc.
  rewrite rmatch_Seq. unfold Lit at 1. rewrite rmatch_Lit_chars.
  (* the third group takes all of Y, then the closing parenthesis *)
  change (Y ++ R3) with (y0 :: y ++ R3).
  rewrite rmatch_Seq.
  rewrite (grp_run 3 y0 y R3 _ _ Hy) by (right; eexists; reflexivity).
  apply try_back_longest.
  change (y0 :: y ++ R3) with (Y ++ R3). rewrite take_app_diff.
  unfold R3. change (chars ")" ++ post) with (")"%char :: post).
  rewrite rmatch_Chr. exact Hk.
Qed.

End OnePattern.

Lemma paren_needed (s : list ascii) :
  match s with [] => True | h :: _ => h <> "("%char end ->
  match_here directed_re s = None.
Proof.
  destruct s as [|h s]; intros H; [reflexivity|].
  unfold match_here, directed_re. cbn [seqs]. rewrite rmatch_Seq.
  cbn [rmatch Chr]. rewrite ?cls_step_plain by reflexivity. unfold cls_matches. cbn [existsb citem_matches].
  rewrite orb_false_r.
  destruct (ascii_eqb "(" h) eqn:He; [|reflexivity].
  unfold ascii_eqb in He. apply Ascii.eqb_eq in He. congruence.
Qed.

(** The search skips a prefix without opening parenthesis. *)
Lemma search_skip (pre s m rest : list ascii) (c : caps) :
  Forall (fun a => a <> "("%char) pre ->
  match_here directed_re s = Some (m, c, rest) ->
  forall acc,
    search_from directed_re acc (pre ++ s) = Some (MkMatch (rev acc ++ pre) m c rest).
Proof.
  intros Hpre Hm. induction Hpre as [|h pre Hh _ IH]; intros acc.
  - rewrite app_nil_r. cbn [app]. destruct s; cbn [search_from]; rewrite Hm; reflexivity.
  - cbn [app search_from]. rewrite (paren_needed (h :: pre ++ s) Hh).
    rewrite IH. cbn [rev]. rewrite <- app_assoc. reflexivity.
Qed.

Lemma replace_all_chars_no_match (r : re) (tp : list tpiece) (s : list ascii) (fuel : nat) :
  search r s = None -> replace_all_chars fuel r tp s = s.
Proof.
  intros H. destruct fuel; simpl; [reflexivity|]. rewrite H. reflexivity.
Qed.

Section OnePatternReplaced.
Variables pre x t y post : list ascii.
Variables x0 t0 y0 : ascii.
Hypothesis Hpre : Forall (fun a => a <> "("%char) pre.
Hypothesis Hx : no_paren (x0 :: x).
Hypothesis Ht : no_paren (t0 :: t).
Hypothesis Hy : no_paren (y0 :: y).
Hypothesis Hyb : no_bracket (y0 :: y).
Hypothesis Hpost : search directed_re post = None.

Lemma replace_one_pattern (tp : list tpiece) (fuel : nat) :
  replace_all_chars (S fuel) directed_re tp
    (pre ++ pattern_input (x0 :: x) (t0 :: t) (y0 :: y) post)
  = pre ++ expand tp (pattern_caps (x0 :: x) (t0 :: t) (y0 :: y)) ++ post.
Proof.
  set (text := chars "(" ++ (x0 :: x) ++ chars ")-[:" ++ (t0 :: t) ++ chars "]->("
               ++ (y0 :: y) ++ chars ")").
  assert (Hin : pattern_input (x0 :: x) (t0 :: t) (y0 :: y) post = text ++ post).
  { unfold pattern_input, text. rewrite <- !app_assoc. reflexivity. }
  assert (Hm : match_here directed_re (pattern_input (x0 :: x) (t0 :: t) (y0 :: y) post)
               = Some (text, pattern_caps (x0 :: x) (t0 :: t) (y0 :: y), post)).
  { unfold match_here. apply (directed_rmatch x t y post x0 t0 y0 Hx Ht Hy Hyb).
    rewrite Hin, take_app_diff. reflexivity. }
  cbn [replace_all_chars]. unfold search.
  rewrite (search_skip pre _ _ _ _ Hpre Hm []).
  cbn [m_before m_caps m_text m_after rev app].
  unfold text at 1. cbn [chars list_ascii_of_string app].
  rewrite (replace_all_chars_no_match _ _ _ _ Hpost). reflexivity.
Qed.

End OnePatternReplaced.

Lemma chars_app (a b : string) : chars (a ++ b)%string = chars a ++ chars b.
Proof.
  unfold chars. induction a as [|h a IH]; [reflexivity|].
  change (list_ascii_of_string (String h a ++ b)%string)
    with (h :: list_ascii_of_string (a ++ b)%string).
  rewrite IH. reflexivity.
Qed.

Lemma str_app (a b : list ascii) : str (a ++ b) = (str a ++ str b)%string.
Proof.
  unfold str. induction a as [|h a IH]; simpl; [reflexivity|].
  rewrite IH. reflexivity.
Qed.

Lemma append_assoc (a b c : string) : ((a ++ b) ++ c = a ++ (b ++ c))%string.
Proof.
  induction a as [|h a IH]; [reflexivity|].
  change (String h ((a ++ b) ++ c) = String h (a ++ (b ++ c)))%string.
  f_equal. exact IH.
Qed.

Lemma lacks_Forall (c : ascii) (s : string) :
  lacks c s = true -> Forall (fun a => a <> c) (chars s).
Proof.
  unfold lacks. rewrite forallb_forall, List.Forall_forall.
  intros H a Ha Heq. specialize (H a Ha). subst a.
  rewrite ascii_eqb_refl in H. discriminate.
Qed.

(** X15: on a query with one pattern of the shape node, typed relationship
    without variable, arrow, node: the first retry has the two nodes
    exchanged and the second has the arrow head removed. *)
Lemma retries_on_one_pattern (pre x t y post : string) :
  lacks "(" pre = true ->
  x <> EmptyString -> t <> EmptyString -> y <> EmptyString ->
  lacks ")" x = true -> lacks ")" t = true -> lacks ")" y = true ->
  lacks "]" y = true ->
  js_match directed_re post = None ->
  let q := (pre ++ "(" ++ x ++ ")-[:" ++ t ++ "]->(" ++ y ++ ")" ++ post)%string in
  reversedQuery q = (pre ++ "(" ++ y ++ ")-[:" ++ t ++ "]->(" ++ x ++ ")" ++ post)%string /\
  undirectedQuery q = (pre ++ "(" ++ x ++ ")-[:" ++ t ++ "]-(" ++ y ++ ")" ++ post)%string.
Proof.
  intros Hpre Hx0 Ht0 Hy0 Hx Ht Hy Hyb Hpost q.
  destruct x as [|x0 x]; [contradiction|].
  destruct t as [|t0 t]; [contradiction|].
  destruct y as [|y0 y]; [contradiction|].
  apply lacks_Forall in Hpre, Hx, Ht, Hy, Hyb.
  assert (Hq : chars q
               = chars pre ++ pattern_input (x0 :: chars x) (t0 :: chars t) (y0 :: chars y)
                               (chars post)).
  { unfold q, pattern_input. rewrite !chars_app. reflexivity. }
  unfold reversedQuery, undirectedQuery, replace_all. rewrite Hq.
  rewrite !(replace_one_pattern (chars pre) (chars x) (chars t) (chars y) (chars post)
              x0 t0 y0 Hpre Hx Ht Hy Hyb Hpost).
  unfold expand, pattern_caps.
  cbn [map expand_piece cap_get Nat.eqb default from_option id concat].
  rewrite !app_nil_r, <- !app_assoc.
  change (x0 :: chars x) with (chars (String x0 x)).
  change (t0 :: chars t) with (chars (String t0 t)).
  change (y0 :: chars y) with (chars (String y0 y)).
  rewrite !str_app, !str_chars. split; reflexivity.
Qed.

(** ** The order of the retries *)

Section Repair.
Context {W : Type}.
Variable E : Env W.
Variable cfg : option config.

(** One execution sends its query at most once, and exactly once when it
    returns a result. *)
Lemma executeQuery_runs (q : string) (st st' : St W) (r : Exc Neo4jResult) :
  executeQuery E q cfg st = (r, st') ->
  exists l, runs (trace st') = runs (trace st) ++ l /\
            (l = [] \/ l = [q]) /\
            (forall x, r = Ok x -> l = [q]).
Proof.
  unfold executeQuery, getDriver, call. intros H.
  destruct (get_driver E cfg (world st)) as [[[]|msg] w1].
  - unfold finally, try_catch, bind, run, close_quietly, try_catch, close, call in H.
    simpl in H.
    destruct (session_run E q w1) as [[records|msg] w2]; simpl in H;
      destruct (session_close E w2) as [[[]|msg'] w3]; simpl in H;
      injection H as <- <-; simpl; exists [q];
      (split; [rewrite !runs_app; simpl; rewrite ?app_nil_r, <- ?app_assoc; reflexivity
              | split; [right; reflexivity | intros; reflexivity]]).
  - injection H as <- <-. exists []. simpl. rewrite runs_app. simpl.
    split; [reflexivity|]. split; [left; reflexivity | intros x Hx; discriminate].
Qed.

(** The order of the retries in the [try] block of lines 298 to 341.  For
    a query whose text contains an arrow head, when the direct execution
    returns no node: the text given by the reversal is executed next, in
    the state left by the direct execution; when it returns nodes or
    throws, that is the outcome of the block; when it returns no node, the
    text given by the removal of the direction is executed in the state
    left by the reversed one, and its outcome is the outcome.  The block
    sends the direct query, then at most the first rewrite, then at most
    the second.  (When the block throws, the [catch] block of the step may
    send the node-only query: [recovery_after_failed_retry].) *)
Lemma repair_retries_in_order (q : string) (st st1 : St W) (r0 : Neo4jResult) :
  includes q "->" = true ->
  executeQuery E q cfg st = (Ok r0, st1) ->
  nodes_of r0 = [] ->
  match executeQuery E (reversedQuery q) cfg st1 with
  | (Throw msg, st2) => execute_with_repair E cfg q st = (Throw msg, st2)
  | (Ok r2, st2) =>
      match nodes_of r2 with
      | _ :: _ => execute_with_repair E cfg q st = (Ok r2, st2)
      | [] =>
          execute_with_repair E cfg q st
          = executeQuery E (undirectedQuery q) cfg st2
      end
  end /\
  forall r st',
    execute_with_repair E cfg q st = (r, st') ->
    exists l,
      runs (trace st') = runs (trace st) ++ q :: l /\
      (l = [] \/ l = [reversedQuery q] \/ l = [reversedQuery q; undirectedQuery q]).
Proof.
  intros Hgate Hdirect Hnone.
  assert (Hstep : execute_with_repair E cfg q st
                  = match executeQuery E (reversedQuery q) cfg st1 with
                    | (Throw msg, st2) => (Throw msg, st2)
                    | (Ok r2, st2) =>
                        if is_nil (nodes_of r2)
                        then executeQuery E (undirectedQuery q) cfg st2
                        else (Ok r2, st2)
                    end).
  { unfold execute_with_repair, bind at 1. rewrite Hdirect.
    replace (nodes_of (fix_relationships r0)) with (nodes_of r0) by reflexivity.
    rewrite Hnone, Hgate. cbn [is_nil]. unfold bind.
    destruct (executeQuery E (reversedQuery q) cfg st1) as [[r2|msg] st2];
      [|reflexivity].
    rewrite andb_true_r. destruct (is_nil (nodes_of r2)); reflexivity. }
  destruct (executeQuery_runs _ _ _ _ Hdirect) as [l0 [Hl0 [_ Hq]]].
  rewrite (Hq r0 eq_refl) in Hl0. clear Hq.
  split.
  - rewrite Hstep.
    destruct (executeQuery E (reversedQuery q) cfg st1) as [[r2|msg] st2];
      [|reflexivity].
    destruct (nodes_of r2); reflexivity.
  - intros r st' Hrun. rewrite Hstep in Hrun.
    destruct (executeQuery E (reversedQuery q) cfg st1) as [[r2|msg] st2] eqn:Hrev;
      destruct (executeQuery_runs _ _ _ _ Hrev) as [l1 [Hl1 [Hcases1 Hok1]]].
    + rewrite (Hok1 r2 eq_refl) in Hl1.
      destruct (is_nil (nodes_of r2)).
      * destruct (executeQuery_runs _ _ _ _ Hrun) as [l2 [Hl2 [[-> | ->] _]]].
        -- exists [reversedQuery q]. rewrite Hl2, Hl1, Hl0, app_nil_r, <- app_assoc.
           split; [reflexivity | right; left; reflexivity].
        -- exists [reversedQuery q; undirectedQuery q].
           rewrite Hl2, Hl1, Hl0, <- !app_assoc.
           split; [reflexivity | right; right; reflexivity].
      * injection Hrun as _ <-. exists [reversedQuery q]. rewrite Hl1, Hl0, <- app_assoc.
        split; [reflexivity | right; left; reflexivity].
    + injection Hrun as _ <-. destruct Hcases1 as [-> | ->].
      * exists []. rewrite Hl1, Hl0, app_nil_r. split; [reflexivity | left; reflexivity].
      * exists [reversedQuery q]. rewrite Hl1, Hl0, <- app_assoc.
        split; [reflexivity | right; left; reflexivity].
Qed.

End Repair.

Lemma repair_retries_in_order_example :
  exists r st',
    exec (execute_with_repair (env reversed_db (Throw "unused")) None knows_query) tt
    = (Ok r, st') /\
    length (nodes_of r) = 2 /\
    runs (trace st') = [knows_query; "MATCH (b)-[:KNOWS]->(a) RETURN a,b"].
Proof.
  pose proof (repair_retries_in_order (env reversed_db (Throw "unused")) None
                knows_query (MkSt tt [])
                (MkSt tt [EvDriver None; EvRun knows_query; EvClose])
                (MkResult (Some []) (Some []))
                eq_refl eq_refl eq_refl) as [Hfirst _].
  vm_compute in Hfirst. eexists _, _. split; [exact Hfirst|].
  split; reflexivity.
Qed.

(** When a retry throws an error that names [toString], the [catch] block
    of the step sends one more text, the node-only query, here the query
    itself. *)
Lemma recovery_after_failed_retry :
  runs (trace (snd (exec (execute_step (env failing_retry_db (Throw "unused")) None
                            knows_query) tt)))
  = [knows_query; "MATCH (b)-[:KNOWS]->(a) RETURN a,b"; nodeOnlyQuery knows_query] /\
  nodeOnlyQuery knows_query = knows_query.
Proof.
  vm_compute. split; reflexivity.
Qed.

(** C2, at a query whose directed pattern names its relationship: the
    pattern of the two rewrites requires the colon right after the opening
    bracket, so neither rewrite changes the text, and when the query
    returns no node the same text, with the same direction, is executed
    three times. *)
Theorem C2_named_relationship_is_not_reversed :
  includes named_query "->" = true /\
  reversedQuery named_query = named_query /\
  undirectedQuery named_query = named_query /\
  runs (trace (snd (exec (execute_step (env silent_db (Throw "unused")) None
                            named_query) tt)))
  = [named_query; named_query; named_query].
Proof.
  vm_compute. repeat split.
Qed.

(** * Further properties of the code *)

(** ** [executeQuery]: the result has no duplicates *)

Lemma collect_nodes_spec (vs : list dbvalue) :
  forall (seen : gset string) (acc : list raw_node),
    (forall i, i ∈ seen <-> i ∈ map n_id acc) ->
    NoDup (map n_id acc) ->
    let '(seen', acc') := collect_nodes vs seen acc in
    (forall i, i ∈ seen' <-> i ∈ map n_id acc') /\
    NoDup (map n_id acc') /\
    (forall i, i ∈ map n_id acc' <-> i ∈ map n_id acc \/ i ∈ node_identities vs) /\
    (forall n, n ∈ acc' ->
       n ∈ acc \/ exists ls ps, VNode (n_id n) ls ps ∈ vs /\ n_labels n = Some ls
                                /\ n_properties n = Some ps).
Proof.
  induction vs as [|v vs IH]; intros seen acc Hseen Hnd.
  - simpl. split; [exact Hseen|]. split; [exact Hnd|]. split.
    + intros i. split; [intros H; left; exact H | intros [H | H]; [exact H | inversion H]].
    + intros n Hn; left; exact Hn.
  - assert (Hskip : node_identities (v :: vs) = node_identities vs ->
                    collect_nodes (v :: vs) seen acc = collect_nodes vs seen acc ->
                    let '(seen', acc') := collect_nodes (v :: vs) seen acc in
                    (forall i, i ∈ seen' <-> i ∈ map n_id acc') /\
                    NoDup (map n_id acc') /\
                    (forall i, i ∈ map n_id acc'
                               <-> i ∈ map n_id acc \/ i ∈ node_identities (v :: vs)) /\
                    (forall n, n ∈ acc' ->
                       n ∈ acc \/ exists ls ps, VNode (n_id n) ls ps ∈ v :: vs
                                                /\ n_labels n = Some ls
                                                /\ n_properties n = Some ps)).
    { intros Hids Hsame. rewrite Hsame, Hids. specialize (IH seen acc Hseen Hnd).
      destruct (collect_nodes vs seen acc) as [seen' acc'].
      destruct IH as [H1 [H2 [H3 H4]]].
      split; [exact H1|]. split; [exact H2|]. split; [exact H3|].
      intros n Hn. destruct (H4 n Hn) as [H | [ls' [ps' [H [Hl Hp]]]]]; [left; exact H|].
      right. exists ls', ps'. split; [right; exact H | split; assumption]. }
    destruct v as [i ls ps | i ty s e ps | v]; [|apply Hskip; reflexivity..].
    clear Hskip. simpl. destruct (decide (i ∈ seen)) as [Hin | Hnot].
    + specialize (IH seen acc Hseen Hnd).
      destruct (collect_nodes vs seen acc) as [seen' acc'].
      destruct IH as [H1 [H2 [H3 H4]]].
      split; [exact H1|]. split; [exact H2|]. split.
      * intros j. rewrite H3, elem_of_cons. split; [tauto|].
        intros [H | [-> | H]]; [left; exact H | left; apply Hseen; exact Hin | right; exact H].
      * intros n Hn. destruct (H4 n Hn) as [H | [ls' [ps' [H [Hl Hp]]]]]; [left; exact H|].
        right. exists ls', ps'. split; [right; exact H | split; assumption].
    + assert (Hseen' : forall j, j ∈ ({[i]} ∪ seen : gset string)
                                 <-> j ∈ map n_id (acc ++ [MkRawNode i (Some ls) (Some ps)])).
      { intros j. rewrite map_app, elem_of_app, elem_of_union, elem_of_singleton.
        simpl. rewrite list_elem_of_singleton, <- Hseen. tauto. }
      assert (Hnd' : NoDup (map n_id (acc ++ [MkRawNode i (Some ls) (Some ps)]))).
      { rewrite map_app. apply NoDup_app. split; [exact Hnd|]. split.
        - intros j Hj Hj'. simpl in Hj'. apply list_elem_of_singleton in Hj'. subst j.
          apply Hnot, Hseen. exact Hj.
        - simpl. apply NoDup_singleton. }
      specialize (IH _ _ Hseen' Hnd').
      destruct (collect_nodes vs _ _) as [seen' acc'].
      destruct IH as [H1 [H2 [H3 H4]]].
      split; [exact H1|]. split; [exact H2|]. split.
      * intros j. rewrite H3, map_app, elem_of_app, elem_of_cons. simpl.
        rewrite list_elem_of_singleton. tauto.
      * intros n Hn. destruct (H4 n Hn) as [H | [ls' [ps' [H [Hl Hp]]]]].
        -- apply elem_of_app in H as [H | H]; [left; exact H|].
           apply list_elem_of_singleton in H. subst n. right. exists ls, ps.
           split; [left | split; reflexivity].
        -- right. exists ls', ps'. split; [right; exact H | split; assumption].
Qed.

Lemma collect_rels_spec (vs : list dbvalue) :
  forall (seen : gset string) (acc : list raw_rel),
    (forall i, i ∈ seen <-> i ∈ map r_id acc) ->
    NoDup (map r_id acc) ->
    let '(seen', acc') := collect_rels vs seen acc in
    (forall i, i ∈ seen' <-> i ∈ map r_id acc') /\
    NoDup (map r_id acc') /\
    (forall i, i ∈ map r_id acc' <-> i ∈ map r_id acc \/ i ∈ rel_identities vs).
Proof.
  induction vs as [|v vs IH]; intros seen acc Hseen Hnd.
  - simpl. split; [exact Hseen|]. split; [exact Hnd|].
    intros i. split; [intros H; left; exact H | intros [H | H]; [exact H | inversion H]].
  - destruct v as [i ls ps | i ty s e ps | v]; [apply IH; assumption | | apply IH; assumption].
    simpl. destruct (decide (i ∈ seen)) as [Hin | Hnot].
    + specialize (IH seen acc Hseen Hnd).
      destruct (collect_rels vs seen acc) as [seen' acc'].
      destruct IH as [H1 [H2 H3]].
      split; [exact H1|]. split; [exact H2|].
      intros j. rewrite H3, elem_of_cons. split; [tauto|].
      intros [H | [-> | H]]; [left; exact H | left; apply Hseen; exact Hin | right; exact H].
    + assert (Hseen' : forall j, j ∈ ({[i]} ∪ seen : gset string)
                                 <-> j ∈ map r_id (acc ++ [MkRawRel i ty s e (Some ps)])).
      { intros j. rewrite map_app, elem_of_app, elem_of_union, elem_of_singleton.
        simpl. rewrite list_elem_of_singleton, <- Hseen. tauto. }
      assert (Hnd' : NoDup (map r_id (acc ++ [MkRawRel i ty s e (Some ps)]))).
      { rewrite map_app. apply NoDup_app. split; [exact Hnd|]. split.
        - intros j Hj Hj'. simpl in Hj'. apply list_elem_of_singleton in Hj'. subst j.
          apply Hnot, Hseen. exact Hj.
        - simpl. apply NoDup_singleton. }
      specialize (IH _ _ Hseen' Hnd').
      destruct (collect_rels vs _ _) as [seen' acc'].
      destruct IH as [H1 [H2 H3]].
      split; [exact H1|]. split; [exact H2|].
      intros j. rewrite H3, map_app, elem_of_app, elem_of_cons. simpl.
      rewrite list_elem_of_singleton. tauto.
Qed.

Lemma empty_seen {A : Type} (f : A -> string) :
  forall i, i ∈ (∅ : gset string) <-> i ∈ map f [].
Proof.
  intros i. simpl. rewrite elem_of_nil. split; [intros H; inversion H | intros []].
Qed.


(** X1: the result built from the records of a query holds every node
    identity of the records exactly once, and every relationship identity
    exactly once; each node carries the labels and the properties of a
    node value of the records with that identity. *)
Theorem X1_result_of_records_distinct (records : list record) :
  let r := result_of_records records in
  let vs := concat (map values records) in
  NoDup (map n_id (nodes_of r)) /\
  NoDup (map r_id (rels_of r)) /\
  (forall i, i ∈ map n_id (nodes_of r) <-> i ∈ node_identities vs) /\
  (forall i, i ∈ map r_id (rels_of r) <-> i ∈ rel_identities vs) /\
  (forall n, n ∈ nodes_of r ->
     exists ls ps, VNode (n_id n) ls ps ∈ vs /\ n_labels n = Some ls
                   /\ n_properties n = Some ps).
Proof.
  intros r vs. unfold r, result_of_records, nodes_of, rels_of. simpl. fold vs.
  pose proof (collect_nodes_spec vs ∅ [] (empty_seen n_id) (NoDup_nil_2 (A:=string))) as Hn.
  pose proof (collect_rels_spec vs ∅ [] (empty_seen r_id) (NoDup_nil_2 (A:=string))) as Hr.
  destruct (collect_nodes vs ∅ []) as [sn ns].
  destruct (collect_rels vs ∅ []) as [sr rs]. simpl.
  destruct Hn as [_ [Hn1 [Hn2 Hn3]]]. destruct Hr as [_ [Hr1 Hr2]].
  split; [exact Hn1|]. split; [exact Hr1|]. split; [|split].
  - intros i. rewrite Hn2. simpl. rewrite elem_of_nil. tauto.
  - intros i. rewrite Hr2. simpl. rewrite elem_of_nil. tauto.
  - intros n Hn. destruct (Hn3 n Hn) as [H | H]; [inversion H | exact H].
Qed.

(** ** [executeQuery]: the session and the errors *)

Section ExecuteQuery.
Context {W : Type}.
Variable E : Env W.
Variable cfg : option config.


(** X2: [executeQuery] either fails to obtain the driver, and then runs
    nothing, or runs its query once and closes the session, whether the
    query succeeded or threw and whether the closing succeeded or threw;
    every error it throws carries the prefix of a database failure. *)
Theorem X2_executeQuery_closes_session (q : string) (st st' : St W)
    (r : Exc Neo4jResult) :
  executeQuery E q cfg st = (r, st') ->
  (trace st' = trace st ++ [EvDriver cfg] /\
   exists msg, r = Throw ("Database query failed: " ++ msg)%string) \/
  (trace st' = trace st ++ [EvDriver cfg; EvRun q; EvClose] /\
   ((exists records, r = Ok (result_of_records records)) \/
    exists msg, r = Throw ("Database query failed: " ++ msg)%string)).
Proof.
  unfold executeQuery, getDriver, call. intros H.
  destruct (get_driver E cfg (world st)) as [[[]|msg] w1].
  - right.
    unfold finally, try_catch, bind, run, close_quietly, try_catch, close, call in H.
    simpl in H.
    destruct (session_run E q w1) as [[records|msg] w2]; simpl in H;
      destruct (session_close E w2) as [[[]|msg'] w3]; simpl in H;
      injection H as <- <-; simpl; rewrite <- !app_assoc;
      (split; [reflexivity|]);
      first [left; eexists; reflexivity | right; eexists; reflexivity].
  - left. injection H as <- <-. split; [reflexivity | eexists; reflexivity].
Qed.

End ExecuteQuery.

Lemma X2_executeQuery_closes_session_witness :
  trace (snd (exec (executeQuery (env silent_db (Throw "unused")) knows_query None) tt))
  = [EvDriver None; EvRun knows_query; EvClose].
Proof.
  destruct (X2_executeQuery_closes_session (env silent_db (Throw "unused")) None
              knows_query (MkSt tt [])
              (MkSt tt [EvDriver None; EvRun knows_query; EvClose])
              (Ok (MkResult (Some []) (Some []))) eq_refl) as [[H _] | [H _]];
    [discriminate H | reflexivity].
Defined.

(** ** The index of nodes by identifier *)

Lemma fill_nodeIdMap_last (ns : list graph_node) :
  forall (base : nat) (m : gmap string nat) (id : string),
    fill_nodeIdMap ns base m !! id
    = match last_index ns id with
      | Some j => Some (base + j)
      | None => m !! id
      end.
Proof.
  induction ns as [|n ns IH]; intros base m id; simpl; [reflexivity|].
  rewrite IH. destruct (last_index ns id) as [j|].
  - f_equal. lia.
  - destruct (String.eqb (g_id n) id) eqn:He.
    + apply String.eqb_eq in He. subst id. rewrite lookup_insert_eq. f_equal. lia.
    + apply String.eqb_neq in He. rewrite lookup_insert_ne by exact He. reflexivity.
Qed.

Lemma last_index_absent (gs : list graph_node) (id : string) :
  id ∉ map g_id gs -> last_index gs id = None.
Proof.
  induction gs as [|n gs IH]; intros H; simpl; [reflexivity|].
  simpl in H. rewrite elem_of_cons in H.
  rewrite IH by tauto.
  destruct (String.eqb (g_id n) id) eqn:He; [|reflexivity].
  apply String.eqb_eq in He. subst. tauto.
Qed.

Lemma last_index_distinct (gs : list graph_node) :
  NoDup (map g_id gs) ->
  forall i g, gs !! i = Some g -> last_index gs (g_id g) = Some i.
Proof.
  induction gs as [|n gs IH]; intros Hnd i g Hi; [rewrite lookup_nil in Hi; discriminate|].
  simpl in Hnd. apply NoDup_cons in Hnd as [Hn Hnd].
  destruct i as [|i]; simpl in Hi.
  - injection Hi as ->. simpl. rewrite (last_index_absent gs (g_id g) Hn).
    rewrite String.eqb_refl. reflexivity.
  - simpl. rewrite (IH Hnd i g Hi). reflexivity.
Qed.

(** Looking up the identifier of a node of a list without duplicate
    identifiers gives the position of the node. *)
Lemma nodeIdMap_of_distinct (gs : list graph_node) (i : nat) (g : graph_node) :
  NoDup (map g_id gs) -> gs !! i = Some g -> nodeIdMap_of gs !! g_id g = Some i.
Proof.
  intros Hnd Hi. unfold nodeIdMap_of. rewrite fill_nodeIdMap_last.
  rewrite (last_index_distinct gs Hnd i g Hi). reflexivity.
Qed.

Lemma transform_node_ids_list (ns : list raw_node) :
  map g_id (map transform_node ns) = map n_id ns.
Proof. rewrite map_map. reflexivity. Qed.

(** X3: for identifiers that name no inherited member of an object, the
    index gives the last position of a node with the identifier, and
    nothing when there is none; so in a result without duplicate node
    identifiers, as [executeQuery] builds them, every relationship whose
    start (end) is the node at position [i] becomes a link whose source
    (target) is [i]. *)
Theorem X3_transform_resolves_distinct_ids (ns : list raw_node) (rs : list raw_rel)
    (k : nat) (rel : raw_rel) (link : graph_link) :
  let g := transformNeo4jResultToGraphData (Some (MkResult (Some ns) (Some rs))) in
  NoDup (map n_id ns) ->
  Forall (fun node => ordinary (n_id node) = true) ns ->
  rs !! k = Some rel ->
  g_links g !! k = Some link ->
  (forall id, ordinary id = true ->
     nodeIdMap_of (g_nodes g) !! id = last_index (g_nodes g) id) /\
  (forall id, ordinary id = true -> id ∉ map n_id ns ->
     nodeIdMap_of (g_nodes g) !! id = None) /\
  (forall i node, ns !! i = Some node -> n_id node = startNodeId rel ->
     source link = Some i) /\
  (forall i node, ns !! i = Some node -> n_id node = endNodeId rel ->
     target link = Some i).
Proof.
  simpl. intros Hnd Hord Hrel Hlink.
  rewrite list_lookup_fmap, Hrel in Hlink. simpl in Hlink. injection Hlink as <-.
  assert (Hnd' : NoDup (map g_id (map transform_node ns)))
    by (rewrite transform_node_ids_list; exact Hnd).
  assert (Hlast : forall id,
             nodeIdMap_of (map transform_node ns) !! id
             = last_index (map transform_node ns) id).
  { intros id. unfold nodeIdMap_of. rewrite fill_nodeIdMap_last.
    destruct (last_index _ id); reflexivity. }
  split; [intros id _; apply Hlast|].
  split.
  { intros id _ Hid. rewrite Hlast. apply last_index_absent.
    rewrite transform_node_ids_list. exact Hid. }
  split; intros i node Hi Hid; simpl; rewrite <- Hid;
    apply (nodeIdMap_of_distinct _ i (transform_node node) Hnd');
    rewrite list_lookup_fmap, Hi; reflexivity.
Qed.

Lemma X3_transform_resolves_distinct_ids_witness :
  map (fun l => (source l, target l))
    (g_links (transformNeo4jResultToGraphData (Some dangling_result)))
  !! 1 = Some (Some 1, Some 2).
Proof.
  pose proof (X3_transform_resolves_distinct_ids
                [MkRawNode "1" (Some ["Person"]) (Some []);
                 MkRawNode "2" (Some ["Person"]) (Some []);
                 MkRawNode "3" (Some ["Person"]) (Some [])]
                [MkRawRel "10" "KNOWS" "1" "2" (Some []);
                 MkRawRel "11" "KNOWS" "2" "3" (Some []);
                 MkRawRel "12" "KNOWS" "3" "4" (Some [])]
                1 (MkRawRel "11" "KNOWS" "2" "3" (Some []))
                (MkGraphLink (Some 1) (Some 2) (Some "KNOWS") (Some []) None None)) as H.
  simpl in H.
  assert (Hnd : NoDup ["1"; "2"; "3"]) by compute_done.
  assert (Hord : Forall (fun node => ordinary (n_id node) = true)
                   [MkRawNode "1" (Some ["Person"]) (Some []);
                    MkRawNode "2" (Some ["Person"]) (Some []);
                    MkRawNode "3" (Some ["Person"]) (Some [])])
    by (repeat constructor).
  destruct (H Hnd Hord eq_refl eq_refl) as [_ [_ [Hs Ht]]].
  reflexivity.
Defined.

(** ** The manual pass of the route *)

Lemma manual_link_empty (rs : list raw_rel) :
  concat (map (manual_link ∅) rs) = [].
Proof.
  induction rs as [|rel rs IH]; [reflexivity|].
  simpl. rewrite IH. unfold manual_link.
  destruct (negb (JsString.truthy (startNodeId rel))
            || negb (JsString.truthy (endNodeId rel))); [reflexivity|].
  rewrite lookup_empty. reflexivity.
Qed.

(** X4: the manual pass that is meant to add links when the
    transformation produced none never adds one: the graph of a result is
    always the one of the transformation. *)
Theorem X4_to_graph_is_transform (r : Neo4jResult) :
  to_graph r = transformNeo4jResultToGraphData (Some r).
Proof.
  unfold to_graph. destruct r as [[ns|] [rs|]]; simpl.
  - destruct rs; reflexivity.
  - reflexivity.
  - destruct rs as [|rel rs]; [reflexivity|].
    unfold rels_of, nodeIdMap_of. cbn [relationships default from_option id is_nil negb andb
                                        fill_nodeIdMap g_nodes empty_graph].
    rewrite manual_link_empty. reflexivity.
  - reflexivity.
Qed.

(** ** The sampling of node properties *)

Section Sampling.
Context {W : Type}.
Variable E : Env W.

(** X5: the sampling loop of [getNodeProperties] never throws; it sends
    exactly one query per label, in order, bounded to one node, and makes
    no other call; it makes one assignment [nodeProperties[label]] per
    label, in order, after the entries it started with (the object is held
    as the list of its assignments). *)
Theorem X5_sample_labels_one_entry_per_label (labels : list string) :
  forall (acc : nodeProperties_t) (st : St W),
  exists r st',
    sample_labels E labels acc st = (Ok r, st') /\
    map fst r = map fst acc ++ labels /\
    trace st' = trace st ++
      map (fun label => EvRun ("MATCH (n:" ++ label ++ ") RETURN n LIMIT 1")%string) labels.
Proof.
  induction labels as [|label labels IH]; intros acc st.
  - exists acc, st. simpl. rewrite !app_nil_r. repeat split; reflexivity.
  - cbn [sample_labels]. unfold bind at 1, try_catch, bind, run, call, lift, ret.
    set (q := ("MATCH (n:" ++ label ++ ") RETURN n LIMIT 1")%string).
    assert (Hnext : forall keys w1,
               exists r st',
                 sample_labels E labels (acc ++ [(label, keys)])
                   (MkSt w1 (trace st ++ [EvRun q])) = (Ok r, st') /\
                 map fst r = map fst acc ++ label :: labels /\
                 trace st' = trace st ++ EvRun q ::
                   map (fun label => EvRun ("MATCH (n:" ++ label ++ ") RETURN n LIMIT 1")%string)
                     labels).
    { intros keys w1.
      destruct (IH (acc ++ [(label, keys)]) (MkSt w1 (trace st ++ [EvRun q])))
        as [r [st' [Hrun [Hfst Htrace]]]].
      exists r, st'. split; [exact Hrun|]. split.
      - rewrite Hfst, map_app, <- app_assoc. reflexivity.
      - rewrite Htrace. simpl. rewrite <- app_assoc. reflexivity. }
    destruct (session_run E q (world st)) as [[result|msg] w1]; simpl.
    + destruct result as [|rec result]; [apply Hnext|].
      destruct (sampled_keys rec) as [keys|m]; apply Hnext.
    + apply Hnext.
Qed.

(** ** [getGraphSchema]: the session *)

(** X6: [getGraphSchema] either fails to obtain the driver, and then
    answers the empty schema without running anything, or runs the label
    query, then at most the relationship type query, and closes the
    session; it throws only what the closing of the session throws. *)
Theorem X6_getGraphSchema_closes_session (cfg : option config) (st st' : St W)
    (r : Exc schema) :
  getGraphSchema E cfg st = (r, st') ->
  (trace st' = trace st ++ [EvDriver cfg] /\ r = Ok (MkSchema [] [])) \/
  (exists qs,
     trace st' = trace st ++ EvDriver cfg :: map EvRun qs ++ [EvClose] /\
     (qs = ["CALL db.labels()"%string] \/
      qs = ["CALL db.labels()"; "CALL db.relationshipTypes()"]%string) /\
     ((exists sc, r = Ok sc) \/
      exists msg w w', r = Throw msg /\ session_close E w = (Throw msg, w'))).
Proof.
  unfold getGraphSchema, try_catch at 1, bind at 1, getDriver, call, ret. intros H.
  destruct (get_driver E cfg (world st)) as [[[]|msg] w1].
  - right. unfold finally, try_catch, bind, run, close, call, lift in H. simpl in H.
    destruct (session_run E "CALL db.labels()" w1) as [[labels|m] w2]; simpl in H.
    + destruct (map_exc get0 labels) as [nodeLabels|m]; simpl in H.
      * destruct (session_run E "CALL db.relationshipTypes()" w2) as [[types|m] w3];
          simpl in H.
        -- destruct (map_exc get0 types) as [relTypes|m]; simpl in H;
             destruct (session_close E w3) as [[[]|m'] w4] eqn:Hc; simpl in H;
             injection H as <- <-; exists ["CALL db.labels()"; "CALL db.relationshipTypes()"]%string;
             simpl; rewrite <- !app_assoc;
             (split; [reflexivity|]); (split; [right; reflexivity|]);
             first [left; eexists; reflexivity
                   | right; exists m', w3, w4; split; [reflexivity | exact Hc]].
        -- destruct (session_close E w3) as [[[]|m'] w4] eqn:Hc; simpl in H;
             injection H as <- <-; exists ["CALL db.labels()"; "CALL db.relationshipTypes()"]%string;
             simpl; rewrite <- !app_assoc;
             (split; [reflexivity|]); (split; [right; reflexivity|]);
             first [left; eexists; reflexivity
                   | right; exists m', w3, w4; split; [reflexivity | exact Hc]].
      * destruct (session_close E w2) as [[[]|m'] w3] eqn:Hc; simpl in H;
          injection H as <- <-; exists ["CALL db.labels()"%string];
          simpl; rewrite <- !app_assoc;
          (split; [reflexivity|]); (split; [left; reflexivity|]);
          first [left; eexists; reflexivity
                | right; exists m', w2, w3; split; [reflexivity | exact Hc]].
    + destruct (session_close E w2) as [[[]|m'] w3] eqn:Hc; simpl in H;
        injection H as <- <-; exists ["CALL db.labels()"%string];
        simpl; rewrite <- !app_assoc;
        (split; [reflexivity|]); (split; [left; reflexivity|]);
        first [left; eexists; reflexivity
              | right; exists m', w2, w3; split; [reflexivity | exact Hc]].
  - left. injection H as <- <-. split; reflexivity.
Qed.

End Sampling.

Lemma X6_getGraphSchema_closes_session_witness :
  trace (snd (exec (getGraphSchema (env silent_db (Throw "unused")) None) tt))
  = [EvDriver None; EvRun "CALL db.labels()"; EvRun "CALL db.relationshipTypes()"; EvClose].
Proof.
  destruct (X6_getGraphSchema_closes_session (env silent_db (Throw "unused")) None
              (MkSt tt [])
              (MkSt tt [EvDriver None; EvRun "CALL db.labels()";
                        EvRun "CALL db.relationshipTypes()"; EvClose])
              (Ok (MkSchema [] [])) eq_refl) as [[H _] | _];
    [discriminate H | reflexivity].
Defined.

(** ** The calls of the synthesizer *)

Section SynthesizerCalls.
Context {W : Type}.
Variable E : Env W.
Variable messages : list message.
Variable sc : full_schema.
Variables apiKey baseUrl modelName : option string.

(** The prompt cannot be built exactly when a label of the schema reads a
    value that is no list of properties: a label without entry in
    [nodeProperties] that names an inherited member, such as
    [constructor]. *)
Lemma systemPrompt_throws :
  (exists msg, systemPrompt sc = Throw msg) <->
  exists label, In label (fs_nodeLabels sc) /\
                read_properties (fs_nodeProperties sc) label = Other.
Proof.
  unfold systemPrompt.
  assert (H : forall labels,
             (exists msg, map_exc (label_line sc) labels = Throw msg) <->
             exists label, In label labels /\
                           read_properties (fs_nodeProperties sc) label = Other).
  { induction labels as [|l labels IH]; cbn [map_exc].
    - split; [intros [msg Hm]; discriminate | intros [label [[] _]]].
    - unfold label_line at 1.
      destruct (read_properties (fs_nodeProperties sc) l) eqn:Hl.
      + destruct (map_exc (label_line sc) labels) as [ls|m] eqn:Hrest.
        * split; [intros [msg Hm]; discriminate|].
          intros [label [[<- | Hin] Hr]]; [congruence|].
          destruct (proj2 IH) as [msg Hm]; [exists label; auto | discriminate].
        * split; [|intros _; eexists; reflexivity].
          intros _. destruct (proj1 IH) as [label [Hin Hr]]; [eexists; reflexivity|].
          exists label. split; [right; exact Hin | exact Hr].
      + destruct (map_exc (label_line sc) labels) as [ls|m] eqn:Hrest.
        * split; [intros [msg Hm]; discriminate|].
          intros [label [[<- | Hin] Hr]]; [congruence|].
          destruct (proj2 IH) as [msg Hm]; [exists label; auto | discriminate].
        * split; [|intros _; eexists; reflexivity].
          intros _. destruct (proj1 IH) as [label [Hin Hr]]; [eexists; reflexivity|].
          exists label. split; [right; exact Hin | exact Hr].
      + split; [|intros _; eexists; reflexivity].
        intros _. exists l. split; [left; reflexivity | exact Hl]. }
  specialize (H (fs_nodeLabels sc)).
  destruct (map_exc (label_line sc) (fs_nodeLabels sc)) as [ls|m].
  - rewrite <- H. split; intros [msg Hm]; discriminate.
  - rewrite <- H. split; intros _; eexists; reflexivity.
Qed.

(** X7: [generateCypherQuery] makes no database call and at most one LLM
    call.  When the prompt cannot be built, or without a key from the
    caller or from the environment, it makes no call at all.  Otherwise it
    sends one request: the key is the caller's when it is given and not
    empty and the environment's otherwise, the base URL and the model fall
    back to the OpenAI endpoint and to gpt-4, and the messages are the
    system prompt followed by the conversation. *)
Theorem X7_generateCypherQuery_one_llm_call (st st' : St W) (r : Exc synthesized) :
  generateCypherQuery E messages sc apiKey baseUrl modelName st = (r, st') ->
  (((exists msg, systemPrompt sc = Throw msg) \/
    present (or_opt apiKey (env_OPENAI_API_KEY E)) = None) /\ trace st' = trace st) \/
  (exists prompt key,
     systemPrompt sc = Ok prompt /\
     present (or_opt apiKey (env_OPENAI_API_KEY E)) = Some key /\
     JsString.truthy key = true /\
     (apiKey = Some key \/
      (missing apiKey = true /\ env_OPENAI_API_KEY E = Some key)) /\
     trace st' = trace st ++
       [EvLlm (MkLlmRequest
                 (default "https://api.openai.com/v1"
                    (or_opt (or_opt baseUrl (env_OPENAI_BASE_URL E)) None))
                 key
                 (default "gpt-4" (or_opt modelName None))
                 (MkMessage "system" prompt :: messages))]).
Proof.
  unfold generateCypherQuery, try_catch, bind at 1, lift. intros H.
  destruct (systemPrompt sc) as [prompt|pmsg] eqn:Hprompt.
  2:{ left. injection H as _ <-. split; [left; eexists|]; reflexivity. }
  destruct (present (or_opt apiKey (env_OPENAI_API_KEY E))) as [key|] eqn:Hkey.
  2:{ left. injection H as _ <-. split; [right|]; reflexivity. }
  right. exists prompt, key. split; [reflexivity|]. split; [reflexivity|].
  assert (Hsrc : JsString.truthy key = true /\
                 (apiKey = Some key \/
                  (missing apiKey = true /\ env_OPENAI_API_KEY E = Some key))).
  { unfold present, or_opt, missing in *.
    destruct apiKey as [a|].
    - destruct (JsString.truthy a) eqn:Ha.
      + simpl in Hkey. rewrite Ha in Hkey. injection Hkey as ->.
        split; [exact Ha | left; reflexivity].
      + destruct (env_OPENAI_API_KEY E) as [e|]; [|discriminate].
        destruct (JsString.truthy e) eqn:He; [|discriminate]. injection Hkey as ->.
        split; [exact He | right; split; reflexivity].
    - destruct (env_OPENAI_API_KEY E) as [e|]; [|discriminate].
      destruct (JsString.truthy e) eqn:He; [|discriminate]. injection Hkey as ->.
      split; [exact He | right; split; reflexivity]. }
  destruct Hsrc as [Htruthy Hsrc]. split; [exact Htruthy|]. split; [exact Hsrc|].
  unfold bind, create, call in H.
  destruct (llm_create E _ (world st)) as [[resp|msg] w1]; simpl in H.
  - destruct (choices resp) as [[|[text|] rest]|]; simpl in H;
      try (injection H as _ <-; reflexivity).
    destruct (JsString.truthy text); simpl in H; injection H as _ <-; reflexivity.
  - injection H as _ <-. reflexivity.
Qed.

End SynthesizerCalls.

(** A run with a key and a schema of one label: one request, whose first
    message is the prompt with the line of the label. *)
Lemma X7_generateCypherQuery_one_llm_call_witness :
  trace (snd (exec (generateCypherQuery (env silent_db (Ok "no idea"))
                      [MkMessage "user" "hi"] people_schema (Some "sk-1") None None) tt))
  = [EvLlm (MkLlmRequest "https://api.openai.com/v1" "sk-1" "gpt-4"
              [MkMessage "system" (prompt_text ["- Person (Properties: name)"] ["KNOWS"]);
               MkMessage "user" "hi"])].
Proof.
  destruct (X7_generateCypherQuery_one_llm_call (env silent_db (Ok "no idea"))
              [MkMessage "user" "hi"] people_schema (Some "sk-1") None None
              (MkSt tt []) _ _ (surjective_pairing _))
    as [[[[msg H] | H] _] | [prompt [key [Hp [Hk [_ [_ H]]]]]]];
    [discriminate H | discriminate H |].
  injection Hp as <-. injection Hk as <-. exact H.
Defined.

(** ** The validation of the route and its status codes *)

Section RouteStatus.
Context {W : Type}.
Variable stringify : nodeProperties_t -> string.
Variable E : Env W.

(** X8: a request that carries its messages and its LLM key but lacks the
    database URI, the user name or the password is answered with status
    400 and the message about the connection parameters, before any
    call. *)
Theorem X8_missing_db_credentials_rejected (b : body) (ms : list message) (w : W) :
  b_messages b = Some ms ->
  missing (b_openaiApiKey b) = false ->
  missing (b_neo4jUri b) = true \/ missing (b_neo4jUsername b) = true
  \/ missing (b_neo4jPassword b) = true ->
  exec (POST stringify E (Some b)) w
  = (Ok (json_response 400 missing_db_message), MkSt w []).
Proof.
  intros Hms Hkey Hdb. unfold exec, POST, try_catch. rewrite Hms, Hkey.
  replace (missing (b_neo4jUri b) || missing (b_neo4jUsername b)
           || missing (b_neo4jPassword b)) with true; [reflexivity|].
  destruct Hdb as [-> | [-> | ->]]; rewrite ?orb_true_r; reflexivity.
Qed.

(** A reply of the execution step is a diagnostic with status 200. *)
Lemma execute_step_reply (cfg : option config) (q : string) (st st' : St W)
    (x : Exc (Neo4jResult * GraphData + response)) :
  execute_step E cfg q st = (x, st') ->
  (exists rg, x = Ok (inl rg)) \/ exists msg, x = Ok (inr (db_error_reply msg)).
Proof.
  unfold execute_step, try_catch at 1. intros H.
  destruct (bind (execute_with_repair E cfg q) _ st) as [[y|msg] st1] eqn:Hrun.
  - injection H as <- _. unfold bind in Hrun.
    destruct (execute_with_repair E cfg q st) as [[r|m] st2]; [|discriminate].
    injection Hrun as <- _. left. eexists; reflexivity.
  - destruct (is_shape_error msg).
    + unfold try_catch in H.
      destruct (bind (node_only_recovery E cfg q) _ st1) as [[y|m] st2] eqn:Hrec.
      * injection H as <- _. unfold bind in Hrec.
        destruct (node_only_recovery E cfg q st1) as [[rg|m] st3]; [|discriminate].
        injection Hrec as <- _. left. eexists; reflexivity.
      * injection H as <- _. right. eexists; reflexivity.
    + injection H as <- _. right. eexists; reflexivity.
Qed.

(** A turn that returns a response returns it with status 200. *)
Lemma turn_status (b : body) (ms : list message) (st st' : St W) (resp : response) :
  turn stringify E b ms st = (Ok resp, st') -> status resp = 200.
Proof.
  unfold turn, bind at 1. intros H.
  destruct (fetch_schema _ _ _ _ st) as [[[[s np] ms']|m] st1]; [|discriminate].
  unfold bind at 1 in H.
  destruct (synthesize E ms' s np b st1) as [[[q e]|m] st2]; [|discriminate].
  destruct q as [| | |q0|items|]; try discriminate.
  - unfold bind at 1 in H.
    destruct (execute_step E _ (rewrite_wife q0) st2) as [x st3] eqn:Hstep.
    destruct (execute_step_reply _ _ _ _ _ Hstep) as [[[r g] ->] | [msg ->]].
    + unfold bind in H. destruct (table_step E _ _ st3) as [[t|m] st4]; [|discriminate].
      injection H as <- _. reflexivity.
    + injection H as <- _. reflexivity.
  - destruct (array_includes items "妻子"); [discriminate|].
    unfold execute_step_value, try_catch, bind in H.
    destruct (executeQuery_value E (JArr items) _ st2) as [[r0|m] st3].
    + destruct (is_nil (nodes_of (fix_relationships r0)) && array_includes items "->");
        injection H as <- _; reflexivity.
    + injection H as <- _. reflexivity.
Qed.

(** X9: [POST] always answers, with status 200, 400 or 500; status 400 is
    only given before any call to the database or to the LLM, and a
    request that passes the validation is never answered with it. *)
Theorem X9_POST_status (request : option body) (w : W) :
  exists resp st',
    exec (POST stringify E request) w = (Ok resp, st') /\
    (status resp = 200 \/ status resp = 400 \/ status resp = 500) /\
    (status resp = 400 -> trace st' = []) /\
    (forall b ms,
       request = Some b -> b_messages b = Some ms ->
       missing (b_openaiApiKey b) = false -> missing (b_neo4jUri b) = false ->
       missing (b_neo4jUsername b) = false -> missing (b_neo4jPassword b) = false ->
       status resp <> 400).
Proof.
  unfold exec, POST, try_catch.
  destruct request as [b|].
  2:{ eexists _, _. split; [reflexivity|]. simpl.
      split; [right; left; reflexivity|]. split; [reflexivity | discriminate]. }
  destruct (b_messages b) as [ms|] eqn:Hms.
  2:{ eexists _, _. split; [reflexivity|]. simpl.
      split; [right; left; reflexivity|]. split; [reflexivity|].
      intros b' ms' Hb Hm. injection Hb as <-. rewrite Hm in Hms. discriminate Hms. }
  destruct (missing (b_openaiApiKey b)) eqn:Hkey.
  { eexists _, _. split; [reflexivity|]. simpl.
    split; [right; left; reflexivity|]. split; [reflexivity|].
    intros b' ms' Hb _ H. injection Hb as <-. rewrite H in Hkey. discriminate Hkey. }
  destruct (missing (b_neo4jUri b) || missing (b_neo4jUsername b)
            || missing (b_neo4jPassword b)) eqn:Hdb.
  { eexists _, _. split; [reflexivity|]. simpl.
    split; [right; left; reflexivity|]. split; [reflexivity|].
    intros b' ms' Hb _ _ H1 H2 H3. injection Hb as <-.
    rewrite H1, H2, H3 in Hdb. discriminate Hdb. }
  destruct (turn stringify E b ms (MkSt w [])) as [[resp|msg] st1] eqn:Hturn.
  - exists resp, st1. split; [reflexivity|].
    rewrite (turn_status _ _ _ _ _ Hturn).
    split; [left; reflexivity|]. split; [discriminate | intros; discriminate].
  - eexists _, _. split; [reflexivity|]. simpl.
    split; [right; right; reflexivity|]. split; [discriminate | intros; discriminate].
Qed.

End RouteStatus.

(** A query that the answer gives as an array is handed to the driver,
    which refuses it here; the turn is answered with status 200 and the
    message of the database error, after the session was closed. *)
Lemma array_query_is_answered_200 :
  let '(r, st) :=
    exec (POST (fun _ => "{}") (env silent_db (Ok array_answer))
            (Some (good_body [MkMessage "user" "hi"]))) tt in
  r = Ok (db_error_reply
            "Database query failed: Cypher query is expected to be a non-empty string.") /\
  last (trace st) = Some EvClose.
Proof.
  vm_compute. split; reflexivity.
Qed.

Lemma X8_missing_db_credentials_rejected_witness :
  exec (POST (fun _ => "{}"%string) (env silent_db (Throw "down"))
          (Some (MkBody (Some [MkMessage "user" "hi"]) (Some "sk-1") None
                   (Some "bolt://db") None (Some "pw") None))) tt
  = (Ok (json_response 400 missing_db_message), MkSt tt []).
Proof.
  apply (X8_missing_db_credentials_rejected (fun _ => "{}"%string)
           (env silent_db (Throw "down")) _ [MkMessage "user" "hi"] tt);
    [reflexivity | reflexivity | right; left; reflexivity].
Defined.

(** ** The query that the route executes *)

Lemma process_result_truthy (result : synthesized) :
  Json.truthy (fst (process_result result)) = true /\
  Json.truthy (snd (process_result result)) = true.
Proof.
  unfold process_result, or_null.
  destruct (Json.truthy (cypherQuery result)) eqn:Hq; simpl.
  - rewrite Hq. simpl. split; [exact Hq|].
    destruct (Json.truthy (explanation result)) eqn:He; simpl; rewrite ?He; reflexivity.
  - split; reflexivity.
Qed.

Section RouteSynthesis.
Context {W : Type}.
Variable E : Env W.

(** X10: the synthesis step of the route never throws and never hands on
    an empty query or an empty explanation: a query that is missing or
    empty, as the strategy that reads the raw text can return, is replaced
    by the default query of the route. *)
Theorem X10_synthesize_query_never_empty (ms : list message) (sc : schema)
    (np : nodeProperties_t) (b : body) (st : St W) :
  exists q e st',
    synthesize E ms sc np b st = (Ok (q, e), st') /\
    Json.truthy q = true /\ Json.truthy e = true /\
    (forall result st1,
       generateCypherQuery E ms (MkFullSchema (nodeLabels sc) (relationshipTypes sc) np)
         (b_openaiApiKey b) (b_openaiBaseUrl b) (b_modelName b) st = (Ok result, st1) ->
       Json.truthy (cypherQuery result) = false ->
       q = JStr "MATCH (n:Character) RETURN n LIMIT 25").
Proof.
  unfold synthesize, try_catch, bind.
  destruct (generateCypherQuery E ms _ _ _ _ st) as [[result|msg] st1].
  - destruct (process_result result) as [q e] eqn:Hp.
    exists q, e, st1. split; [reflexivity|].
    destruct (process_result_truthy result) as [Hq He]. rewrite Hp in Hq, He.
    split; [exact Hq|]. split; [exact He|].
    intros result' st1' Heq Hfalse. injection Heq as <- _.
    unfold process_result, or_null in Hp. rewrite Hfalse in Hp. simpl in Hp.
    injection Hp as <- _. reflexivity.
  - eexists _, _, _. split; [reflexivity|]. split; [reflexivity|]. split.
    + unfold or_string. destruct (JsString.truthy msg); reflexivity.
    + intros result st1' Heq. discriminate Heq.
Qed.

End RouteSynthesis.

(** ** The annotation of the conversation *)

Lemma append_to_system_others (ms : list message) (text : string) :
  filter (fun m => is_system m = false) (append_to_system ms text)
  = filter (fun m => is_system m = false) ms.
Proof.
  induction ms as [|m ms IH]; [reflexivity|].
  cbn [append_to_system]. destruct (is_system m) eqn:Hm.
  - rewrite (filter_cons_False _ m) by (rewrite Hm; discriminate).
    rewrite filter_cons_False; [reflexivity|].
    unfold is_system in *. cbn [role]. rewrite Hm. discriminate.
  - rewrite (filter_cons_True _ m) by exact Hm.
    rewrite (filter_cons_True _ m) by exact Hm. rewrite IH. reflexivity.
Qed.

Lemma append_to_system_length (ms : list message) (text : string) :
  length (append_to_system ms text) = length ms.
Proof.
  induction ms as [|m ms IH]; [reflexivity|].
  simpl. destruct (is_system m); simpl; [reflexivity | rewrite IH; reflexivity].
Qed.

Lemma append_to_system_keeps_system (ms : list message) (text : string) :
  existsb is_system (append_to_system ms text) = existsb is_system ms.
Proof.
  induction ms as [|m ms IH]; [reflexivity|].
  simpl. destruct (is_system m) eqn:Hm; simpl.
  - unfold is_system in *. simpl. rewrite Hm. reflexivity.
  - rewrite Hm, IH. reflexivity.
Qed.

(** The first system message is the only one that changes, in place. *)
Lemma append_to_system_shape (ms : list message) :
  existsb is_system ms = true ->
  exists pre m post,
    ms = pre ++ m :: post /\ existsb is_system pre = false /\ is_system m = true /\
    forall text,
      append_to_system ms text = pre ++ MkMessage (role m) (content m ++ text) :: post.
Proof.
  induction ms as [|m ms IH]; [discriminate|].
  cbn [existsb append_to_system]. destruct (is_system m) eqn:Hm.
  - intros _. exists [], m, ms. split; [reflexivity|]. split; [reflexivity|].
    split; [exact Hm|]. intros text. reflexivity.
  - cbn [orb]. intros H. destruct (IH H) as [pre [m0 [post [-> [Hpre [Hm0 Happ]]]]]].
    exists (m :: pre), m0, post. split; [reflexivity|]. split.
    + cbn [existsb]. rewrite Hm, Hpre. reflexivity.
    + split; [exact Hm0|]. intros text. rewrite Happ. reflexivity.
Qed.

Lemma append_to_system_head (m : message) (ms : list message) (text : string) :
  is_system m = true ->
  append_to_system (m :: ms) text = MkMessage (role m) (content m ++ text) :: ms.
Proof. intros H. cbn [append_to_system]. rewrite H. reflexivity. Qed.

Lemma append_to_system_skip (pre : list message) (m : message) (post : list message)
    (text : string) :
  existsb is_system pre = false -> is_system m = true ->
  append_to_system (pre ++ m :: post) text
  = pre ++ MkMessage (role m) (content m ++ text) :: post.
Proof.
  intros Hpre Hm. induction pre as [|p pre IH]; [apply append_to_system_head; exact Hm|].
  cbn [existsb] in Hpre. apply orb_false_elim in Hpre as [Hp Hpre].
  cbn [app append_to_system]. rewrite Hp, (IH Hpre). reflexivity.
Qed.

(** X11: the annotation with the schema keeps every message that is not a
    system message, in order and unchanged, and the annotated conversation
    always has a system message.  When the conversation has no system
    message, the annotation is the conversation with one system message
    put at its head.  Otherwise it is the conversation with text appended
    to the content of its first system message, in place: no message is
    added, moved or removed. *)
Theorem X11_annotate_keeps_conversation (stringify : nodeProperties_t -> string)
    (ms : list message) (sc : schema) (np : nodeProperties_t) :
  let ms' := annotate stringify ms sc np in
  filter (fun m => is_system m = false) ms' = filter (fun m => is_system m = false) ms /\
  existsb is_system ms' = true /\
  length ms' = (if existsb is_system ms then length ms else S (length ms)) /\
  (existsb is_system ms = false ->
   exists text, ms' = MkMessage "system" text :: ms) /\
  (existsb is_system ms = true ->
   exists pre m post text,
     ms = pre ++ m :: post /\ existsb is_system pre = false /\ is_system m = true /\
     ms' = pre ++ MkMessage (role m) (content m ++ text) :: post).
Proof.
  intros ms'. unfold ms', annotate. clear ms'.
  destruct (existsb is_system ms) eqn:Hsys.
  - rewrite append_to_system_keeps_system, Hsys.
    rewrite !append_to_system_others, !append_to_system_keeps_system,
      !append_to_system_length.
    split; [reflexivity|]. split; [exact Hsys|]. split; [reflexivity|].
    split; [discriminate|]. intros _.
    destruct (append_to_system_shape ms Hsys) as [pre [m [post [Hms [Hpre [Hm Happ]]]]]].
    exists pre, m, post. eexists. split; [exact Hms|]. split; [exact Hpre|].
    split; [exact Hm|].
    rewrite Happ.
    rewrite (append_to_system_skip pre (MkMessage (role m) _) post _ Hpre)
      by (unfold is_system in *; exact Hm).
    cbn [role content]. rewrite append_assoc. reflexivity.
  - match goal with
    | |- context [MkMessage "system" ?c :: ms] => set (new := MkMessage "system" c)
    end.
    assert (Hnew : is_system new = true) by reflexivity.
    cbn [existsb]. rewrite Hnew. cbn [orb append_to_system]. rewrite Hnew.
    rewrite filter_cons_False by discriminate.
    split; [reflexivity|]. split; [reflexivity|]. split; [reflexivity|].
    split; [|discriminate]. intros _. eexists. reflexivity.
Qed.

Lemma X11_annotate_keeps_conversation_witness :
  exists text,
    annotate (fun _ => "{}") [MkMessage "user" "hi"] empty_schema []
    = [MkMessage "system" text; MkMessage "user" "hi"].
Proof.
  destruct (X11_annotate_keeps_conversation (fun _ => "{}"%string)
              [MkMessage "user" "hi"] empty_schema [])
    as [_ [_ [_ [Hhead _]]]].
  exact (Hhead eq_refl).
Defined.

(** ** Executions that are not retried *)

Section NoRetry.
Context {W : Type}.
Variable E : Env W.
Variable cfg : option config.

(** X12: when the direct execution returns nodes, or when the text of the
    query has no arrow head, nothing is executed after the direct
    execution, and its result, with the relationship fields repaired, is
    the result. *)
Theorem X12_execute_with_repair_single_execution (q : string) (st st1 : St W)
    (r0 : Neo4jResult) :
  executeQuery E q cfg st = (Ok r0, st1) ->
  nodes_of r0 <> [] \/ includes q "->" = false ->
  execute_with_repair E cfg q st = (Ok (fix_relationships r0), st1) /\
  nodes_of (fix_relationships r0) = nodes_of r0.
Proof.
  intros Hdirect Hcase. split; [|reflexivity].
  unfold execute_with_repair, bind at 1. rewrite Hdirect.
  replace (nodes_of (fix_relationships r0)) with (nodes_of r0) by reflexivity.
  destruct Hcase as [Hnodes | Hgate].
  - destruct (nodes_of r0); [contradiction | reflexivity].
  - rewrite Hgate. destruct (nodes_of r0); [|reflexivity].
    cbn [is_nil]. unfold bind, ret. rewrite andb_false_r. reflexivity.
Qed.

(** X13: when the direct execution throws, with a message that does not
    point at the shape of a relationship, the execution step does not
    throw and executes nothing else: it ends the turn with a reply of
    status 200 that carries the message and has neither graph nor table. *)
Theorem X13_execute_step_absorbs_database_error (q : string) (st st1 : St W)
    (msg : string) :
  executeQuery E q cfg st = (Throw msg, st1) ->
  is_shape_error msg = false ->
  execute_step E cfg q st = (Ok (inr (db_error_reply msg)), st1) /\
  status (db_error_reply msg) = 200 /\
  graphData (db_error_reply msg) = None /\
  tableData (db_error_reply msg) = None.
Proof.
  intros Hdirect Hshape. split; [|repeat split].
  unfold execute_step, try_catch at 1, bind at 1, execute_with_repair, bind at 1.
  rewrite Hdirect, Hshape. reflexivity.
Qed.

End NoRetry.

Lemma X12_execute_with_repair_single_execution_witness :
  runs (trace (snd (exec (execute_with_repair (env silent_db (Throw "unused")) None
                            "MATCH (n) RETURN n") tt)))
  = ["MATCH (n) RETURN n"].
Proof.
  destruct (X12_execute_with_repair_single_execution (env silent_db (Throw "unused")) None
              "MATCH (n) RETURN n" (MkSt tt [])
              (MkSt tt [EvDriver None; EvRun "MATCH (n) RETURN n"; EvClose])
              (MkResult (Some []) (Some [])) eq_refl (or_intror eq_refl)) as [H _].
  unfold exec. rewrite H. reflexivity.
Defined.

Lemma X13_execute_step_absorbs_database_error_witness :
  fst (exec (execute_step (env (fun _ => Throw "syntax error") (Throw "unused")) None
               "MATCH (n RETURN n") tt)
  = Ok (inr (db_error_reply "Database query failed: syntax error")).
Proof.
  destruct (X13_execute_step_absorbs_database_error
              (env (fun _ => Throw "syntax error") (Throw "unused")) None
              "MATCH (n RETURN n" (MkSt tt [])
              (MkSt tt [EvDriver None; EvRun "MATCH (n RETURN n"; EvClose])
              "Database query failed: syntax error" eq_refl eq_refl) as [H _].
  unfold exec. rewrite H. reflexivity.
Defined.

(** ** The recovery from a relationship-shape error *)

Section Recovery.
Context {W : Type}.
Variable E : Env W.
Variable cfg : option config.


End Recovery.


Lemma retries_on_one_pattern_witness :
  reversedQuery knows_query = "MATCH (b)-[:KNOWS]->(a) RETURN a,b"%string /\
  undirectedQuery knows_query = "MATCH (a)-[:KNOWS]-(b) RETURN a,b"%string.
Proof.
  apply (retries_on_one_pattern "MATCH " "a" "KNOWS" "b" " RETURN a,b");
    first [reflexivity | discriminate].
Defined.

(** X16: the rewrite of the label 妻子 changes a query only if the query
    names the label and holds a directed arrow of the label. *)
Theorem X16_rewrite_wife_changes_only_directed (q : string) :
  rewrite_wife q <> q ->
  includes q "妻子" = true /\ includes q "-[:妻子]->" = true.
Proof.
  intros Hne. split.
  - destruct (includes q "妻子") eqn:Hw; [reflexivity|].
    exfalso. apply Hne. unfold rewrite_wife. rewrite Hw. reflexivity.
  - destruct (includes q "-[:妻子]->") eqn:Ha; [reflexivity|].
    exfalso. apply Hne. apply rewrite_wife_undirected. exact Ha.
Qed.

Lemma X16_rewrite_wife_changes_only_directed_witness :
  includes "MATCH (a)-[:妻子]->(b) RETURN a,b" "妻子" = true /\
  includes "MATCH (a)-[:妻子]->(b) RETURN a,b" "-[:妻子]->" = true.
Proof.
  apply (X16_rewrite_wife_changes_only_directed "MATCH (a)-[:妻子]->(b) RETURN a,b").
  vm_compute. discriminate.
Defined.

(** ** The rewrite of the label 妻子 on one pattern *)

(** The text is somewhere in a text that includes it. *)
Lemma starts_with_inv (p l : list ascii) :
  starts_with p l = true -> exists b, l = p ++ b.
Proof.
  revert l. induction p as [|a p IH]; intros l H; [exists l; reflexivity|].
  destruct l as [|c l]; [discriminate|]. simpl in H.
  apply andb_prop in H as [Hac Hrest]. unfold ascii_eqb in Hac.
  apply Ascii.eqb_eq in Hac. subst c.
  destruct (IH l Hrest) as [b ->]. exists b. reflexivity.
Qed.

Lemma includes_chars_inv (l p : list ascii) :
  includes_chars l p = true -> exists a b, l = a ++ p ++ b.
Proof.
  induction l as [|c l IH]; simpl; intros H.
  - rewrite orb_false_r in H. apply starts_with_inv in H as [b Hb].
    exists [], b. exact Hb.
  - apply orb_prop in H as [H | H].
    + apply starts_with_inv in H as [b Hb]. exists [], b. exact Hb.
    + destruct (IH H) as [a [b ->]]. exists (c :: a), b. reflexivity.
Qed.

(** A text without a character includes no text with that character. *)
Lemma lacks_includes (c : ascii) (s p : string) :
  lacks c s = true -> c ∈ chars p -> includes s p = false.
Proof.
  intros Hs Hp. apply lacks_Forall in Hs.
  destruct (includes s p) eqn:Hi; [|reflexivity].
  unfold includes in Hi. apply includes_chars_inv in Hi as [a [b Hl]].
  rewrite Hl in Hs. rewrite !Forall_app in Hs. destruct Hs as [_ [Hs _]].
  rewrite List.Forall_forall in Hs. exfalso.
  apply (Hs c); [apply list_elem_of_In; exact Hp | reflexivity].
Qed.

Lemma lacks_app (c : ascii) (a b : string) :
  lacks c (a ++ b)%string = lacks c a && lacks c b.
Proof.
  unfold lacks. rewrite chars_app. apply forallb_app.
Qed.

Lemma wife_paren_needed (s : list ascii) :
  match s with [] => True | h :: _ => h <> "("%char end ->
  match_here wife_re s = None.
Proof.
  destruct s as [|h s]; intros H; [reflexivity|].
  unfold match_here, wife_re. cbn [seqs]. rewrite rmatch_Seq.
  cbn [rmatch Chr]. rewrite ?cls_step_plain by reflexivity. unfold cls_matches. cbn [existsb citem_matches].
  rewrite orb_false_r.
  destruct (ascii_eqb "(" h) eqn:He; [|reflexivity].
  unfold ascii_eqb in He. apply Ascii.eqb_eq in He. congruence.
Qed.

Lemma wife_search_skip (pre s m rest : list ascii) (c : caps) :
  Forall (fun a => a <> "("%char) pre ->
  match_here wife_re s = Some (m, c, rest) ->
  forall acc,
    search_from wife_re acc (pre ++ s) = Some (MkMatch (rev acc ++ pre) m c rest).
Proof.
  intros Hpre Hm. induction Hpre as [|h pre' Hh _ IH]; intros acc.
  - rewrite app_nil_r. cbn [app]. destruct s; cbn [search_from]; rewrite Hm; reflexivity.
  - cbn [app search_from]. rewrite (wife_paren_needed (h :: pre' ++ s) Hh).
    rewrite IH. cbn [rev]. rewrite <- app_assoc. reflexivity.
Qed.

Section OneWifePattern.
Variables pre x y post : list ascii.
Variables x0 y0 : ascii.
Hypothesis Hpre : Forall (fun a => a <> "("%char) pre.
Hypothesis Hx : no_paren (x0 :: x).
Hypothesis Hy : no_paren (y0 :: y).

Lemma wife_rmatch {R : Type} (k : list ascii -> caps -> option R) (res : R) :
  k post [(2, y0 :: y); (1, x0 :: x)] = Some res ->
  rmatch wife_re
    (chars "(" ++ (x0 :: x) ++ chars ")-[:妻子]->(" ++ (y0 :: y) ++ chars ")" ++ post)
    [] k = Some res.
Proof.
  intros Hk. unfold wife_re. cbn [seqs].
  set (X := x0 :: x). set (Y := y0 :: y).
  set (R1 := chars ")-[:妻子]->(" ++ Y ++ chars ")" ++ post).
  change (chars "(" ++ X ++ R1) with ("("%char :: x0 :: x ++ R1).
  rewrite rmatch_Seq, rmatch_Chr, rmatch_Seq.
  rewrite (grp_run 1 x0 x R1 [] _ Hx) by (right; eexists; reflexivity).
  apply try_back_longest.
  change (x0 :: x ++ R1) with (X ++ R1). rewrite take_app_diff.
  unfold R1. rewrite rmatch_Seq. unfold Lit at 1. rewrite rmatch_Lit_chars.
  set (R3 := chars ")" ++ post).
  change (Y ++ R3) with (y0 :: y ++ R3).
  rewrite rmatch_Seq.
  rewrite (grp_run 2 y0 y R3 _ _ Hy) by (right; eexists; reflexivity).
  apply try_back_longest.
  change (y0 :: y ++ R3) with (Y ++ R3). rewrite take_app_diff.
  unfold R3. change (chars ")" ++ post) with (")"%char :: post).
  rewrite rmatch_Chr. exact Hk.
Qed.

Lemma replace_one_wife_pattern (fuel : nat) :
  search wife_re post = None ->
  replace_all_chars (S fuel) wife_re wife_template
    (pre ++ chars "(" ++ (x0 :: x) ++ chars ")-[:妻子]->(" ++ (y0 :: y) ++ chars ")" ++ post)
  = pre ++ chars "(" ++ (x0 :: x) ++ chars ")-[:妻子]-(" ++ (y0 :: y) ++ chars ")" ++ post.
Proof.
  intros Hpost.
  set (text := chars "(" ++ (x0 :: x) ++ chars ")-[:妻子]->(" ++ (y0 :: y) ++ chars ")").
  set (input := chars "(" ++ (x0 :: x) ++ chars ")-[:妻子]->(" ++ (y0 :: y)
                ++ chars ")" ++ post).
  assert (Hin : input = text ++ post).
  { unfold input, text. rewrite <- !app_assoc. reflexivity. }
  assert (Hm : match_here wife_re input
               = Some (text, [(2, y0 :: y); (1, x0 :: x)], post)).
  { unfold match_here. apply wife_rmatch. rewrite Hin, take_app_diff. reflexivity. }
  cbn [replace_all_chars]. unfold search.
  rewrite (wife_search_skip pre _ _ _ _ Hpre Hm []).
  cbn [m_before m_caps m_text m_after rev app].
  unfold text at 1. cbn [chars list_ascii_of_string app].
  rewrite (replace_all_chars_no_match _ _ _ _ Hpost).
  unfold expand, wife_template.
  cbn [map expand_piece cap_get Nat.eqb default from_option id concat].
  rewrite !app_nil_r, <- !app_assoc. reflexivity.
Qed.

End OneWifePattern.

Lemma wife_arrow_has_head : (">"%char : ascii) ∈ chars "-[:妻子]->".
Proof. compute_done. Qed.

(** X17: on a query with one directed pattern of the label 妻子 and no
    other arrow head, the rewrite removes the arrow head of the pattern
    and changes nothing else, and applying it again changes nothing. *)
Theorem X17_rewrite_wife_on_one_pattern (pre x y post : string) :
  lacks "(" pre = true -> lacks ">" pre = true ->
  x <> EmptyString -> y <> EmptyString ->
  lacks ")" x = true -> lacks ")" y = true ->
  lacks ">" x = true -> lacks ">" y = true ->
  lacks ">" post = true ->
  let q := (pre ++ "(" ++ x ++ ")-[:妻子]->(" ++ y ++ ")" ++ post)%string in
  let q' := (pre ++ "(" ++ x ++ ")-[:妻子]-(" ++ y ++ ")" ++ post)%string in
  rewrite_wife q = q' /\ rewrite_wife q' = q'.
Proof.
  intros Hpre Hpre' Hx0 Hy0 Hx Hy Hx' Hy' Hpost q q'.
  assert (Hq' : includes q' "-[:妻子]->" = false).
  { apply (lacks_includes ">"); [|exact wife_arrow_has_head].
    unfold q'. rewrite !lacks_app, Hpre', Hx', Hy', Hpost. reflexivity. }
  split; [|apply rewrite_wife_undirected; exact Hq'].
  assert (Hnone : js_match wife_re post = None).
  { destruct (js_match wife_re post) as [m|] eqn:Hm; [|reflexivity].
    pose proof (match_includes wife_re post "-[:妻子]->" m wife_match_has_arrow Hm) as Hi.
    rewrite (lacks_includes ">" post "-[:妻子]->" Hpost wife_arrow_has_head) in Hi.
    discriminate. }
  destruct x as [|x0 x]; [contradiction|].
  destruct y as [|y0 y]; [contradiction|].
  apply lacks_Forall in Hpre, Hx, Hy.
  unfold rewrite_wife.
  assert (Hgate : includes q "妻子" = true).
  { unfold includes, q. rewrite !chars_app.
    change (chars ")-[:妻子]->(") with (chars ")-[:" ++ chars "妻子" ++ chars "]->(").
    rewrite <- !app_assoc.
    rewrite (app_assoc (chars pre)), (app_assoc (chars pre ++ chars "(")),
      (app_assoc ((chars pre ++ chars "(") ++ chars (String x0 x))).
    apply includes_chars_mid. }
  rewrite Hgate. unfold replace_all.
  assert (Hchars : chars q
                   = chars pre ++ chars "(" ++ (x0 :: chars x) ++ chars ")-[:妻子]->("
                     ++ (y0 :: chars y) ++ chars ")" ++ chars post).
  { unfold q. rewrite !chars_app. reflexivity. }
  rewrite Hchars.
  rewrite (replace_one_wife_pattern (chars pre) (chars x) (chars y) (chars post)
             x0 y0 Hpre Hx Hy _ Hnone).
  change (x0 :: chars x) with (chars (String x0 x)).
  change (y0 :: chars y) with (chars (String y0 y)).
  rewrite !str_app, !str_chars. reflexivity.
Qed.

Lemma X17_rewrite_wife_on_one_pattern_witness :
  rewrite_wife "MATCH (a)-[:妻子]->(b) RETURN a,b" = "MATCH (a)-[:妻子]-(b) RETURN a,b"%string /\
  rewrite_wife "MATCH (a)-[:妻子]-(b) RETURN a,b" = "MATCH (a)-[:妻子]-(b) RETURN a,b"%string.
Proof.
  apply (X17_rewrite_wife_on_one_pattern "MATCH " "a" "b" " RETURN a,b");
    first [reflexivity | discriminate].
Defined.

(** ** The list of models *)

Section ModelsRoute.
Import Models.
Local Open Scope string_scope.

Lemma endsWith_inv (s x : string) :
  endsWith s x = true -> exists p, s = p ++ x.
Proof.
  unfold endsWith. intros H. apply starts_with_inv in H as [b Hb].
  exists (str (rev b)).
  assert (Hc : chars s = (rev b ++ chars x)%list).
  { rewrite <- (rev_involutive (chars s)), Hb, rev_app_distr, rev_involutive.
    reflexivity. }
  rewrite <- (str_chars s), Hc, str_app, str_chars. reflexivity.
Qed.

(** X18: the address asked for the list of models always begins with the
    base URL it was given and always ends with /v1/models. *)
Theorem X18_modelsUrl_shape (baseUrl : string) :
  (exists q, modelsUrl baseUrl = baseUrl ++ q) /\
  (exists p, modelsUrl baseUrl = p ++ "/v1/models").
Proof.
  unfold modelsUrl.
  destruct (endsWith baseUrl "/v1") eqn:H1.
  - split; [eexists; reflexivity|].
    apply endsWith_inv in H1 as [p ->]. exists p.
    rewrite append_assoc. reflexivity.
  - destruct (endsWith baseUrl "/") eqn:H2.
    + split; [eexists; reflexivity|].
      apply endsWith_inv in H2 as [p ->]. exists p.
      rewrite append_assoc. reflexivity.
    + split; [eexists; reflexivity|]. exists baseUrl. reflexivity.
Qed.

(** X19: a base URL that ends with /v1/ (a trailing slash after the
    version) is completed to an address in which /v1 appears twice. *)
Theorem X19_modelsUrl_trailing_slash (b : string) :
  modelsUrl (b ++ "/v1/") = b ++ "/v1/v1/models".
Proof.
  unfold modelsUrl, endsWith.
  rewrite chars_app, rev_app_distr.
  change (rev (chars "/v1/")) with (chars "/1v/").
  change (rev (chars "/v1")) with (chars "1v/").
  change (rev (chars "/")) with (chars "/").
  cbn [chars list_ascii_of_string app starts_with].
  replace (ascii_eqb "1" "/") with false by reflexivity.
  replace (ascii_eqb "/" "/") with true by reflexivity.
  cbn [andb]. rewrite append_assoc. reflexivity.
Qed.

Context {W : Type}.
Variable H : Http W.

(** X20: with an API key, the route of the models sends exactly one
    request, to the address derived from the base URL of the request, of the
    environment or of OpenAI, with the key as bearer token; it answers with
    status 200 whatever the HTTP client does, and with an empty list when
    the client throws. *)
Theorem X20_models_route_one_request (body : models_request) (key : string) (w : W) :
  present (mr_openaiApiKey body) = Some key ->
  let base := default "https://api.openai.com/v1"
                (or_opt (or_opt (mr_openaiBaseUrl body) (http_OPENAI_BASE_URL H)) None) in
  exists models w',
    models_POST H (Some body) w
    = (MkModelsResponse 200 (ModelsList models), w',
       [(modelsUrl base, "Bearer " ++ key)]) /\
    (forall msg w1,
       axios_get H (modelsUrl base) ("Bearer " ++ key) w = (Throw msg, w1) ->
       models = []).
Proof.
  intros Hkey base. unfold models_POST. rewrite Hkey. fold base.
  unfold getAvailableModels.
  destruct (axios_get H (modelsUrl base) ("Bearer " ++ key) w) as [[data|msg] w1].
  - eexists _, _. split; [reflexivity|]. intros ? ? Hx. discriminate.
  - eexists _, _. split; [reflexivity|]. intros ? ? _. reflexivity.
Qed.

(** X21: without an API key, or without a body that parses, the route of
    the models answers with status 400 and sends no request. *)
Theorem X21_models_route_rejects_missing_key (request : option models_request) (w : W) :
  match request with
  | Some body => present (mr_openaiApiKey body) = None
  | None => True
  end ->
  exists msg,
    models_POST H request w = (MkModelsResponse 400 (ModelsMessage msg), w, []).
Proof.
  intros Hreq. unfold models_POST. destruct request as [body|].
  - rewrite Hreq. eexists. reflexivity.
  - eexists. reflexivity.
Qed.

End ModelsRoute.

Lemma X20_models_route_one_request_witness :
  exists models w',
    Models.models_POST (Script.http (Throw "timeout"))
      (Some (Models.MkModelsRequest (Some "sk-1") None)) tt
    = (Models.MkModelsResponse 200 (Models.ModelsList models), w',
       [("https://api.openai.com/v1/models", "Bearer sk-1")]) /\
    (forall msg w1,
       Models.axios_get (Script.http (Throw "timeout"))
         "https://api.openai.com/v1/models" "Bearer sk-1" tt = (Throw msg, w1) ->
       models = []).
Proof.
  exact (X20_models_route_one_request (Script.http (Throw "timeout"))
           (Models.MkModelsRequest (Some "sk-1") None) "sk-1" tt eq_refl).
Defined.

Lemma X21_models_route_rejects_missing_key_witness :
  exists msg,
    Models.models_POST (Script.http (Ok None))
      (Some (Models.MkModelsRequest (Some EmptyString) (Some "http://localhost:1234"))) tt
    = (Models.MkModelsResponse 400 (Models.ModelsMessage msg), tt, []).
Proof.
  exact (X21_models_route_rejects_missing_key (Script.http (Ok None))
           (Some (Models.MkModelsRequest (Some EmptyString) (Some "http://localhost:1234")))
           tt eq_refl).
Defined.

(** ** The route of the schema *)

Section SchemaRouteAnswers.
Import SchemaRoute.
Context {W : Type}.
Variable E : Env W.

(** Closing a session does not throw. *)
Hypothesis closes :
  forall w, exists w', session_close E w = (Ok tt, w').

Lemma guarded_close_returns {A : Type} (m : M W A) (d : A) (st : St W) :
  exists a st', finally (try_catch m (fun _ => ret d)) (close E) st = (Ok a, st').
Proof.
  unfold finally, try_catch, close, call, ret.
  destruct (m st) as [[a|msg] st1].
  - destruct (closes (world st1)) as [w2 Hc]. rewrite Hc. eexists _, _. reflexivity.
  - destruct (closes (world st1)) as [w2 Hc]. rewrite Hc. eexists _, _. reflexivity.
Qed.

Lemma getGraphSchema_returns (cfg : option config) (st : St W) :
  exists s st', getGraphSchema E cfg st = (Ok s, st').
Proof.
  unfold getGraphSchema.
  destruct (try_catch _ _ st) as [[[|]|msg] st1].
  - apply guarded_close_returns.
  - eexists _, _. reflexivity.
  - eexists _, _. reflexivity.
Qed.

Lemma getNodeProperties_returns (cfg : option config) (st : St W) :
  exists np st', getNodeProperties E cfg st = (Ok np, st').
Proof.
  unfold getNodeProperties.
  destruct (try_catch _ _ st) as [[[|]|msg] st1].
  - apply guarded_close_returns.
  - eexists _, _. reflexivity.
  - eexists _, _. reflexivity.
Qed.

(** X22: when closing a session does not throw, the route of the schema
    answers a request that carries its three connection parameters with
    status 200 and a schema, whatever the driver and the queries do: no
    failure of the database reaches its status 500. *)
Theorem X22_schema_route_answers_200 (u n p : option string) (w : W) :
  missing u = false -> missing n = false -> missing p = false ->
  exists nodeLabels relationshipTypes nodeProperties st',
    exec (GET E u n p) w
    = (Ok (MkSchemaResponse 200
             (SchemaData nodeLabels relationshipTypes nodeProperties)), st').
Proof.
  intros Hu Hn Hp. unfold exec, GET. rewrite Hu, Hn, Hp. cbn [orb].
  unfold try_catch, bind.
  destruct (getGraphSchema_returns (Some (MkConfig u n p)) (MkSt w [])) as [s [st1 H1]].
  rewrite H1.
  destruct (getNodeProperties_returns (Some (MkConfig u n p)) st1) as [np [st2 H2]].
  rewrite H2. eexists _, _, _, _. reflexivity.
Qed.

End SchemaRouteAnswers.

Lemma X22_schema_route_answers_200_witness :
  exists nodeLabels relationshipTypes nodeProperties st',
    exec (SchemaRoute.GET (Script.env (fun _ => Throw "connection refused") (Ok "unused"))
            (Some "bolt://db") (Some "neo4j") (Some "pw")) tt
    = (Ok (SchemaRoute.MkSchemaResponse 200
             (SchemaRoute.SchemaData nodeLabels relationshipTypes nodeProperties)), st').
Proof.
  apply (X22_schema_route_answers_200
           (Script.env (fun _ => Throw "connection refused") (Ok "unused"))).
  - intros w. exists w. reflexivity.
  - reflexivity.
  - reflexivity.
  - reflexivity.
Defined.

Section SchemaRouteRejects.
Import SchemaRoute.
Context {W : Type}.
Variable E : Env W.

(** X23: the route of the schema answers a request that lacks one of the
    three connection parameters with status 400, without any call to the
    database. *)
Theorem X23_schema_route_rejects_missing_parameter (u n p : option string) (w : W) :
  missing u || missing n || missing p = true ->
  exec (GET E u n p) w
  = (Ok (MkSchemaResponse 400 (SchemaError incomplete_message)), MkSt w []).
Proof.
  intros Hm. unfold exec, GET. rewrite Hm. reflexivity.
Qed.

End SchemaRouteRejects.

Lemma X23_schema_route_rejects_missing_parameter_witness :
  exec (SchemaRoute.GET (Script.env Script.silent_db (Ok "unused"))
          (Some "bolt://db") None (Some "pw")) tt
  = (Ok (SchemaRoute.MkSchemaResponse 400
           (SchemaRoute.SchemaError SchemaRoute.incomplete_message)), MkSt tt []).
Proof.
  exact (X23_schema_route_rejects_missing_parameter
           (Script.env Script.silent_db (Ok "unused"))
           (Some "bolt://db") None (Some "pw") tt eq_refl).
Defined.

(** ** The connection pool *)

Section Pool.
Import Driver.
Variable L : Lib.

Lemma present_Some (x : option string) (u : string) :
  present x = Some u -> x = Some u.
Proof.
  unfold present, or_opt. destruct x as [v|]; [|discriminate].
  destruct (JsString.truthy v); [|discriminate]. intros H. exact H.
Qed.

Lemma differs_same (u : string) : differs (Some u) u = false.
Proof. unfold differs. rewrite String.eqb_refl. reflexivity. Qed.

Lemma construct_resolved (c : option config) (cn : connection) :
  construct L c = Ok cn ->
  or_opt (custom c uri) (NEO4J_URI L) = Some (cn_uri cn) /\
  or_opt (custom c username) (NEO4J_USERNAME L) = Some (cn_username cn) /\
  or_opt (custom c password) (NEO4J_PASSWORD L) = Some (cn_password cn).
Proof.
  unfold construct, resolve.
  destruct (present (or_opt (custom c uri) (NEO4J_URI L))) as [u|] eqn:Hu;
    [|discriminate].
  destruct (present (or_opt (custom c username) (NEO4J_USERNAME L))) as [n|] eqn:Hn;
    [|discriminate].
  destruct (present (or_opt (custom c password) (NEO4J_PASSWORD L))) as [p|] eqn:Hp;
    [|discriminate].
  destruct (neo4j_driver L (MkConnection u n p)); [|discriminate].
  intros Heq. injection Heq as <-. cbn [cn_uri cn_username cn_password].
  apply present_Some in Hu, Hn, Hp. auto.
Qed.

(** X24: while the variable [driver] holds a driver, [getDriver] hands out
    that driver, whatever configuration it is called with: within the call
    it creates no driver, and it leaves [driver] and [currentConfig] as
    they are. *)
Theorem X24_getDriver_hands_out_live_driver (c : option config) (s : state) (d : handle) :
  driver s = Some d ->
  fst (getDriver L c s) = Resolved d /\
  driver (snd (getDriver L c s)) = Some d /\
  currentConfig (snd (getDriver L c s)) = currentConfig s /\
  fresh (snd (getDriver L c s)) = fresh s /\
  settled (snd (getDriver L c s)) = settled s.
Proof.
  intros Hd. unfold getDriver.
  destruct (given c); [destruct (changed L c s)|].
  - unfold closeDriver. rewrite Hd. cbn [driver]. unfold reuse. cbn [driver fst snd].
    cbn. auto.
  - rewrite Hd. unfold reuse. rewrite Hd. cbn. auto.
  - unfold reuse. rewrite Hd. cbn. auto.
Qed.

(** X25: called with a configuration that differs from the current one,
    [getDriver] starts closing the driver in use and returns that same
    driver. *)
Theorem X25_getDriver_returns_driver_being_closed (c : option config) (s : state)
    (d : handle) :
  driver s = Some d ->
  given c = true ->
  changed L c s = true ->
  getDriver L c s
  = (Resolved d,
     MkState (Some d) (driverInitPromise s) (currentConfig s) (fresh s) (settled s)
       (log s ++ [CloseStarted d])).
Proof.
  intros Hd Hg Hc. unfold getDriver. rewrite Hg, Hc.
  unfold closeDriver, reuse. rewrite Hd. cbn. rewrite ?Hd. reflexivity.
Qed.

(** X26: a driver that was just created is handed out by the next call
    with the same configuration although its connectivity check has not
    completed: no promise was settled in between. *)
Theorem X26_getDriver_hands_out_unverified_driver (c : option config) (s : state)
    (cn : connection) :
  driver s = None ->
  given c = true ->
  construct L c = Ok cn ->
  exists n d s1,
    getDriver L c s = (Init n, s1) /\
    getDriver L c s1 = (Resolved d, s1) /\
    currentConfig s1 = Some cn /\
    settled s1 = settled s /\
    log s1 = log s ++ [Created d cn; VerifyStarted d].
Proof.
  intros Hd Hg Hc.
  assert (Hch : changed L c s = false) by (unfold changed; rewrite Hd; reflexivity).
  unfold getDriver at 1. rewrite Hg, Hch, Hd.
  unfold start, initDriver. rewrite Hc.
  eexists _, _, _. split; [reflexivity|].
  split; [|cbn; auto].
  unfold getDriver. rewrite Hg.
  destruct (construct_resolved c cn Hc) as [Hu [Hn Hp]].
  unfold changed. cbn [driver currentConfig].
  rewrite Hu, Hn, Hp, !differs_same. cbn. reflexivity.
Qed.

(** X27: when [initDriver] fails before its first [await] in a call
    without configuration, the rejected promise stays in
    [driverInitPromise]: every later call without configuration gets that
    same rejected promise, and no driver is created. *)
Theorem X27_failed_default_init_is_kept (c : option config) (s : state) (msg : string) :
  given c = false ->
  driver s = None ->
  driverInitPromise s = None ->
  construct L c = Throw msg ->
  exists n s1,
    getDriver L c s = (Init n, s1) /\
    In (n, Rejected ("Failed to connect to Neo4j: " ++ msg)) (settled s1) /\
    log s1 = log s /\
    forall c', given c' = false -> getDriver L c' s1 = (Init n, s1).
Proof.
  intros Hg Hd Hp Hc. unfold getDriver at 1. rewrite Hg.
  unfold reuse. rewrite Hd, Hp. unfold start, initDriver. rewrite Hc.
  eexists _, _. split; [reflexivity|].
  split; [cbn; apply in_or_app; right; left; reflexivity|].
  split; [reflexivity|].
  intros c' Hg'. unfold getDriver. rewrite Hg'. reflexivity.
Qed.

End Pool.

Lemma X24_getDriver_hands_out_live_driver_witness :
  fst (Driver.getDriver Script.lib Script.config_b Script.pool_a) = Driver.Resolved 1 /\
  Driver.driver (snd (Driver.getDriver Script.lib Script.config_b Script.pool_a)) = Some 1 /\
  Driver.currentConfig (snd (Driver.getDriver Script.lib Script.config_b Script.pool_a))
  = Driver.currentConfig Script.pool_a /\
  Driver.fresh (snd (Driver.getDriver Script.lib Script.config_b Script.pool_a))
  = Driver.fresh Script.pool_a /\
  Driver.settled (snd (Driver.getDriver Script.lib Script.config_b Script.pool_a))
  = Driver.settled Script.pool_a.
Proof.
  exact (X24_getDriver_hands_out_live_driver Script.lib Script.config_b Script.pool_a 1
           eq_refl).
Defined.

Lemma X25_getDriver_returns_driver_being_closed_witness :
  Driver.getDriver Script.lib Script.config_b Script.pool_a
  = (Driver.Resolved 1,
     Driver.MkState (Some 1) (Some 0)
       (Some (Driver.MkConnection "bolt://a" "neo4j" "pw")) 2
       [(0, Driver.Fulfilled (Some 1))]
       [Driver.Created 1 (Driver.MkConnection "bolt://a" "neo4j" "pw");
        Driver.VerifyStarted 1; Driver.CloseStarted 1]).
Proof.
  exact (X25_getDriver_returns_driver_being_closed Script.lib Script.config_b
           Script.pool_a 1 eq_refl eq_refl eq_refl).
Defined.

Lemma X26_getDriver_hands_out_unverified_driver_witness :
  exists n d s1,
    Driver.getDriver Script.lib Script.config_b Script.pool_empty = (Driver.Init n, s1) /\
    Driver.getDriver Script.lib Script.config_b s1 = (Driver.Resolved d, s1) /\
    Driver.currentConfig s1 = Some (Driver.MkConnection "bolt://b" "neo4j" "pw") /\
    Driver.settled s1 = Driver.settled Script.pool_empty /\
    Driver.log s1
    = Driver.log Script.pool_empty ++
      [Driver.Created d (Driver.MkConnection "bolt://b" "neo4j" "pw");
       Driver.VerifyStarted d].
Proof.
  exact (X26_getDriver_hands_out_unverified_driver Script.lib Script.config_b
           Script.pool_empty (Driver.MkConnection "bolt://b" "neo4j" "pw")
           eq_refl eq_refl eq_refl).
Defined.

Lemma X27_failed_default_init_is_kept_witness :
  exists n s1,
    Driver.getDriver Script.lib None Script.pool_empty = (Driver.Init n, s1) /\
    In (n, Driver.Rejected "Failed to connect to Neo4j: Neo4j URI is not set")
       (Driver.settled s1) /\
    Driver.log s1 = Driver.log Script.pool_empty /\
    forall c', Driver.given c' = false ->
               Driver.getDriver Script.lib c' s1 = (Driver.Init n, s1).
Proof.
  exact (X27_failed_default_init_is_kept Script.lib None Script.pool_empty
           "Neo4j URI is not set" eq_refl eq_refl eq_refl eq_refl).
Defined.

(** ** The graph data on the client *)

Section ClientGraph.
Import Client.

Lemma filter_exc_throws {A : Type} (f : A -> Exc bool) (l : list A) (a : A) :
  a ∈ l -> (exists m, f a = Throw m) -> exists m, filter_exc f l = Throw m.
Proof.
  induction l as [|b l IH]; intros Hin Hf.
  - inversion Hin.
  - apply elem_of_cons in Hin. cbn [filter_exc].
    destruct (f b) as [v|m] eqn:Hb; [|eexists; reflexivity].
    destruct Hin as [-> | Hin].
    + destruct Hf as [m Hm]. rewrite Hm in Hb. discriminate.
    + destruct (IH Hin Hf) as [m ->]. eexists; reflexivity.
Qed.




Lemma nodeIdMap_resolves (ns : list raw_node) (id : string) :
  is_Some (nodeIdMap_of (map transform_node ns) !! id) <-> id ∈ map n_id ns.
Proof.
  unfold nodeIdMap_of. rewrite fill_nodeIdMap_dom, transform_node_ids_list.
  split; [intros [H | H]; [exact H | rewrite lookup_empty in H; destruct H; discriminate]
         | intros H; left; exact H].
Qed.

Lemma processGraph_with_nodes (nodes : list graph_node) (links : list out_link) :
  nodes <> [] ->
  processGraph (Some (MkOutGraph nodes links))
  = match validate nodes links with
    | Ok links' => MkProcessed nodes links' None
    | Throw _ => MkProcessed [] [] (Some "处理图数据时出错")
    end.
Proof.
  intros Hn. destruct nodes as [|n nodes]; [contradiction | reflexivity].
Qed.

Lemma transform_node_nonempty (ns : list raw_node) :
  ns <> [] -> map transform_node ns <> [].
Proof. destruct ns; [contradiction | discriminate]. Qed.

(** X28: when the result holds a relationship one of whose ends is not
    among its nodes and names no inherited member of an object, the
    client, given the graph data of the response, draws nothing: the
    lookup of that end is undefined, reading it throws, and the client
    shows its processing error and an empty graph. *)
Theorem X28_dangling_link_blanks_the_graph (ns : list raw_node) (rs : list raw_rel)
    (rel : raw_rel) :
  ns <> [] ->
  rel ∈ rs ->
  ((startNodeId rel ∉ map n_id ns) /\ ordinary (startNodeId rel) = true) \/
  ((endNodeId rel ∉ map n_id ns) /\ ordinary (endNodeId rel) = true) ->
  processGraph
    (Some (convertGraphDataForResponse
             (transformNeo4jResultToGraphData (Some (MkResult (Some ns) (Some rs))))))
  = MkProcessed [] [] (Some "处理图数据时出错").
Proof.
  intros Hns Hrel Hdangling.
  unfold convertGraphDataForResponse.
  cbn [transformNeo4jResultToGraphData nodes relationships g_nodes g_links].
  rewrite processGraph_with_nodes by (apply transform_node_nonempty; exact Hns).
  set (idmap := nodeIdMap_of (map transform_node ns)).
  set (conv := fun link => MkOutLink (pretty <$> source link) (pretty <$> target link) link).
  assert (Hthrow : exists m,
             validate (map transform_node ns) (map conv (map (transform_rel idmap) rs))
             = Throw m).
  { unfold validate.
    match goal with |- context [filter_exc ?f ?l] =>
      destruct (filter_exc_throws f l (conv (transform_rel idmap rel))) as [m Hm]
    end.
    - apply list_elem_of_fmap. exists (transform_rel idmap rel). split; [reflexivity|].
      apply list_elem_of_fmap. exists rel. split; [reflexivity | exact Hrel].
    - unfold endpoints_unknown, endpoints_known, conv, transform_rel.
      cbn [o_source o_target source target].
      destruct (idmap !! startNodeId rel) as [i|] eqn:Hs; cbn [fmap option_fmap option_map getNodeId].
      + destruct (idmap !! endNodeId rel) as [j|] eqn:He;
          cbn [fmap option_fmap option_map getNodeId]; [|eexists; reflexivity].
        exfalso. destruct Hdangling as [[Hd _] | [Hd _]]; apply Hd; apply nodeIdMap_resolves.
        * fold idmap. rewrite Hs. eexists; reflexivity.
        * fold idmap. rewrite He. eexists; reflexivity.
      + eexists; reflexivity.
    - rewrite Hm. eexists; reflexivity. }
  destruct Hthrow as [m Hm]. rewrite Hm. reflexivity.
Qed.





End ClientGraph.

Lemma X28_dangling_link_blanks_the_graph_witness :
  Client.processGraph
    (Some (convertGraphDataForResponse
             (transformNeo4jResultToGraphData
                (Some (MkResult
                         (Some [MkRawNode "1" (Some ["Person"]) (Some []);
                                MkRawNode "2" (Some ["Person"]) (Some []);
                                MkRawNode "3" (Some ["Person"]) (Some [])])
                         (Some [MkRawRel "10" "KNOWS" "1" "2" (Some []);
                                MkRawRel "11" "KNOWS" "2" "3" (Some []);
                                MkRawRel "12" "KNOWS" "3" "4" (Some [])]))))))
  = Client.MkProcessed [] [] (Some "处理图数据时出错").
Proof.
  apply (X28_dangling_link_blanks_the_graph _ _ (MkRawRel "12" "KNOWS" "3" "4" (Some []))).
  - discriminate.
  - right. right. left.
  - right. split; [compute_done | reflexivity].
Defined.


